(** * Token lifecycle and brute-force defence of the home-organization backend

    A shallow embedding of
      - backend/app/api/auth.py            (issuer, refresh store, handlers)
      - backend/app/api/deps.py            (access-token validator)
      - backend/app/api/ws.py, graphql/context.py (other authenticators)
      - backend/app/services/rate_limiter.py (request limiter, login guard)
      - backend/app/api/deps_rate_limit.py, deps_audit.py
      - backend/app/core/limiter.py        (key function, route decorator)
      - backend/app/db/models/refresh_token.py, token_blocklist.py
      - backend/app/celery_tasks/maintenance.py (token cleanup)
    followed by the properties of the specification that were checked
    against it.

    Conventions of the embedding.
      - A [datetime] is a UTC instant in microseconds; the [exp] claim of a
        token is in whole seconds ([timegm]); the counter store keeps its
        clock in milliseconds ([mstime]).
      - One handler invocation reads the clock once: [now] is an argument.
      - Values drawn from [uuid.uuid4()] are arguments of the function that
        draws them.
      - The SQLAlchemy session is a working copy of the database plus the
        list of snapshots it has committed; the handlers never query a table
        between changing one of its rows and the next commit, so the
        session's [autoflush=False] is not observable. *)

From stdpp Require Import base tactics option list strings gmap pretty.
From Stdlib Require Import ZArith Lia Ascii.

#[local] Open Scope Z_scope.

(* ===================================================================== *)
(** ** Time *)

Definition datetime : Type := Z.

(** [calendar.timegm(d.utctimetuple())]: whole seconds since the epoch. *)
Definition timegm (d : datetime) : Z := d / 1000000.

(** The clock of the counter store at the instant [d], in milliseconds. *)
Definition mstime (d : datetime) : Z := d / 1000.

(** The seconds since the epoch that fall in the years 1 to 9999, the
    instants a [datetime] can hold. *)
Definition representable (ts : Z) : Prop :=
  -62135596800 ≤ ts ≤ 253402300799.

Definition timedelta_minutes (m : Z) : Z := m * 60 * 1000000.
Definition timedelta_days (d : Z) : Z := d * 86400 * 1000000.

(* ===================================================================== *)
(** ** Settings (backend/app/config.py) *)

Record Settings := {
  SECRET_KEY : string;
  ACCESS_TOKEN_EXPIRE_MINUTES : Z;
  REFRESH_TOKEN_EXPIRE_DAYS : Z;
  RATE_LIMIT_ENABLED : bool;
  RATE_LIMIT_PER_MINUTE : Z;
  RATE_LIMIT_PER_HOUR : Z;
  BRUTE_FORCE_MAX_ATTEMPTS : Z;
  BRUTE_FORCE_LOCKOUT_MINUTES : Z
}.

(** The defaults of config.py, with a key chosen by the deployment. *)
Definition default_settings (key : string) : Settings := {|
  SECRET_KEY := key;
  ACCESS_TOKEN_EXPIRE_MINUTES := 15;
  REFRESH_TOKEN_EXPIRE_DAYS := 30;
  RATE_LIMIT_ENABLED := true;
  RATE_LIMIT_PER_MINUTE := 60;
  RATE_LIMIT_PER_HOUR := 1000;
  BRUTE_FORCE_MAX_ATTEMPTS := 5;
  BRUTE_FORCE_LOCKOUT_MINUTES := 15
|}.

(* ===================================================================== *)
(** ** Exceptions and the state-and-exception monad *)

Record HTTPException := {
  status_code : Z;
  detail : string;
  headers : list (string * string)
}.

Inductive JWTError := JWSSignatureError | ExpiredSignatureError.

Inductive Exn :=
| HTTPExc (e : HTTPException)
| JWTExc (e : JWTError)
| IntegrityError
| RedisConnectionError
| RedisResponseError           (* the store answers a command with an error *)
| ValueError                   (* also OverflowError and OSError of datetime *)
| PlainException (msg : string).

Inductive Result (A : Type) :=
| Return (a : A)
| Raise (e : Exn).
Arguments Return {A} a.
Arguments Raise {A} e.

(** A computation over a store [S] that may raise; the store survives the
    exception, as the objects a Python function has mutated do. *)
Definition ST (S A : Type) : Type := S → S * Result A.

Definition st_ret {S A} (a : A) : ST S A := λ s, (s, Return a).
Definition st_raise {S A} (e : Exn) : ST S A := λ s, (s, Raise e).
Definition st_bind {S A B} (m : ST S A) (k : A → ST S B) : ST S B :=
  λ s, match m s with
       | (s', Return a) => k a s'
       | (s', Raise e) => (s', Raise e)
       end.

(** [try: m except: h]; [h e = None] lets [e] propagate. *)
Definition st_try {S A} (m : ST S A) (h : Exn → option (ST S A)) : ST S A :=
  λ s, match m s with
       | (s', Return a) => (s', Return a)
       | (s', Raise e) =>
           match h e with
           | Some k => k s'
           | None => (s', Raise e)
           end
       end.

Notation "'do' x <- m ; k" := (st_bind m (λ x, k))
  (at level 10, x binder, m at level 100, k at level 200,
   format "'[v' 'do'  x  <-  m ; '/' k ']'").
Notation "m >> k" := (st_bind m (λ _, k))
  (at level 100, k at level 200, right associativity).

Definition raise_http {S A} (code : Z) (msg : string)
    (hdrs : list (string * string)) : ST S A :=
  st_raise (HTTPExc {| status_code := code; detail := msg; headers := hdrs |}).

(** Handlers of the three [except] clauses the sources use. *)
Definition on_JWTError {S A} (k : ST S A) (e : Exn) : option (ST S A) :=
  match e with JWTExc _ => Some k | _ => None end.
Definition on_HTTPException {S A} (k : ST S A) (e : Exn) : option (ST S A) :=
  match e with HTTPExc _ => Some k | _ => None end.
(** [datetime.utcfromtimestamp(ts)]: raises outside [datetime]'s range. *)
Definition utcfromtimestamp {S} (ts : Z) : ST S datetime :=
  if bool_decide (representable ts) then st_ret (ts * 1000000)
  else st_raise ValueError.

Definition on_Exception {S A} (k : ST S A) (e : Exn) : option (ST S A) :=
  Some k.

(* ===================================================================== *)
(** ** Signed tokens (python-jose)

    A token is either a string that is no JWS at all, or a JWS: a claims
    object together with the key its MAC was computed with.  The MAC is
    taken to be unforgeable: [jwt.decode] accepts exactly the tokens made
    with the same key.  After the signature, [jwt.decode] validates the
    registered claims it finds, [exp] among them ([sub] and [jti], when
    present, are strings, which the types below build in). *)

Record Claims := {
  c_sub : option string;
  c_jti : option string;
  c_type : option string;
  c_exp : option Z
}.

Inductive Token :=
| NotAJWS (raw : string)
| JWS (key : string) (payload : Claims).

Definition jwt_encode (claims : Claims) (key : string) : Token := JWS key claims.

Definition jwt_decode (token : Token) (key : string) (verify_exp : bool)
    (now : datetime) : JWTError + Claims :=
  match token with
  | NotAJWS _ => inl JWSSignatureError
  | JWS k claims =>
      if bool_decide (k = key) then
        match c_exp claims with
        | Some e =>
            if verify_exp && bool_decide (e < timegm now)
            then inl ExpiredSignatureError
            else inr claims
        | None => inr claims
        end
      else inl JWSSignatureError
  end.

Definition decode {S} (token : Token) (key : string) (verify_exp : bool)
    (now : datetime) : ST S Claims :=
  match jwt_decode token key verify_exp now with
  | inl e => st_raise (JWTExc e)
  | inr c => st_ret c
  end.

(** Truth value of [payload.get(k)] for a string claim: absent and empty
    are false. *)
Definition truthy (o : option string) : bool :=
  match o with
  | Some s => negb (bool_decide (s = ""))
  | None => false
  end.

(** [str(uuid.uuid4())]: 32 lower-case hexadecimal digits of a 128-bit number
    in groups 8-4-4-4-12. *)
Definition hex_digit (n : N) : ascii :=
  match n with
  | 0 => "0" | 1 => "1" | 2 => "2" | 3 => "3" | 4 => "4" | 5 => "5"
  | 6 => "6" | 7 => "7" | 8 => "8" | 9 => "9" | 10 => "a" | 11 => "b"
  | 12 => "c" | 13 => "d" | 14 => "e" | _ => "f"
  end%N%char.

(** The [count] digits whose least significant one is digit number [low]. *)
Fixpoint hex_field (u : N) (low : N) (count : nat) : string :=
  match count with
  | O => ""
  | S c =>
      String (hex_digit (N.land (N.shiftr u (4 * (low + N.of_nat c))) 15))
             (hex_field u low c)
  end.

Definition uuid_str (u : N) : string :=
  hex_field u 24 8 +:+ "-" +:+ hex_field u 20 4 +:+ "-" +:+
  hex_field u 16 4 +:+ "-" +:+ hex_field u 12 4 +:+ "-" +:+ hex_field u 0 12.

(* ===================================================================== *)
(** ** Persistent tables (backend/app/db/models) *)

Record User := {
  user_id : Z;
  email : string;
  hashed_password : string;
  is_active : bool
}.

Record RefreshToken := {
  rt_id : Z;
  rt_user_id : Z;
  rt_jti : string;
  rt_expires_at : datetime;
  rt_created_at : datetime;
  revoked : bool;
  revoked_at : option datetime;
  device_info : option string;
  ip_address : option string
}.

Record TokenBlocklist := {
  bl_id : Z;
  bl_jti : string;
  token_type : string;
  bl_user_id : option Z;
  bl_expires_at : datetime;
  bl_revoked_at : datetime;
  reason : option string
}.

Record DB := {
  users : list User;
  refresh_token_table : list RefreshToken;
  token_blocklist : list TokenBlocklist
}.

Definition empty_db : DB :=
  {| users := []; refresh_token_table := []; token_blocklist := [] |}.

Definition with_refresh_tokens (f : list RefreshToken → list RefreshToken)
    (db : DB) : DB :=
  {| users := users db;
     refresh_token_table := f (refresh_token_table db);
     token_blocklist := token_blocklist db |}.

Definition with_token_blocklist (f : list TokenBlocklist → list TokenBlocklist)
    (db : DB) : DB :=
  {| users := users db;
     refresh_token_table := refresh_token_table db;
     token_blocklist := f (token_blocklist db) |}.

Definition with_users (f : list User → list User) (db : DB) : DB :=
  {| users := f (users db);
     refresh_token_table := refresh_token_table db;
     token_blocklist := token_blocklist db |}.

(** [RefreshToken.is_valid] *)
Definition is_valid (t : RefreshToken) (now : datetime) : bool :=
  negb (revoked t) && bool_decide (now < rt_expires_at t).

(** [RefreshToken.revoke] *)
Definition revoke (t : RefreshToken) (now : datetime) : RefreshToken :=
  {| rt_id := rt_id t; rt_user_id := rt_user_id t; rt_jti := rt_jti t;
     rt_expires_at := rt_expires_at t; rt_created_at := rt_created_at t;
     revoked := true; revoked_at := Some now;
     device_info := device_info t; ip_address := ip_address t |}.

(** [TokenBlocklist.is_expired] *)
Definition is_expired (b : TokenBlocklist) (now : datetime) : bool :=
  bool_decide (bl_expires_at b < now).

(** The next value of an autoincrement primary key. *)
Definition next_id (ids : list Z) : Z := 1 + foldr Z.max 0 ids.

(* ===================================================================== *)
(** ** The database session *)

Record Session := {
  opened_on : DB;        (* the committed state when the session opened *)
  commits : list DB;     (* snapshots committed since, newest first *)
  working : DB           (* the transaction's view *)
}.

Definition M (A : Type) : Type := ST Session A.

Definition open_session (db : DB) : Session :=
  {| opened_on := db; commits := []; working := db |}.

(** What is durable: the last commit, or the state the session found. *)
Definition durable (s : Session) : DB := default (opened_on s) (head (commits s)).

(** Every state other sessions could ever observe, oldest last. *)
Definition observable (s : Session) : list DB := commits s ++ [opened_on s].

Definition db_read : M DB := λ s, (s, Return (working s)).

Definition db_write (f : DB → DB) : M unit :=
  λ s, ({| opened_on := opened_on s; commits := commits s;
           working := f (working s) |}, Return ()).

Definition db_commit : M unit :=
  λ s, ({| opened_on := opened_on s; commits := working s :: commits s;
           working := working s |}, Return ()).

(** A handler runs in a session of its own ([get_db]); closing the session
    drops what was not committed. *)
Definition run_request {A} (m : M A) (db : DB) : DB * Result A :=
  let (s, r) := m (open_session db) in (durable s, r).

(** The row of a mapped object is written back by primary key. *)
Definition db_update_refresh_token (t : RefreshToken) : M unit :=
  db_write (with_refresh_tokens
    (fmap (λ r, if bool_decide (rt_id r = rt_id t) then t else r))).

(** [get_user_by_email] (deps.py) *)
Definition get_user_by_email (mail : string) : M (option User) :=
  do db <- db_read;
  st_ret (head (filter (λ u, email u = mail) (users db))).

(* ===================================================================== *)
(** ** Issuer (auth.py) *)

(** [expires_delta or d]: an absent timedelta and a timedelta of zero are
    both false. *)
Definition timedelta_or (expires_delta : option Z) (d : Z) : Z :=
  match expires_delta with
  | Some delta => if bool_decide (delta = 0) then d else delta
  | None => d
  end.

(** [create_access_token]: [data.copy()] updated with [exp], [type], [jti]. *)
Definition access_claims (cfg : Settings) (data : Claims)
    (expires_delta : option Z) (now : datetime) (uuid4 : N) : Claims :=
  let expire :=
    now + timedelta_or expires_delta
            (timedelta_minutes (ACCESS_TOKEN_EXPIRE_MINUTES cfg)) in
  {| c_sub := c_sub data;
     c_jti := Some (uuid_str uuid4);
     c_type := Some "access";
     c_exp := Some (timegm expire) |}.

Definition create_access_token (cfg : Settings) (data : Claims)
    (expires_delta : option Z) (now : datetime) (uuid4 : N) : Token :=
  jwt_encode (access_claims cfg data expires_delta now uuid4) (SECRET_KEY cfg).

Definition sub_only (mail : string) : Claims :=
  {| c_sub := Some mail; c_jti := None; c_type := None; c_exp := None |}.

(** [create_refresh_token]; the unique index on [jti] rejects a duplicate. *)
Definition create_refresh_token (cfg : Settings) (user : User)
    (device : option string) (ip : option string)
    (now : datetime) (uuid4 : N) : M (Token * RefreshToken) :=
  let jti := uuid_str uuid4 in
  let expires_at := now + timedelta_days (REFRESH_TOKEN_EXPIRE_DAYS cfg) in
  let token_data :=
    {| c_sub := Some (email user); c_jti := Some jti;
       c_type := Some "refresh"; c_exp := Some (timegm expires_at) |} in
  let token_string := jwt_encode token_data (SECRET_KEY cfg) in
  do db <- db_read;
  let db_token :=
    {| rt_id := next_id (rt_id <$> refresh_token_table db);
       rt_user_id := user_id user; rt_jti := jti;
       rt_expires_at := expires_at; rt_created_at := now;
       revoked := false; revoked_at := None;
       device_info := device; ip_address := ip |} in
  if bool_decide (jti ∈ rt_jti <$> refresh_token_table db)
  then st_raise IntegrityError
  else
    db_write (with_refresh_tokens (λ l, l ++ [db_token])) >>
    db_commit >>
    st_ret (token_string, db_token).

(* ===================================================================== *)
(** ** Refresh store and revocation registry (auth.py) *)

Definition unauthorized {A} (msg : string) : M A := raise_http 401 msg [].

(** [verify_refresh_token] *)
Definition verify_refresh_token (cfg : Settings) (token : Token)
    (now : datetime) : M (User * RefreshToken) :=
  st_try
    (do payload <- decode token (SECRET_KEY cfg) true now;
     if negb (bool_decide (c_type payload = Some "refresh"))
     then unauthorized "Invalid token type"
     else
       match c_jti payload, c_sub payload with
       | Some jti, Some mail =>
           if negb (truthy (Some jti)) || negb (truthy (Some mail))
           then unauthorized "Invalid token payload"
           else
             do db <- db_read;
             match head (filter (λ r, rt_jti r = jti ∧ revoked r = false)
                                (refresh_token_table db)) with
             | None => unauthorized "Token has been revoked or does not exist"
             | Some db_token =>
                 if negb (is_valid db_token now)
                 then unauthorized "Token has expired"
                 else
                   do user <- get_user_by_email mail;
                   match user with
                   | None => unauthorized "User not found or inactive"
                   | Some u =>
                       if negb (is_active u)
                       then unauthorized "User not found or inactive"
                       else st_ret (u, db_token)
                   end
             end
       | _, _ => unauthorized "Invalid token payload"
       end)
    (on_JWTError (unauthorized "Could not validate token")).

(** The common body of [block_access_token] and [block_refresh_token]. *)
Definition block_token (kind : string) (jti : string) (expires_at : datetime)
    (uid : option Z) (why : option string) (now : datetime)
    : M TokenBlocklist :=
  do db <- db_read;
  match head (filter (λ b, bl_jti b = jti) (token_blocklist db)) with
  | Some existing => st_ret existing
  | None =>
      let blocked :=
        {| bl_id := next_id (bl_id <$> token_blocklist db);
           bl_jti := jti; token_type := kind; bl_user_id := uid;
           bl_expires_at := expires_at; bl_revoked_at := now;
           reason := why |} in
      db_write (with_token_blocklist (λ l, l ++ [blocked])) >>
      db_commit >>
      st_ret blocked
  end.

Definition block_access_token := block_token "access".
Definition block_refresh_token := block_token "refresh".

(** [check_token_blocklist] (deps.py) *)
Definition check_token_blocklist (jti : string) (now : datetime) : M bool :=
  do db <- db_read;
  let blocked :=
    head (filter (λ b, bl_jti b = jti ∧ now < bl_expires_at b)
                 (token_blocklist db)) in
  st_ret (bool_decide (is_Some blocked)).

(* ===================================================================== *)
(** ** Access-token validator (deps.py)

    [get_current_user] raises at seven places; [Rejection] names them, and
    [rejection_response] is the exception each place raises. *)

Inductive Rejection :=
| Malformed        (* jwt.decode: not a JWS, or a bad signature *)
| Expired          (* jwt.decode: exp has passed *)
| WrongType        (* payload type is not access *)
| NoSubject        (* no sub claim *)
| Revoked          (* jti on the blocklist *)
| UnknownSubject   (* no user with that email *)
| InactiveSubject. (* user.is_active is false *)

Definition credentials_exception : HTTPException :=
  {| status_code := 401;
     detail := "לא ניתן לאמת את הכרטיסייה";
     headers := [("WWW-Authenticate", "Bearer")] |}.

Definition rejection_response (r : Rejection) : HTTPException :=
  match r with
  | Revoked =>
      {| status_code := 401; detail := "Token has been revoked";
         headers := [("WWW-Authenticate", "Bearer")] |}
  | InactiveSubject =>
      {| status_code := 403; detail := "User account is inactive";
         headers := [] |}
  | Malformed | Expired | WrongType | NoSubject | UnknownSubject =>
      credentials_exception
  end.

(** The body of [get_current_user], returning the place it leaves by. *)
Definition get_current_user_checks (cfg : Settings) (token : Token)
    (now : datetime) : M (Rejection + User) :=
  match jwt_decode token (SECRET_KEY cfg) true now with
  | inl JWSSignatureError => st_ret (inl Malformed)
  | inl ExpiredSignatureError => st_ret (inl Expired)
  | inr payload =>
      if negb (bool_decide (c_type payload = Some "access"))
      then st_ret (inl WrongType)
      else
        match c_sub payload with
        | None => st_ret (inl NoSubject)
        | Some mail =>
            do blocked <-
              (if truthy (c_jti payload)
               then check_token_blocklist (default "" (c_jti payload)) now
               else st_ret false);
            if blocked then st_ret (inl Revoked)
            else
              do user <- get_user_by_email mail;
              match user with
              | None => st_ret (inl UnknownSubject)
              | Some u =>
                  if negb (is_active u)
                  then st_ret (inl InactiveSubject)
                  else st_ret (inr u)
              end
        end
  end.

Definition get_current_user (cfg : Settings) (token : Token)
    (now : datetime) : M User :=
  do outcome <- get_current_user_checks cfg token now;
  match outcome with
  | inl r => st_raise (HTTPExc (rejection_response r))
  | inr u => st_ret u
  end.

(** *** The validator as a list of checks

    Each check looks at the token on its own; a validator that runs the
    checks of [order] one after the other rejects with the first that
    fails. *)

Definition claims_of (token : Token) : option Claims :=
  match token with
  | NotAJWS _ => None
  | JWS _ payload => Some payload
  end.

Definition subject_of (db : DB) (token : Token) : option User :=
  c ← claims_of token;
  mail ← c_sub c;
  head (filter (λ u, email u = mail) (users db)).

Definition check_fails (cfg : Settings) (db : DB) (now : datetime)
    (token : Token) (r : Rejection) : bool :=
  match r with
  | Malformed =>
      match token with
      | NotAJWS _ => true
      | JWS k _ => negb (bool_decide (k = SECRET_KEY cfg))
      end
  | Expired =>
      match claims_of token ≫= c_exp with
      | Some e => bool_decide (e < timegm now)
      | None => false
      end
  | WrongType =>
      negb (bool_decide (claims_of token ≫= c_type = Some "access"))
  | NoSubject =>
      bool_decide (claims_of token ≫= c_sub = None)
  | Revoked =>
      match claims_of token ≫= c_jti with
      | Some j =>
          negb (bool_decide (j = "")) &&
          bool_decide (Exists (λ b, bl_jti b = j ∧ now < bl_expires_at b)
                              (token_blocklist db))
      | None => false
      end
  | UnknownSubject =>
      match subject_of db token with
      | Some _ => false
      | None => true
      end
  | InactiveSubject =>
      match subject_of db token with
      | Some u => negb (is_active u)
      | None => false
      end
  end.

Definition first_failing (order : list Rejection) (cfg : Settings)
    (db : DB) (now : datetime) (token : Token) : option Rejection :=
  head (filter (λ r, check_fails cfg db now token r = true) order).

Definition validate_in_order (order : list Rejection) (cfg : Settings)
    (db : DB) (now : datetime) (token : Token) : Rejection + User :=
  match first_failing order cfg db now token with
  | Some r => inl r
  | None =>
      match subject_of db token with
      | Some u => inr u
      | None => inl UnknownSubject
      end
  end.

(** The order the specification gives: signature, type, expiry, registry,
    subject. *)
Definition spec_order : list Rejection :=
  [Malformed; WrongType; Expired; Revoked;
   NoSubject; UnknownSubject; InactiveSubject].

(** The order [get_current_user] follows. *)
Definition code_order : list Rejection :=
  [Malformed; Expired; WrongType; NoSubject; Revoked;
   UnknownSubject; InactiveSubject].

(* ===================================================================== *)
(** ** Requests and responses *)

Inductive AuthHeader :=
| Bearer (token : Token)       (* [Authorization: Bearer <token>] *)
| OtherScheme (raw : string).

Record Request := {
  req_headers : gmap string string;    (* lower-case names; not Authorization *)
  authorization : option AuthHeader;
  client_host : option string
}.

Record RefreshTokenRequest := { body_refresh_token : Token }.

Record TokenPair := {
  access_token : Token;
  refresh_token : Token;
  pair_token_type : string;
  expires_in : Z
}.

Record Response := { response_status : Z }.

Definition token_nonempty (t : Token) : bool :=
  match t with
  | NotAJWS raw => negb (bool_decide (raw = ""))
  | JWS _ _ => true
  end.

(** [str.isspace] on the characters a header value can hold. *)
Definition is_space (c : ascii) : bool :=
  let n := nat_of_ascii c in
  bool_decide (n ∈ [9; 10; 11; 12; 13; 28; 29; 30; 31; 32; 133; 160]%nat).

Fixpoint lstrip (s : string) : string :=
  match s with
  | String c r => if is_space c then lstrip r else s
  | EmptyString => EmptyString
  end.

Fixpoint rstrip (s : string) : string :=
  match s with
  | String c r =>
      match rstrip r with
      | EmptyString => if is_space c then EmptyString else String c EmptyString
      | r' => String c r'
      end
  | EmptyString => EmptyString
  end.

Definition strip (s : string) : string := rstrip (lstrip s).

(** [s.split(",")[0]] *)
Fixpoint first_segment (s : string) : string :=
  match s with
  | String c r =>
      if bool_decide (c = ","%char) then EmptyString
      else String c (first_segment r)
  | EmptyString => EmptyString
  end.

(** [RateLimiter._get_client_ip] *)
Definition _get_client_ip (request : Request) : string :=
  match req_headers request !! "x-forwarded-for" with
  | Some forwarded_for =>
      if truthy (Some forwarded_for) then strip (first_segment forwarded_for)
      else
        match req_headers request !! "x-real-ip" with
        | Some real_ip =>
            if truthy (Some real_ip) then strip real_ip
            else default "unknown" (client_host request)
        | None => default "unknown" (client_host request)
        end
  | None =>
      match req_headers request !! "x-real-ip" with
      | Some real_ip =>
          if truthy (Some real_ip) then strip real_ip
          else default "unknown" (client_host request)
      | None => default "unknown" (client_host request)
      end
  end.

(** [request.headers.get("user-agent", "")[:255]] *)
Definition user_agent (request : Request) : string :=
  String.substring 0 255 (default "" (req_headers request !! "user-agent")).

(* ===================================================================== *)
(** ** Rotation, logout, logout-all, cleanup *)

Fixpoint for_each {S A B} (l : list A) (body : A → ST S B) : ST S unit :=
  match l with
  | [] => st_ret ()
  | x :: rest => body x >> for_each rest body
  end.

(** [refresh_tokens] (POST /auth/refresh) *)
Definition refresh_tokens (cfg : Settings) (request : Request)
    (body : RefreshTokenRequest) (now : datetime) (uuid_access uuid_refresh : N)
    : M TokenPair :=
  do found <- verify_refresh_token cfg (body_refresh_token body) now;
  let '(user, old_token) := found in
  db_update_refresh_token (revoke old_token now) >>
  block_refresh_token (rt_jti old_token) (rt_expires_at old_token)
                      (Some (user_id user)) (Some "Token rotation") now >>
  let client_ip := Some (_get_client_ip request) in
  let access :=
    create_access_token cfg (sub_only (email user)) None now uuid_access in
  do issued <- create_refresh_token cfg user (Some (user_agent request))
                                    client_ip now uuid_refresh;
  st_ret {| access_token := access; refresh_token := issued.1;
            pair_token_type := "bearer";
            expires_in := ACCESS_TOKEN_EXPIRE_MINUTES cfg * 60 |}.

(** The access-token half of [logout]. *)
Definition logout_access (cfg : Settings) (request : Request)
    (now : datetime) : M unit :=
  match authorization request with
  | Some (Bearer token) =>
      st_try
        (do payload <- decode token (SECRET_KEY cfg) false now;
         match c_jti payload, c_exp payload with
         | Some jti, Some e =>
             if truthy (Some jti) && negb (bool_decide (e = 0)) then
               do expires_at <- utcfromtimestamp e;
               do uid <-
                 (if truthy (c_sub payload) then
                    do user <- get_user_by_email (default "" (c_sub payload));
                    st_ret (user_id <$> user)
                  else st_ret None);
               block_access_token jti expires_at uid (Some "User logout") now >>
               st_ret ()
             else st_ret ()
         | _, _ => st_ret ()
         end)
        (on_JWTError (st_ret ()))
  | _ => st_ret ()
  end.

(** The refresh-token half of [logout]. *)
Definition logout_refresh (cfg : Settings) (body : option RefreshTokenRequest)
    (now : datetime) : M unit :=
  match body with
  | Some b =>
      if token_nonempty (body_refresh_token b) then
        st_try
          (do found <- verify_refresh_token cfg (body_refresh_token b) now;
           let token := found.2 in
           db_update_refresh_token (revoke token now) >>
           block_refresh_token (rt_jti token) (rt_expires_at token)
                               (Some (rt_user_id token)) (Some "User logout")
                               now >>
           db_commit)
          (on_HTTPException (st_ret ()))
      else st_ret ()
  | None => st_ret ()
  end.

(** [logout] (POST /auth/logout) *)
Definition logout (cfg : Settings) (request : Request)
    (body : option RefreshTokenRequest) (now : datetime) : M Response :=
  logout_access cfg request now >>
  logout_refresh cfg body now >>
  st_ret {| response_status := 204 |}.

(** [revoke_all_user_tokens]: the bulk UPDATE runs at once inside the
    transaction, and the SELECT that follows sees its result. *)
Definition revoke_all_user_tokens (uid : Z) (now : datetime) : M nat :=
  do db <- db_read;
  let refresh_count :=
    length (filter (λ r, rt_user_id r = uid ∧ revoked r = false)
                   (refresh_token_table db)) in
  db_write (with_refresh_tokens
    (fmap (λ r, if bool_decide (rt_user_id r = uid ∧ revoked r = false)
               then revoke r now else r))) >>
  do db' <- db_read;
  let selected :=
    filter (λ r, rt_user_id r = uid ∧ revoked r = false) (refresh_token_table db') in
  for_each selected (λ token,
    block_refresh_token (rt_jti token) (rt_expires_at token) (Some uid)
                        (Some "User logout all devices") now) >>
  db_commit >>
  st_ret refresh_count.

(** [logout_all_devices] (POST /auth/logout-all), after its dependency
    [get_current_user] has produced [current_user]. *)
Definition logout_all_devices (cfg : Settings) (request : Request)
    (current_user : User) (now : datetime) : M (Response * nat) :=
  do revoked_count <- revoke_all_user_tokens (user_id current_user) now;
  match authorization request with
  | Some (Bearer token) =>
      st_try
        (do payload <- decode token (SECRET_KEY cfg) false now;
         match c_jti payload, c_exp payload with
         | Some jti, Some e =>
             if truthy (Some jti) && negb (bool_decide (e = 0)) then
               do expires_at <- utcfromtimestamp e;
               block_access_token jti expires_at
                 (Some (user_id current_user))
                 (Some "User logout all devices") now >>
               st_ret ()
             else st_ret ()
         | _, _ => st_ret ()
         end)
        (on_JWTError (st_ret ()))
  | _ => st_ret ()
  end >>
  st_ret ({| response_status := 204 |}, revoked_count).

(** [cleanup_expired_tokens] (maintenance.py) *)
Definition cleanup_expired_tokens (now : datetime) : M (nat * nat) :=
  do db <- db_read;
  let blocklist_deleted :=
    length (filter (λ b, bl_expires_at b < now) (token_blocklist db)) in
  db_write (with_token_blocklist
    (filter (λ b, ¬ bl_expires_at b < now))) >>
  let audit_cutoff := now - timedelta_days 7 in
  let refresh_deleted :=
    length (filter (λ r, rt_expires_at r < audit_cutoff ∧ revoked r = true)
                   (refresh_token_table db)) in
  db_write (with_refresh_tokens
    (filter (λ r, ¬ (rt_expires_at r < audit_cutoff ∧ revoked r = true)))) >>
  db_commit >>
  st_ret (blocklist_deleted, refresh_deleted).

(* ===================================================================== *)
(** ** The counter store (Redis)

    Values are the decimal integers this code writes with SETEX and INCR.
    The store keeps time in milliseconds: [t] is its clock when it runs a
    command, an expiry is the clock at which the key was armed plus the
    seconds given, and a key is gone once the clock has passed its expiry.
    [faults] says, for each coming round trip, whether it fails (connection
    refused, timeout): the command then raises and changes nothing. *)

Record RedisEntry := {
  value : Z;
  expire_at : option Z
}.

Record Redis := {
  data : gmap string RedisEntry;
  faults : list bool
}.

Definition healthy (d : gmap string RedisEntry) : Redis :=
  {| data := d; faults := [] |}.

Definition entry_live (t : Z) (e : RedisEntry) : bool :=
  match expire_at e with
  | Some x => bool_decide (t ≤ x)
  | None => true
  end.

Definition redis_lookup (d : gmap string RedisEntry) (key : string) (t : Z)
    : option RedisEntry :=
  match d !! key with
  | Some e => if entry_live t e then Some e else None
  | None => None
  end.

Definition round_trip {A}
    (f : gmap string RedisEntry → gmap string RedisEntry * A) : ST Redis A :=
  λ r,
    match faults r with
    | true :: rest =>
        ({| data := data r; faults := rest |}, Raise RedisConnectionError)
    | later =>
        let (d, a) := f (data r) in
        ({| data := d; faults := tail later |}, Return a)
    end.

Definition redis_get (key : string) (t : Z) : ST Redis (option Z) :=
  round_trip (λ d, (d, value <$> redis_lookup d key t)).

(** SETEX; the store refuses an expire time that is not positive. *)
Definition redis_setex (key : string) (seconds : Z) (v : Z) (t : Z)
    : ST Redis unit :=
  if bool_decide (seconds ≤ 0)
  then round_trip (λ d, (d, ())) >> st_raise RedisResponseError
  else
    round_trip (λ d,
      (<[key := {| value := v; expire_at := Some (t + seconds * 1000) |}]> d,
       ())).

Definition redis_delete (key : string) : ST Redis unit :=
  round_trip (λ d, (delete key d, ())).

(** TTL answers in seconds, rounded to the nearest. *)
Definition redis_ttl (key : string) (t : Z) : ST Redis Z :=
  round_trip (λ d,
    (d, match redis_lookup d key t with
        | None => -2
        | Some e =>
            match expire_at e with
            | None => -1
            | Some x => (x - t + 500) / 1000
            end
        end)).

Inductive PipeCmd :=
| INCR (key : string)
| EXPIRE (key : string) (seconds : Z).

Definition apply_cmd (t : Z) (d : gmap string RedisEntry) (c : PipeCmd)
    : gmap string RedisEntry :=
  match c with
  | INCR key =>
      match redis_lookup d key t with
      | Some e =>
          <[key := {| value := value e + 1; expire_at := expire_at e |}]> d
      | None => <[key := {| value := 1; expire_at := None |}]> d
      end
  | EXPIRE key seconds =>
      match redis_lookup d key t with
      | Some e =>
          if bool_decide (seconds ≤ 0) then delete key d
          else
            <[key := {| value := value e;
                        expire_at := Some (t + seconds * 1000) |}]> d
      | None => d
      end
  end.

(** [pipe.execute()]: the queued commands go out in one round trip. *)
Definition redis_pipeline (cmds : list PipeCmd) (t : Z) : ST Redis unit :=
  round_trip (λ d, (foldl (apply_cmd t) d cmds, ())).

(* ===================================================================== *)
(** ** Rate limiter and brute-force guard (rate_limiter.py) *)

Record RateLimiter := { redis_client : option Redis }.

(** [if not self.redis_client: return absent], else the body on the client. *)
Definition with_client {A} (absent : A) (body : ST Redis A)
    : ST RateLimiter A :=
  λ rl,
    match redis_client rl with
    | None => (rl, Return absent)
    | Some r => let (r', res) := body r in ({| redis_client := Some r' |}, res)
    end.

Definition _get_key (prefix identifier : string) : string :=
  "rate_limit:" +:+ prefix +:+ ":" +:+ identifier.

(** [x or d] for an optional integer. *)
Definition or_default (x : option Z) (d : Z) : Z :=
  match x with
  | Some v => if bool_decide (v = 0) then d else v
  | None => d
  end.

(** [RateLimiter.check_rate_limit] *)
Definition check_rate_limit (cfg : Settings) (request : Request)
    (limit_per_minute limit_per_hour : option Z) (now : datetime)
    : ST RateLimiter (bool * option string) :=
  if negb (RATE_LIMIT_ENABLED cfg) then st_ret (true, None)
  else
    with_client (true, None)
      (st_try
        (let client_ip := _get_client_ip request in
         let per_minute :=
           or_default limit_per_minute (RATE_LIMIT_PER_MINUTE cfg) in
         let per_hour := or_default limit_per_hour (RATE_LIMIT_PER_HOUR cfg) in
         let minute_key := _get_key "minute" client_ip in
         let hour_key := _get_key "hour" client_ip in
         do minute_count <- redis_get minute_key (mstime now);
         if match minute_count with
            | Some c => bool_decide (per_minute ≤ c)
            | None => false
            end
         then st_ret (false,
                Some ("Rate limit exceeded: " +:+ pretty per_minute +:+
                      " requests per minute"))
         else
           do hour_count <- redis_get hour_key (mstime now);
           if match hour_count with
              | Some c => bool_decide (per_hour ≤ c)
              | None => false
              end
           then st_ret (false,
                  Some ("Rate limit exceeded: " +:+ pretty per_hour +:+
                        " requests per hour"))
           else
             redis_pipeline [INCR minute_key; EXPIRE minute_key 60;
                             INCR hour_key; EXPIRE hour_key 3600]
                            (mstime now) >>
             st_ret (true, None))
        (on_Exception (st_ret (true, None)))).

(** [RateLimiter.record_failed_login] *)
Definition record_failed_login (cfg : Settings) (identifier : string)
    (now : datetime) : ST RateLimiter (Z * bool) :=
  with_client (0, false)
    (st_try
      (let key := _get_key "brute_force" identifier in
       do attempts <- redis_get key (mstime now);
       let attempt_count := default 0 attempts + 1 in
       redis_setex key (BRUTE_FORCE_LOCKOUT_MINUTES cfg * 60) attempt_count
                   (mstime now) >>
       let is_locked_out :=
         bool_decide (BRUTE_FORCE_MAX_ATTEMPTS cfg ≤ attempt_count) in
       st_ret (attempt_count, is_locked_out))
      (on_Exception (st_ret (0, false)))).

(** [RateLimiter.reset_failed_logins] *)
Definition reset_failed_logins (identifier : string) : ST RateLimiter unit :=
  with_client ()
    (st_try
      (redis_delete (_get_key "brute_force" identifier))
      (on_Exception (st_ret ()))).

(** [RateLimiter.get_remaining_attempts] *)
Definition get_remaining_attempts (cfg : Settings) (identifier : string)
    (now : datetime) : ST RateLimiter Z :=
  with_client (BRUTE_FORCE_MAX_ATTEMPTS cfg)
    (st_try
      (do attempts <- redis_get (_get_key "brute_force" identifier)
                                (mstime now);
       let attempt_count := default 0 attempts in
       st_ret (Z.max 0 (BRUTE_FORCE_MAX_ATTEMPTS cfg - attempt_count)))
      (on_Exception (st_ret (BRUTE_FORCE_MAX_ATTEMPTS cfg)))).

(** [RateLimiter.get_lockout_ttl] *)
Definition get_lockout_ttl (identifier : string) (now : datetime)
    : ST RateLimiter (option Z) :=
  with_client None
    (st_try
      (do ttl <- redis_ttl (_get_key "brute_force" identifier) (mstime now);
       st_ret (if bool_decide (0 < ttl) then Some ttl else None))
      (on_Exception (st_ret None))).

(** [check_rate_limit_strict] and [check_rate_limit_moderate]
    (deps_rate_limit.py) differ in the default of [limit_per_minute] only. *)
Definition check_rate_limit_dependency (cfg : Settings) (request : Request)
    (limit_per_minute : Z) (now : datetime) : ST RateLimiter unit :=
  do verdict <- check_rate_limit cfg request (Some limit_per_minute)
                                 (Some (limit_per_minute * 60)) now;
  if negb verdict.1
  then raise_http 429 (default "Rate limit exceeded" verdict.2) []
  else st_ret ().

(* ===================================================================== *)
(** ** The slowapi decorator (core/limiter.py)

    [@limiter.limit(...)] puts a wrapper around a handler.  The wrapper
    has the library count the request against the limits of the route,
    under the key that [get_client_ip] reads from the request; it calls the
    handler; and since the limiter is made with [headers_enabled=True], it
    then writes the headers of the limit into the response the handler
    returned.  The library and its counters are not part of this code:
    what the check finds is given as a [LimitCheck]. *)

(** [get_client_ip] (core/limiter.py), the key function of the slowapi
    limiter; [get_remote_address] is slowapi's. *)
Definition get_client_ip (get_remote_address : Request → string)
    (request : Request) : string :=
  match req_headers request !! "x-forwarded-for" with
  | Some forwarded_for =>
      if truthy (Some forwarded_for) then strip (first_segment forwarded_for)
      else
        match req_headers request !! "x-real-ip" with
        | Some real_ip =>
            if truthy (Some real_ip) then strip real_ip
            else get_remote_address request
        | None => get_remote_address request
        end
  | None =>
      match req_headers request !! "x-real-ip" with
      | Some real_ip =>
          if truthy (Some real_ip) then strip real_ip
          else get_remote_address request
      | None => get_remote_address request
      end
  end.

(** slowapi's [get_remote_address] *)
Definition get_remote_address (request : Request) : string :=
  match client_host request with
  | Some host => if bool_decide (host = "") then "127.0.0.1" else host
  | None => "127.0.0.1"
  end.

Inductive LimitCheck :=
| LimitExceeded (limit : string) (* a limit is used up: RateLimitExceeded *)
| LimitCounted                   (* within the limits, and counted *)
| LimitStoreFailed.              (* the store of the limits raised *)

Definition response_required : string :=
  "parameter `response` must be an instance of starlette.responses.Response".

(** [limiter.limit(...)(handler)], for a handler that takes no [response]
    and returns something that is no [Response], as [register] and [login]
    do.  With an empty key every limit is skipped and no header is due;
    otherwise a handler that returns is followed by the exception of the
    header injection. *)
Definition limiter_limit {S A} (check : LimitCheck) (request : Request)
    (handler : ST S A) : ST S A :=
  if bool_decide (get_client_ip get_remote_address request = "") then handler
  else
    match check with
    | LimitExceeded limit => raise_http 429 limit []
    | LimitStoreFailed => st_raise RedisConnectionError
    | LimitCounted =>
        handler >> st_raise (PlainException response_required)
    end.

(** ** Login (auth.py)

    The handler works on the limiter and on the session. *)

Class CryptContext := {
  pwd_hash : string → string;
  pwd_verify : string → string → bool
}.

Definition verify_password `{CryptContext} (plain hashed : string) : bool :=
  pwd_verify plain hashed.

Definition get_password_hash `{CryptContext} (password : string) : string :=
  pwd_hash password.

Record App := {
  limiter : RateLimiter;
  session : Session
}.

Definition in_limiter {A} (m : ST RateLimiter A) : ST App A :=
  λ app, let (rl, r) := m (limiter app) in
         ({| limiter := rl; session := session app |}, r).

Definition in_session {A} (m : M A) : ST App A :=
  λ app, let (s, r) := m (session app) in
         ({| limiter := limiter app; session := s |}, r).

Record LoginForm := {
  username : string;
  password : string
}.

Definition locked_detail (cfg : Settings) (minutes : Z) : string :=
  "חשבון נחסם לאחר " +:+ pretty (BRUTE_FORCE_MAX_ATTEMPTS cfg) +:+
  " ניסיונות כושלים. " +:+ "נסה שוב בעוד " +:+ pretty minutes +:+ " דקות.".

Definition failed_detail (remaining : Z) : string :=
  "אימייל/סיסמא לא נכונים. נותרו " +:+ pretty remaining +:+ " ניסיונות.".

(** The body of [login]. *)
Definition login_body `{CryptContext} (cfg : Settings) (request : Request)
    (form_data : LoginForm) (now : datetime) (uuid_access uuid_refresh : N)
    : ST App TokenPair :=
  let client_ip := _get_client_ip request in
  let identifier := client_ip +:+ ":" +:+ username form_data in
  do recorded <- in_limiter (record_failed_login cfg identifier now);
  let '(attempt_count, is_locked_out) := recorded in
  if is_locked_out then
    do ttl <- in_limiter (get_lockout_ttl identifier now);
    let minutes :=
      match ttl with
      | Some seconds =>
          if bool_decide (seconds = 0) then BRUTE_FORCE_LOCKOUT_MINUTES cfg
          else seconds / 60 + 1
      | None => BRUTE_FORCE_LOCKOUT_MINUTES cfg
      end in
    raise_http 429 (locked_detail cfg minutes) []
  else
    do user <- in_session (get_user_by_email (username form_data));
    match user with
    | Some u =>
        if negb (verify_password (password form_data) (hashed_password u))
        then
          do remaining <- in_limiter (get_remaining_attempts cfg identifier now);
          raise_http 401 (failed_detail remaining) []
        else
          in_limiter (reset_failed_logins identifier) >>
          let access :=
            create_access_token cfg (sub_only (email u)) None now uuid_access in
          do issued <-
            in_session (create_refresh_token cfg u (Some (user_agent request))
                                             (Some client_ip) now uuid_refresh);
          st_ret {| access_token := access; refresh_token := issued.1;
                    pair_token_type := "bearer";
                    expires_in := ACCESS_TOKEN_EXPIRE_MINUTES cfg * 60 |}
    | None =>
        do remaining <- in_limiter (get_remaining_attempts cfg identifier now);
        raise_http 401 (failed_detail remaining) []
    end.

(** [login] (POST /auth/login), under [@limiter.limit("10/minute;50/hour")] *)
Definition login `{CryptContext} (cfg : Settings) (check : LimitCheck)
    (request : Request) (form_data : LoginForm) (now : datetime)
    (uuid_access uuid_refresh : N) : ST App TokenPair :=
  limiter_limit check request
    (login_body cfg request form_data now uuid_access uuid_refresh).

(** The server: a limiter shared by all requests and the durable database;
    each request gets a session of its own. *)
Definition Server : Type := RateLimiter * DB.

Definition serve {A} (handler : ST App A) (srv : Server)
    : Server * Result A :=
  let (app, r) :=
    handler {| limiter := srv.1; session := open_session srv.2 |} in
  ((limiter app, durable (session app)), r).

(* ===================================================================== *)
(** ** Vocabulary of the properties *)

(** The outcome of [verify_refresh_token] on a database. *)
Definition verify_result (cfg : Settings) (token : Token) (now : datetime)
    (db : DB) : Result (User * RefreshToken) :=
  (verify_refresh_token cfg token now (open_session db)).2.

(** The exception [unauthorized msg] raises. *)
Definition http401 (msg : string) : Exn :=
  HTTPExc {| status_code := 401; detail := msg; headers := [] |}.

(** Every row that carries this unique-id is flagged revoked. *)
Definition spent (jti : string) (db : DB) : Prop :=
  ∀ r, r ∈ refresh_token_table db → rt_jti r = jti → revoked r = true.

(** The registry holds an entry for this unique-id. *)
Definition on_registry (jti : string) (db : DB) : Prop :=
  ∃ b, b ∈ token_blocklist db ∧ bl_jti b = jti.

(** What [logout] reads off the bearer token when it goes on to date and
    block it: unique-id, [exp] and subject.  The signature is checked, the
    expiry is not. *)
Definition presented_access (cfg : Settings) (request : Request)
    (now : datetime) : option (string * Z * option string) :=
  match authorization request with
  | Some (Bearer token) =>
      match jwt_decode token (SECRET_KEY cfg) false now with
      | inr payload =>
          match c_jti payload, c_exp payload with
          | Some jti, Some e =>
              if truthy (Some jti) && negb (bool_decide (e = 0))
              then Some (jti, e, c_sub payload)
              else None
          | _, _ => None
          end
      | inl _ => None
      end
  | _ => None
  end.

(** The refresh token a logout body carries, when it carries one. *)
Definition presented_refresh (body : option RefreshTokenRequest)
    : option Token :=
  match body with
  | Some b =>
      if token_nonempty (body_refresh_token b)
      then Some (body_refresh_token b) else None
  | None => None
  end.

(** Nothing in the session is left uncommitted. *)
Definition synced (s : Session) : Prop := durable s = working s.

(** The unique index on [refresh_tokens.jti]. *)
Definition jti_unique (db : DB) : Prop :=
  NoDup (rt_jti <$> refresh_token_table db).

(* ===================================================================== *)
(** ** The subsystem as a transition system on the database *)

(** The session each operation of the subsystem leaves behind when it is
    run on [db]: token issue (all that register and login do to the token
    tables), login, rotation, logout, logout-all, revoke-all (also called by
    account deletion), the two validators, and the maintenance cleanup. *)
Inductive handler_run `{CryptContext} (cfg : Settings) (db : DB)
    : Session → Prop :=
| run_issue user device ip now uuid4 :
    handler_run cfg db
      (create_refresh_token cfg user device ip now uuid4 (open_session db)).1
| run_login check request form now ua ur rl :
    handler_run cfg db
      (session (login cfg check request form now ua ur
                  {| limiter := rl; session := open_session db |}).1)
| run_rotate request body now ua ur :
    handler_run cfg db
      (refresh_tokens cfg request body now ua ur (open_session db)).1
| run_logout request body now :
    handler_run cfg db (logout cfg request body now (open_session db)).1
| run_logout_all request user now :
    handler_run cfg db
      (logout_all_devices cfg request user now (open_session db)).1
| run_revoke_all uid now :
    handler_run cfg db (revoke_all_user_tokens uid now (open_session db)).1
| run_verify_refresh token now :
    handler_run cfg db (verify_refresh_token cfg token now (open_session db)).1
| run_validate_access token now :
    handler_run cfg db (get_current_user cfg token now (open_session db)).1
| run_cleanup now :
    handler_run cfg db (cleanup_expired_tokens now (open_session db)).1.

(** A step of the system: an operation commits (each snapshot it commits
    is a state the database can be left in), or the rest of the application
    changes the users table. *)
Inductive step `{CryptContext} (cfg : Settings) : DB → DB → Prop :=
| step_commit db s d :
    handler_run cfg db s → d ∈ commits s → step cfg db d
| step_users db f :
    step cfg db (with_users f db).

Inductive reachable `{CryptContext} (cfg : Settings) : DB → Prop :=
| reachable_empty : reachable cfg empty_db
| reachable_step db db' :
    reachable cfg db → step cfg db db' → reachable cfg db'.

(** [revoked] implies [revoked_at] set, on every row. *)
Definition revocation_dated (db : DB) : Prop :=
  ∀ r, r ∈ refresh_token_table db → revoked r = true → is_Some (revoked_at r).

(** The primary key of [refresh_tokens]. *)
Definition id_unique (db : DB) : Prop :=
  NoDup (rt_id <$> refresh_token_table db).

(** [g] leaves a row of [l] alone or revokes it; it revokes no row that is
    revoked already. *)
Definition revokes_only (l : list RefreshToken)
    (g : RefreshToken → RefreshToken) : Prop :=
  ∀ r, r ∈ l → g r = r ∨ (revoked r = false ∧ ∃ now, g r = revoke r now).

(** The ways a commit changes the refresh-token table. *)
Inductive table_step (l : list RefreshToken) : list RefreshToken → Prop :=
| ts_revoke g :
    revokes_only l g → table_step l (g <$> l)
| ts_revoke_insert g new :
    revokes_only l g →
    rt_id new = next_id (rt_id <$> l) → revoked new = false →
    table_step l ((g <$> l) ++ [new])
| ts_delete (P : RefreshToken → Prop) `{∀ r, Decision (P r)} :
    table_step l (filter P l).

(** A session in the middle of an operation that started on table [l]: its
    view of the table is [l] with some rows revoked, and what it has
    committed so far are table steps from [l]. *)
Definition revoking (l : list RefreshToken) (s : Session) : Prop :=
  (∃ g, revokes_only l g ∧ refresh_token_table (working s) = g <$> l) ∧
  ∀ d, d ∈ commits s → table_step l (refresh_token_table d).

(* ===================================================================== *)
(** ** Failing open

    A method of the limiter fails open to [fallback] when it returns
    [fallback] without a client, and also whenever one of the round trips
    it makes on a client fails; [consumed] is the part of the fault schedule
    the call used up. *)


(** The store cannot be reached for the next [n] round trips. *)
Definition unreachable (n : nat) (rl : RateLimiter) : Prop :=
  match redis_client rl with
  | None => True
  | Some r => ∃ rest, faults r = replicate n true ++ rest
  end.

(* ===================================================================== *)
(** ** Other authenticators (ws.py, graphql/context.py) *)

(** [get_current_user_from_token] (ws.py); it opens a session of its own. *)
Definition get_current_user_from_token (cfg : Settings) (token : Token)
    (now : datetime) : M (option User) :=
  match jwt_decode token (SECRET_KEY cfg) true now with
  | inl _ => st_ret None
  | inr payload =>
      match c_sub payload with
      | None => st_ret None
      | Some mail => get_user_by_email mail
      end
  end.

Inductive WsOutcome :=
| WsClosed (code : Z) (why : string)
| WsConnected (user : User).

(** [websocket_endpoint] (ws.py), up to [manager.connect]. *)
Definition websocket_endpoint (cfg : Settings) (token : Token)
    (now : datetime) : M WsOutcome :=
  if negb (token_nonempty token)
  then st_ret (WsClosed 1008 "Authentication required")
  else
    do user <- get_current_user_from_token cfg token now;
    match user with
    | None => st_ret (WsClosed 1008 "Invalid token")
    | Some u =>
        if negb (is_active u)
        then st_ret (WsClosed 1008 "User is inactive")
        else st_ret (WsConnected u)
    end.

(** [get_graphql_context] (graphql/context.py): the [current_user] entry of
    the context. *)
Definition get_graphql_context (cfg : Settings) (request : Request)
    (now : datetime) : M (option User) :=
  match authorization request with
  | Some (Bearer token) =>
      match jwt_decode token (SECRET_KEY cfg) true now with
      | inl _ => st_ret None
      | inr payload =>
          if truthy (c_sub payload)
          then get_user_by_email (default "" (c_sub payload))
          else st_ret None
      end
  | _ => st_ret None
  end.

(** [get_audit_context] (deps_audit.py), after its dependency
    [get_current_user]. *)
Record AuditContext := {
  audit_user_id : option Z;
  audit_user_email : option string;
  audit_ip_address : option string;
  audit_user_agent : option string
}.

Definition get_audit_context (request : Request) (current_user : option User)
    : AuditContext :=
  {| audit_user_id := user_id <$> current_user;
     audit_user_email := email <$> current_user;
     audit_ip_address := client_host request;
     audit_user_agent := req_headers request !! "user-agent" |}.

(* ===================================================================== *)
(** ** Runs of several calls *)

(** The calls of [ms] one after the other on the same store. *)
Fixpoint run_all {S A} (ms : list (ST S A)) (s : S) : S * list (Result A) :=
  match ms with
  | [] => (s, [])
  | m :: rest =>
      let (s1, r) := m s in
      let (s2, rs) := run_all rest s1 in
      (s2, r :: rs)
  end.

(** The live value of a counter, as GET returns it. *)
Definition counter (rl : RateLimiter) (key : string) (t : Z) : option Z :=
  match redis_client rl with
  | Some r => value <$> redis_lookup (data r) key t
  | None => None
  end.

(** The string has no [c] in it. *)
Fixpoint free_of (c : ascii) (s : string) : bool :=
  match s with
  | String a r => negb (bool_decide (a = c)) && free_of c r
  | EmptyString => true
  end.

Definition starts_with_space (s : string) : bool :=
  match s with
  | String a _ => is_space a
  | EmptyString => false
  end.

Fixpoint ends_with_space (s : string) : bool :=
  match s with
  | String a EmptyString => is_space a
  | String _ r => ends_with_space r
  | EmptyString => false
  end.

(** The unique index on [token_blocklist.jti], which [block_token] keeps
    by looking before it inserts. *)
Definition registry_unique (db : DB) : Prop :=
  NoDup (bl_jti <$> token_blocklist db).

(** All three keys of the token tables. *)
Definition keys_unique (db : DB) : Prop :=
  id_unique db ∧ jti_unique db ∧ registry_unique db.

(** A computation on the store leaves the entries of the keys in [keep]
    as they are, whether it returns or raises. *)
Definition leaves_keys {A} (keep : string → Prop) (m : ST Redis A) : Prop :=
  ∀ r key, keep key → data (m r).1 !! key = data r !! key.

(* ===================================================================== *)
(** ** Account deletion (auth.py) *)

(** [delete_me] (DELETE /auth/me), after its dependency [get_current_user]
    has produced [current_user].  [stamp] is the integer
    [int(datetime.utcnow().timestamp())] and [secret] the string
    [secrets.token_urlsafe(32)]; the row the handler adds to the audit log
    belongs to a table outside this model. *)
Definition deleted_email (uid stamp : Z) : string :=
  "deleted_" +:+ pretty uid +:+ "_" +:+ pretty stamp +:+ "@deleted.local".

Definition delete_me `{CryptContext} (current_user : User) (now : datetime)
    (stamp : Z) (secret : string) : M Response :=
  do db <- db_read;
  match head (filter (λ u, user_id u = user_id current_user) (users db)) with
  | None => raise_http 404 "User not found" []
  | Some user =>
      revoke_all_user_tokens (user_id user) now >>
      db_write (with_users
        (fmap (λ u, if bool_decide (user_id u = user_id user)
                    then {| user_id := user_id user;
                            email := deleted_email (user_id user) stamp;
                            hashed_password := get_password_hash secret;
                            is_active := false |}
                    else u))) >>
      db_commit >>
      st_ret {| response_status := 204 |}
  end.

(* ===================================================================== *)
(** ** Registration (auth.py) *)

(** The body of [register], after the validation of the form.  The audit
    row and the welcome mail it queues are outside this model. *)
Definition register_body `{CryptContext} (cfg : Settings) (request : Request)
    (user_in : LoginForm) (now : datetime) (uuid_access uuid_refresh : N)
    : M TokenPair :=
  do db <- db_read;
  match head (filter (λ u, email u = username user_in) (users db)) with
  | Some existing => raise_http 400 "האימייל כבר במערכת" []
  | None =>
      let user :=
        {| user_id := next_id (user_id <$> users db);
           email := username user_in;
           hashed_password := get_password_hash (password user_in);
           is_active := true |} in
      db_write (with_users (λ l, l ++ [user])) >>
      db_commit >>
      let access :=
        create_access_token cfg (sub_only (email user)) None now uuid_access in
      do issued <-
        create_refresh_token cfg user (req_headers request !! "user-agent")
                             (client_host request) now uuid_refresh;
      st_ret {| access_token := access; refresh_token := issued.1;
                pair_token_type := "bearer";
                expires_in := ACCESS_TOKEN_EXPIRE_MINUTES cfg * 60 |}
  end.

(** [register] (POST /auth/register), under [@limiter.limit("5/minute;20/hour")] *)
Definition register `{CryptContext} (cfg : Settings) (check : LimitCheck)
    (request : Request) (user_in : LoginForm) (now : datetime)
    (uuid_access uuid_refresh : N) : M TokenPair :=
  limiter_limit check request
    (register_body cfg request user_in now uuid_access uuid_refresh).

(** The request gets past the check of the decorator: no limit applies to
    it, or it was counted. *)
Definition admitted (check : LimitCheck) (request : Request) : Prop :=
  get_client_ip get_remote_address request = "" ∨ check = LimitCounted.

(** What the decorator makes of the outcome of the handler. *)
Definition decorated {A} (request : Request) (r : Result A) : Result A :=
  if bool_decide (get_client_ip get_remote_address request = "") then r
  else
    match r with
    | Return _ => Raise (PlainException response_required)
    | Raise e => Raise e
    end.

(** The session's view and every snapshot it has committed keep the keys. *)
Definition keys_kept (s : Session) : Prop :=
  keys_unique (working s) ∧ ∀ d, d ∈ commits s → keys_unique d.

(* ===================================================================== *)
(** ** A small deployment for the examples *)

Definition cfg0 : Settings := default_settings "s3cr3t".

Definition test_crypt : CryptContext :=
  {| pwd_hash := λ p, "bcrypt:" +:+ p;
     pwd_verify := λ plain hashed, bool_decide (hashed = "bcrypt:" +:+ plain) |}.

Definition alice : User :=
  {| user_id := 1; email := "a@b.com"; hashed_password := "bcrypt:pw";
     is_active := true |}.

Definition bob_inactive : User :=
  {| user_id := 2; email := "bob@b.com"; hashed_password := "bcrypt:pw2";
     is_active := false |}.

Definition request0 : Request :=
  {| req_headers := ∅; authorization := None; client_host := Some "1.2.3.4" |}.

Definition with_bearer (t : Token) : Request :=
  {| req_headers := ∅; authorization := Some (Bearer t);
     client_host := Some "1.2.3.4" |}.

(** 2026-01-01 00:00:00 UTC, in microseconds. *)
Definition t0 : datetime := 1767225600000000.

Definition db_users : DB :=
  {| users := [alice; bob_inactive]; refresh_token_table := [];
     token_blocklist := [] |}.

(** A registry whose only entry is past its mirrored expiry. *)
Definition stale_entry : TokenBlocklist :=
  {| bl_id := 1; bl_jti := "j-old"; token_type := "access";
     bl_user_id := Some 1; bl_expires_at := t0 - 1;
     bl_revoked_at := t0 - 900000000; reason := Some "User logout" |}.

Definition db_stale : DB :=
  {| users := [alice]; refresh_token_table := [];
     token_blocklist := [stale_entry] |}.

(** Tokens signed with the deployment's key. *)
Definition claims0 (mail : string) (jti : option string) (kind : string)
    (e : Z) : Claims :=
  {| c_sub := Some mail; c_jti := jti; c_type := Some kind; c_exp := Some e |}.

(** A refresh token presented as an access token after its expiry. *)
Definition stale_refresh_token : Token :=
  JWS "s3cr3t" (claims0 "a@b.com" (Some "j-r1") "refresh" (timegm t0 - 60)).

(** A live access token whose unique-id is on the blocklist of [db_blocked]. *)
Definition blocked_access_token : Token :=
  JWS "s3cr3t" (claims0 "a@b.com" (Some "j-a1") "access" (timegm t0 + 600)).

Definition inactive_access_token : Token :=
  JWS "s3cr3t" (claims0 "bob@b.com" (Some "j-a2") "access" (timegm t0 + 600)).

(** A live access token with no unique-id, signed with the key but not by
    [create_access_token]. *)
Definition foreign_access_token : Token :=
  JWS "s3cr3t" (claims0 "a@b.com" None "access" (timegm t0 + 600)).

Definition blocked_entry : TokenBlocklist :=
  {| bl_id := 1; bl_jti := "j-a1"; token_type := "access";
     bl_user_id := Some 1; bl_expires_at := (timegm t0 + 600) * 1000000;
     bl_revoked_at := t0 - 5; reason := Some "User logout" |}.

Definition db_blocked : DB :=
  {| users := [alice; bob_inactive]; refresh_token_table := [];
     token_blocklist := [blocked_entry] |}.

Definition wrong_password : LoginForm :=
  {| username := "a@b.com"; password := "guess" |}.

Definition right_password : LoginForm :=
  {| username := "a@b.com"; password := "pw" |}.

(** Successive logins from one client, one second apart, each within the
    limits of the route. *)
Fixpoint login_sequence `{CryptContext} (cfg : Settings) (request : Request)
    (forms : list LoginForm) (now : datetime) (srv : Server)
    : Server * list (Result TokenPair) :=
  match forms with
  | [] => (srv, [])
  | form :: rest =>
      let (srv1, r) :=
        serve (login cfg LimitCounted request form now
                     (Z.to_N now) (Z.to_N now + 1)) srv in
      let (srv2, rs) :=
        login_sequence cfg request rest (now + 1000000) srv1 in
      (srv2, r :: rs)
  end.

(** The status line of a handler's outcome. *)
Definition status_of {A} (r : Result A) : Z :=
  match r with
  | Return _ => 200
  | Raise (HTTPExc e) => status_code e
  | Raise _ => 500
  end.

Definition detail_of {A} (r : Result A) : string :=
  match r with
  | Raise (HTTPExc e) => detail e
  | _ => ""
  end.

Definition srv_fresh : Server :=
  ({| redis_client := Some (healthy ∅) |}, db_users).

(** Two live sessions of alice and one of another user. *)
Definition session_row (id uid : Z) (jti : string) : RefreshToken :=
  {| rt_id := id; rt_user_id := uid; rt_jti := jti;
     rt_expires_at := t0 + timedelta_days 30; rt_created_at := t0;
     revoked := false; revoked_at := None;
     device_info := Some "browser"; ip_address := Some "1.2.3.4" |}.

Definition db_sessions : DB :=
  {| users := [alice; bob_inactive];
     refresh_token_table :=
       [session_row 1 1 "j-r1"; session_row 2 1 "j-r2"; session_row 3 7 "j-r3"];
     token_blocklist := [] |}.

Definition alice_access_token : Token :=
  JWS "s3cr3t" (claims0 "a@b.com" (Some "j-a1") "access" (timegm t0 + 600)).

Definition alice_refresh_token : Token :=
  JWS "s3cr3t"
    (claims0 "a@b.com" (Some "j-r1") "refresh"
             (timegm (t0 + timedelta_days 30))).

Definition rotate_request : RefreshTokenRequest :=
  {| body_refresh_token := alice_refresh_token |}.

(** A database with a row that is past its expiry but was never revoked,
    and a live row of the inactive user. *)
Definition expired_row : RefreshToken :=
  {| rt_id := 3; rt_user_id := 1; rt_jti := "j-old";
     rt_expires_at := t0 - timedelta_days 1;
     rt_created_at := t0 - timedelta_days 31;
     revoked := false; revoked_at := None;
     device_info := Some "browser"; ip_address := Some "1.2.3.4" |}.

Definition db_logout : DB :=
  {| users := [alice; bob_inactive];
     refresh_token_table :=
       [session_row 1 1 "j-r1"; session_row 2 2 "j-rb"; expired_row];
     token_blocklist := [] |}.

Definition expired_refresh_token : Token :=
  JWS "s3cr3t"
    (claims0 "a@b.com" (Some "j-old") "refresh"
             (timegm (t0 - timedelta_days 1))).

Definition bob_refresh_token : Token :=
  JWS "s3cr3t"
    (claims0 "bob@b.com" (Some "j-rb") "refresh"
             (timegm (t0 + timedelta_days 30))).

(** An access token signed with another key. *)
Definition forged_access_token : Token :=
  JWS "not-the-key"
    (claims0 "a@b.com" (Some "j-a9") "access" (timegm t0 + 600)).

(** The state after the users were created and alice was issued a token. *)
Definition issued_session : Session :=
  (create_refresh_token cfg0 alice (Some "browser") (Some "1.2.3.4") t0 5
     (open_session db_users)).1.

(** Alice is issued a second refresh token, on her phone; a second later
    she logs out with her access token and the first refresh token, and a
    second after that she calls logout-all with the same access token. *)
Definition issued_refresh_token : Token :=
  match (create_refresh_token cfg0 alice (Some "browser") (Some "1.2.3.4") t0 5
           (open_session db_users)).2 with
  | Return issued => issued.1
  | Raise _ => NotAJWS ""
  end.

Definition issued_twice_session : Session :=
  (create_refresh_token cfg0 alice (Some "phone") (Some "5.6.7.8") t0 6
     (open_session (durable issued_session))).1.

Definition logged_out_session : Session :=
  (logout cfg0 (with_bearer alice_access_token)
          (Some {| body_refresh_token := issued_refresh_token |})
          (t0 + 1000000) (open_session (durable issued_twice_session))).1.

Definition logged_out_all_session : Session :=
  (logout_all_devices cfg0 (with_bearer alice_access_token) alice
     (t0 + 2000000) (open_session (durable logged_out_session))).1.

(** An access token of alice on another device. *)
Definition alice_other_access_token : Token :=
  JWS "s3cr3t" (claims0 "a@b.com" (Some "j-a7") "access" (timegm t0 + 600)).

(** The refresh token of alice's second session in [db_sessions]. *)
Definition alice_second_refresh_token : Token :=
  JWS "s3cr3t"
    (claims0 "a@b.com" (Some "j-r2") "refresh"
             (timegm (t0 + timedelta_days 30))).

(** A request that names its address in X-Forwarded-For, and a store in
    which the logins of alice from 1.2.3.4 are locked out. *)
Definition forwarded_request (v : string) : Request :=
  {| req_headers := {["x-forwarded-for" := v]}; authorization := None;
     client_host := Some "1.2.3.4" |}.

Definition locked_store : gmap string RedisEntry :=
  {[ _get_key "brute_force" "1.2.3.4:a@b.com" :=
       {| value := 5; expire_at := Some (mstime t0 + 900000) |} ]}.

(** An access token signed with the key whose [exp] is the first second of
    the year 10000. *)
Definition far_access_token : Token :=
  JWS "s3cr3t" (claims0 "a@b.com" (Some "j-a1") "access" 253402300800).

(** The account is switched on again. *)
Definition activate (u : User) : User :=
  {| user_id := user_id u; email := email u;
     hashed_password := hashed_password u; is_active := true |}.

(** The right password of the inactive user. *)
Definition bob_password : LoginForm :=
  {| username := "bob@b.com"; password := "pw2" |}.

(* ===================================================================== *)
(** * Properties *)

(** ** Generic facts *)

Lemma timegm_mono (a b : datetime) : a ≤ b → timegm a ≤ timegm b.
Proof. intros H. unfold timegm. apply Z.div_le_mono; lia. Qed.

Lemma head_filter_Some {A} (P : A → Prop) `{∀ x, Decision (P x)}
    (l : list A) (x : A) :
  head (filter P l) = Some x → x ∈ l ∧ P x.
Proof.
  intros Hh. apply head_Some_elem_of in Hh.
  by apply list_elem_of_filter in Hh as [? ?].
Qed.

Lemma head_filter_None {A} (P : A → Prop) `{∀ x, Decision (P x)}
    (l : list A) :
  head (filter P l) = None ↔ ∀ x, x ∈ l → ¬ P x.
Proof.
  rewrite head_None. split.
  - intros Hnil x Hx HP.
    assert (x ∈ filter P l) as Hin by (apply list_elem_of_filter; done).
    rewrite Hnil in Hin. by apply not_elem_of_nil in Hin.
  - intros Hall. induction l as [|y l IH]; [done|].
    rewrite filter_cons. destruct (decide (P y)) as [HP|HP].
    + exfalso. apply (Hall y); [left|done].
    + apply IH. intros x Hx. apply Hall. by right.
Qed.

Lemma head_filter_is_Some {A} (P : A → Prop) `{∀ x, Decision (P x)}
    (l : list A) :
  is_Some (head (filter P l)) ↔ ∃ x, x ∈ l ∧ P x.
Proof.
  split.
  - intros [x Hx]. exists x. by apply (head_filter_Some P l x).
  - intros (x & Hx & HP). destruct (head (filter P l)) eqn:E; [eauto|].
    exfalso. by apply (proj1 (head_filter_None P l) E x).
Qed.

(** Unfolding of the monad's primitives. *)
Ltac st_unfold :=
  cbv beta iota delta
    [st_bind st_ret st_raise st_try raise_http on_JWTError on_HTTPException
     on_Exception db_read db_write db_commit] in *.

(** ** The revocation registry *)

(** C6. [check_token_blocklist] answers true exactly when the registry holds
    an entry with that unique-id whose mirrored expiry is still ahead; an
    entry whose expiry has passed does not block, although it is still in
    the table. *)
Theorem check_token_blocklist_iff (jti : string) (now : datetime) (s : Session) :
  ∃ answer,
    check_token_blocklist jti now s = (s, Return answer) ∧
    (answer = true ↔
       ∃ e, e ∈ token_blocklist (working s) ∧
            bl_jti e = jti ∧ now < bl_expires_at e) ∧
    (∀ e, e ∈ token_blocklist (working s) →
          bl_jti e = jti →
          (∀ e', e' ∈ token_blocklist (working s) → bl_jti e' = jti → e' = e) →
          bl_expires_at e ≤ now →
          answer = false).
Proof.
  unfold check_token_blocklist. st_unfold.
  eexists. split; [reflexivity|]. split.
  - rewrite bool_decide_eq_true, head_filter_is_Some. naive_solver.
  - intros e He Hj Huniq Hexp. apply bool_decide_eq_false.
    rewrite head_filter_is_Some. intros (e' & He' & Hj' & Hlt).
    rewrite (Huniq e' He' Hj') in Hlt. lia.
Qed.

Lemma check_token_blocklist_iff_witness :
  check_token_blocklist "j-old" t0 (open_session db_stale)
  = (open_session db_stale, Return false).
Proof.
  destruct (check_token_blocklist_iff "j-old" t0 (open_session db_stale))
    as (answer & Hrun & _ & Hstale).
  rewrite Hrun. do 2 f_equal.
  apply (Hstale stale_entry).
  - simpl. apply list_elem_of_here.
  - reflexivity.
  - simpl. intros e' He' _. by apply list_elem_of_singleton in He'.
  - vm_compute. discriminate.
Defined.

(** ** The access-token validator *)

Lemma validate_in_order_cons cfg db now token r order :
  validate_in_order (r :: order) cfg db now token
  = if check_fails cfg db now token r then inl r
    else validate_in_order order cfg db now token.
Proof.
  unfold validate_in_order, first_failing. rewrite filter_cons.
  destruct (check_fails cfg db now token r); simpl; reflexivity.
Qed.

Lemma blocked_query_Exists (P : TokenBlocklist → Prop)
    `{∀ b, Decision (P b)} (l : list TokenBlocklist) :
  bool_decide (is_Some (head (filter P l))) = bool_decide (Exists P l).
Proof.
  apply bool_decide_ext. rewrite head_filter_is_Some, Exists_exists. done.
Qed.

(** The nested tests of [get_current_user] are the checks of [code_order],
    taken in that order, and leave the session as it was. *)
Lemma get_current_user_checks_code_order cfg token now s :
  get_current_user_checks cfg token now s
  = (s, Return (validate_in_order code_order cfg (working s) now token)).
Proof.
  unfold get_current_user_checks, code_order, jwt_decode.
  rewrite !validate_in_order_cons.
  destruct token as [raw|k c]; [reflexivity|].
  simpl.
  destruct (bool_decide (k = SECRET_KEY cfg)); simpl; [|reflexivity].
  destruct (c_exp c) as [e|];
    [destruct (bool_decide (e < timegm now)); simpl; [reflexivity|]|];
    (destruct (bool_decide (c_type c = Some "access")); simpl; [|reflexivity];
     unfold validate_in_order, first_failing, subject_of; simpl;
     destruct (c_sub c) as [mail|]; simpl; [|reflexivity];
     unfold check_token_blocklist, get_user_by_email; st_unfold;
     destruct (c_jti c) as [j|]; simpl;
     [destruct (bool_decide (j = "")); simpl;
      [|rewrite blocked_query_Exists;
        destruct (bool_decide (Exists _ _)); [reflexivity|]]|];
     (destruct (head (filter _ (users _))) as [u|]; simpl;
      [destruct (is_active u)|]; reflexivity)).
Qed.


Lemma get_current_user_by_checks cfg token now s :
  get_current_user cfg token now s
  = match validate_in_order code_order cfg (working s) now token with
    | inl r => (s, Raise (HTTPExc (rejection_response r)))
    | inr u => (s, Return u)
    end.
Proof.
  unfold get_current_user, st_bind.
  rewrite get_current_user_checks_code_order.
  by destruct (validate_in_order _ _ _ _ _).
Qed.

(** C5, as the code has it. The validator checks, in this order: signature,
    expiry, type, presence of the subject claim, registry (for a token that
    carries a unique-id), existence of the subject, activity of the subject;
    it rejects with the first check that fails and leaves the session and
    the database as they were. *)
Theorem validator_check_order cfg token now s :
  get_current_user_checks cfg token now s
  = (s, Return (validate_in_order code_order cfg (working s) now token)) ∧
  (get_current_user cfg token now s).1 = s ∧
  (∀ r, first_failing code_order cfg (working s) now token = Some r →
        get_current_user cfg token now s
        = (s, Raise (HTTPExc (rejection_response r)))).
Proof.
  split; [apply get_current_user_checks_code_order|].
  rewrite get_current_user_by_checks. split.
  - by destruct (validate_in_order _ _ _ _ _).
  - intros r Hr. unfold validate_in_order. by rewrite Hr.
Qed.

Lemma validator_check_order_witness :
  get_current_user cfg0 stale_refresh_token t0 (open_session db_users)
  = (open_session db_users, Raise (HTTPExc (rejection_response Expired))).
Proof.
  apply (proj2 (proj2 (validator_check_order cfg0 stale_refresh_token t0
                         (open_session db_users)))).
  vm_compute. reflexivity.
Defined.

(** C5, as stated, fails: a token of the wrong type that has also expired is
    rejected as expired, where the order signature, type, expiry gives
    wrong-type. *)
Lemma validator_spec_order_counterexample :
  validate_in_order spec_order cfg0 db_users t0 stale_refresh_token
    = inl WrongType ∧
  get_current_user_checks cfg0 stale_refresh_token t0 (open_session db_users)
    = (open_session db_users, Return (inl Expired)).
Proof. split; vm_compute; reflexivity. Qed.

(** C4, as the code has it. A rejected token gets one of three responses:
    malformed, expired, wrong-type, subject-less and unknown-subject tokens
    all get the same 401; a blocklisted token a 401 that says so; an
    inactive subject a 403. *)
Theorem rejection_responses cfg token now s :
  match validate_in_order code_order cfg (working s) now token with
  | inr u => get_current_user cfg token now s = (s, Return u)
  | inl r =>
      get_current_user cfg token now s
      = (s, Raise (HTTPExc
          match r with
          | Revoked =>
              {| status_code := 401; detail := "Token has been revoked";
                 headers := [("WWW-Authenticate", "Bearer")] |}
          | InactiveSubject =>
              {| status_code := 403; detail := "User account is inactive";
                 headers := [] |}
          | _ => credentials_exception
          end))
  end.
Proof.
  rewrite get_current_user_by_checks.
  destruct (validate_in_order _ _ _ _ _) as [[]|u]; reflexivity.
Qed.

(** C4, as stated, fails: the caller can tell a revoked token and an
    inactive subject from a malformed token. *)
Lemma unauthorized_not_uniform :
  ∃ e_malformed e_revoked e_inactive,
    get_current_user cfg0 (NotAJWS "garbage") t0 (open_session db_blocked)
      = (open_session db_blocked, Raise (HTTPExc e_malformed)) ∧
    get_current_user cfg0 blocked_access_token t0 (open_session db_blocked)
      = (open_session db_blocked, Raise (HTTPExc e_revoked)) ∧
    get_current_user cfg0 inactive_access_token t0 (open_session db_blocked)
      = (open_session db_blocked, Raise (HTTPExc e_inactive)) ∧
    detail e_malformed ≠ detail e_revoked ∧
    status_code e_malformed ≠ status_code e_inactive.
Proof.
  do 3 eexists. repeat split; try (vm_compute; reflexivity).
  - vm_compute. discriminate.
  - vm_compute. discriminate.
Qed.

(** ** Tokens without a unique-id *)

Lemma hex_field_S u low c :
  hex_field u low (S c)
  = String (hex_digit (N.land (N.shiftr u (4 * (low + N.of_nat c))) 15))
           (hex_field u low c).
Proof. reflexivity. Qed.

Lemma append_String a s t : String a s +:+ t = String a (s +:+ t).
Proof. reflexivity. Qed.

Lemma uuid_str_nonempty (u : N) : uuid_str u ≠ "".
Proof.
  unfold uuid_str. rewrite (hex_field_S u 24 7), append_String. discriminate.
Qed.

Lemma issued_access_claims cfg data delta now uuid4 :
  c_jti (access_claims cfg data delta now uuid4) = Some (uuid_str uuid4) ∧
  truthy (c_jti (access_claims cfg data delta now uuid4)) = true.
Proof.
  split; [reflexivity|]. unfold access_claims, truthy. cbn [c_jti].
  rewrite bool_decide_false; [done|apply uuid_str_nonempty].
Qed.

(** C10. A token with a good signature, type access, an [exp] that has not
    passed and a subject that resolves to an active user, but with no
    unique-id, is accepted whatever the registry holds: the lookup is
    skipped.  Every token [create_access_token] mints carries a non-empty
    unique-id, so such a token was signed elsewhere. *)
Theorem token_without_jti_accepted cfg payload now s mail u :
  truthy (c_jti payload) = false →
  c_type payload = Some "access" →
  (∀ e, c_exp payload = Some e → timegm now ≤ e) →
  c_sub payload = Some mail →
  head (filter (λ x, email x = mail) (users (working s))) = Some u →
  is_active u = true →
  get_current_user cfg (JWS (SECRET_KEY cfg) payload) now s = (s, Return u) ∧
  (∀ registry,
     let s' := {| opened_on := opened_on s; commits := commits s;
                  working := with_token_blocklist (λ _, registry) (working s) |} in
     get_current_user cfg (JWS (SECRET_KEY cfg) payload) now s'
     = (s', Return u)) ∧
  (∀ data delta t uuid4,
     create_access_token cfg data delta t uuid4
       = JWS (SECRET_KEY cfg) (access_claims cfg data delta t uuid4) ∧
     truthy (c_jti (access_claims cfg data delta t uuid4)) = true).
Proof.
  intros Hjti Htype Hexp Hsub Huser Hactive.
  assert (∀ s0, users (working s0) = users (working s) →
    get_current_user cfg (JWS (SECRET_KEY cfg) payload) now s0
    = (s0, Return u)) as Hany.
  { intros s0 Hs0.
    unfold get_current_user, get_current_user_checks, jwt_decode.
    rewrite bool_decide_true by done.
    assert (match c_exp payload with
            | Some e =>
                if true && bool_decide (e < timegm now)
                then inl ExpiredSignatureError else inr payload
            | None => inr payload
            end = (inr payload : JWTError + Claims)) as ->.
    { destruct (c_exp payload) as [e|] eqn:He; [|done].
      specialize (Hexp e eq_refl). simpl.
      rewrite bool_decide_false by lia. done. }
    rewrite Htype, Hsub, Hjti. simpl.
    unfold get_user_by_email. st_unfold. rewrite Hs0, Huser, Hactive.
    reflexivity. }
  split; [by apply Hany|]. split; [intros registry; by apply Hany|].
  intros data delta t uuid4. split; [reflexivity|].
  apply issued_access_claims.
Qed.

Lemma token_without_jti_accepted_witness :
  get_current_user cfg0 foreign_access_token t0 (open_session db_blocked)
  = (open_session db_blocked, Return alice).
Proof.
  apply (token_without_jti_accepted cfg0
           (claims0 "a@b.com" None "access" (timegm t0 + 600)) t0
           (open_session db_blocked) "a@b.com" alice).
  - reflexivity.
  - reflexivity.
  - intros e He. injection He as <-. vm_compute. discriminate.
  - reflexivity.
  - vm_compute. reflexivity.
  - reflexivity.
Defined.

(** ** The counter store fails open *)









Ltac limiter_unfold :=
  cbv beta iota delta
    [in_limiter in_session with_client round_trip redis_get redis_setex
     redis_delete redis_ttl redis_pipeline redis_client faults data tail
     limiter session fst snd replicate app] in *;
  st_unfold.

(** While the counter store is out, the body of [login] refuses for the
    credentials only. *)
Lemma login_during_outage `{CryptContext} cfg request form now ua ur app e :
  unreachable 2 (limiter app) →
  (login_body cfg request form now ua ur app).2 = Raise (HTTPExc e) →
  status_code e = 401.
Proof.
  destruct app as [[client] sess]. unfold unreachable. simpl redis_client.
  intros Hdown.
  assert (∃ rl,
    in_limiter (record_failed_login cfg
        (_get_client_ip request +:+ ":" +:+ username form) now)
      {| limiter := {| redis_client := client |}; session := sess |}
    = ({| limiter := rl; session := sess |}, Return (0, false)) ∧
    unreachable 1 rl) as (rl & Hrec & Hrl).
  { destruct client as [[d fs]|].
    - destruct Hdown as [rest Hfs]. simpl in Hfs. subst fs.
      eexists. split; [unfold record_failed_login; limiter_unfold; reflexivity|].
      exists rest. reflexivity.
    - eexists. split; [reflexivity|]. exact I. }
  unfold login_body. unfold st_bind at 1. rewrite Hrec. cbv iota beta.
  unfold st_bind at 1.
  unfold in_session at 1, get_user_by_email. st_unfold. cbv beta iota.
  cbv beta iota delta [session limiter].
  destruct (head (filter _ (users (working sess)))) as [u|].
  - destruct (verify_password (password form) (hashed_password u)); simpl negb;
      cbv iota.
    + destruct rl as [[[d fs]|]];
        unfold reset_failed_logins, create_refresh_token; limiter_unfold;
        repeat case_match; simplify_eq; simpl; intros; simplify_eq.
    + destruct rl as [[[d fs]|]];
        unfold get_remaining_attempts; limiter_unfold;
        [destruct Hrl as [rest Hfs]; simpl in Hfs; subst fs|];
        simpl; intros; simplify_eq; reflexivity.
  - destruct rl as [[[d fs]|]];
      unfold get_remaining_attempts; limiter_unfold;
      [destruct Hrl as [rest Hfs]; simpl in Hfs; subst fs|];
      simpl; intros; simplify_eq; reflexivity.
Qed.




(** ** The lockout threshold *)

(** C1, evaluated. With [BRUTE_FORCE_MAX_ATTEMPTS = 5], four wrong passwords
    from one client are answered 401 with 4, 3, 2 and 1 attempts remaining;
    the fifth attempt, with the right password, is answered 429: every
    attempt is counted before the credentials are looked at. *)
Theorem lockout_after_four_failures :
  let outcome :=
    (@login_sequence test_crypt cfg0 request0
       [wrong_password; wrong_password; wrong_password; wrong_password;
        right_password] t0 srv_fresh).2 in
  status_of <$> outcome = [401; 401; 401; 401; 429] ∧
  detail_of <$> outcome
  = [failed_detail 4; failed_detail 3; failed_detail 2; failed_detail 1;
     locked_detail cfg0 16].
Proof. vm_compute. split; reflexivity. Qed.

(** In general: once the counter of an identifier stands at
    [max_attempts - 1], the next login is answered 429 whatever password it
    brings. *)
Lemma login_counts_before_checking `{CryptContext} cfg request form now ua ur
    d sess entry :
  0 < BRUTE_FORCE_LOCKOUT_MINUTES cfg →
  redis_lookup d
    (_get_key "brute_force" (_get_client_ip request +:+ ":" +:+ username form))
    (mstime now) = Some entry →
  BRUTE_FORCE_MAX_ATTEMPTS cfg ≤ value entry + 1 →
  status_of
    (login_body cfg request form now ua ur
       {| limiter := {| redis_client := Some (healthy d) |};
          session := sess |}).2 = 429.
Proof.
  intros Hminutes Hlive Hmax.
  unfold login_body, record_failed_login, get_lockout_ttl, healthy.
  limiter_unfold. rewrite Hlive. simpl default.
  rewrite (bool_decide_false (BRUTE_FORCE_LOCKOUT_MINUTES cfg * 60 ≤ 0)) by lia.
  limiter_unfold.
  rewrite bool_decide_true by done. cbv beta iota.
  limiter_unfold. reflexivity.
Qed.

(** After three wrong passwords the guard still lets the right one in: the
    body issues the tokens and stores the refresh row.  The answer is the
    exception of the decorator, which finds no response to write its
    headers into. *)
Example login_after_three_failures :
  let out :=
    @login_sequence test_crypt cfg0 request0
      [wrong_password; wrong_password; wrong_password; right_password]
      t0 srv_fresh in
  status_of <$> out.2 = [401; 401; 401; 500] ∧
  last out.2 = Some (Raise (PlainException response_required)) ∧
  rt_user_id <$> refresh_token_table out.1.2 = [1].
Proof. vm_compute. repeat split; reflexivity. Qed.

(** ** Revoke-all *)

Lemma bulk_revoke_leaves_none (uid : Z) (now : datetime) (l : list RefreshToken) :
  filter (λ r, rt_user_id r = uid ∧ revoked r = false)
    (fmap (λ r, if bool_decide (rt_user_id r = uid ∧ revoked r = false)
               then revoke r now else r) l) = [].
Proof.
  induction l as [|r l IH]; [done|].
  rewrite fmap_cons, filter_cons, IH.
  case_bool_decide as Hr; simpl.
  - rewrite decide_False; [done|]. intros [_ ?]. done.
  - by rewrite decide_False.
Qed.

(** What [revoke_all_user_tokens] does to a session: one bulk update and one
    commit; the SELECT that should feed the registry finds nothing left. *)
Lemma revoke_all_user_tokens_effect uid now s :
  revoke_all_user_tokens uid now s
  = (let w := with_refresh_tokens
        (fmap (λ r, if bool_decide (rt_user_id r = uid ∧ revoked r = false)
                   then revoke r now else r)) (working s) in
     {| opened_on := opened_on s; commits := w :: commits s; working := w |},
     Return (length (filter (λ r, rt_user_id r = uid ∧ revoked r = false)
                            (refresh_token_table (working s))))).
Proof.
  unfold revoke_all_user_tokens. st_unfold.
  cbv beta iota delta [working with_refresh_tokens refresh_token_table].
  rewrite bulk_revoke_leaves_none. reflexivity.
Qed.

Lemma revoke_all_never_mirrors uid now db :
  token_blocklist (run_request (revoke_all_user_tokens uid now) db).1
  = token_blocklist db.
Proof.
  unfold run_request. rewrite revoke_all_user_tokens_effect. reflexivity.
Qed.

(** C2, evaluated. For a user with two live refresh tokens, revoke-all flags
    both rows, commits once and counts 2, but writes no registry entry for
    either; logout-all then adds the entry of the presented access token
    only. *)
Theorem revoke_all_mirrors_nothing :
  let '(s, counted) := revoke_all_user_tokens 1 t0 (open_session db_sessions) in
  counted = Return 2%nat ∧
  commits s = [working s] ∧
  (revoked <$> refresh_token_table (durable s)) = [true; true; false] ∧
  token_blocklist (durable s) = [] ∧
  bl_jti <$> token_blocklist
    (run_request (logout_all_devices cfg0 (with_bearer alice_access_token)
                    alice t0) db_sessions).1
  = ["j-a1"].
Proof. vm_compute. repeat split; reflexivity. Qed.

(** ** Refresh-token validation *)

Ltac session_unfold :=
  st_unfold;
  cbv beta iota delta
    [open_session working commits opened_on with_refresh_tokens
     with_token_blocklist with_users users refresh_token_table
     token_blocklist fst snd] in *.

Lemma verify_refresh_token_run cfg token now s :
  verify_refresh_token cfg token now s
  = (s, verify_result cfg token now (working s)).
Proof.
  unfold verify_result, verify_refresh_token, unauthorized, decode,
    get_user_by_email.
  destruct (jwt_decode token (SECRET_KEY cfg) true now) as [e|payload];
    [reflexivity|].
  st_unfold. simpl.
  destruct (negb (bool_decide (c_type payload = Some "refresh")));
    [reflexivity|].
  destruct (c_jti payload) as [j|], (c_sub payload) as [mail|];
    try reflexivity.
  destruct (_ || _); [reflexivity|].
  destruct (head (filter _ (refresh_token_table _))) as [t|]; [|reflexivity].
  destruct (negb (is_valid t now)); [reflexivity|].
  destruct (head (filter _ (users _))) as [u|]; [|reflexivity].
  destruct (negb (is_active u)); reflexivity.
Qed.

Lemma verify_result_unfold cfg token now db :
  verify_result cfg token now db
  = match jwt_decode token (SECRET_KEY cfg) true now with
    | inl _ => Raise (http401 "Could not validate token")
    | inr payload =>
        if negb (bool_decide (c_type payload = Some "refresh"))
        then Raise (http401 "Invalid token type")
        else
          match c_jti payload, c_sub payload with
          | Some jti, Some mail =>
              if negb (truthy (Some jti)) || negb (truthy (Some mail))
              then Raise (http401 "Invalid token payload")
              else
                match head (filter (λ r, rt_jti r = jti ∧ revoked r = false)
                                   (refresh_token_table db)) with
                | None =>
                    Raise (http401 "Token has been revoked or does not exist")
                | Some t =>
                    if negb (is_valid t now)
                    then Raise (http401 "Token has expired")
                    else
                      match head (filter (λ u, email u = mail) (users db)) with
                      | None => Raise (http401 "User not found or inactive")
                      | Some u =>
                          if negb (is_active u)
                          then Raise (http401 "User not found or inactive")
                          else Return (u, t)
                      end
                end
          | _, _ => Raise (http401 "Invalid token payload")
          end
    end.
Proof.
  unfold verify_result, verify_refresh_token, unauthorized, decode,
    get_user_by_email, http401.
  destruct (jwt_decode token (SECRET_KEY cfg) true now) as [e|payload];
    [reflexivity|].
  st_unfold. simpl.
  destruct (negb (bool_decide (c_type payload = Some "refresh")));
    [reflexivity|].
  destruct (c_jti payload) as [j|], (c_sub payload) as [mail|];
    try reflexivity.
  destruct (_ || _); [reflexivity|].
  change (working (open_session db)) with db.
  destruct (head (filter _ (refresh_token_table _))) as [t|]; [|reflexivity].
  destruct (negb (is_valid t now)); [reflexivity|].
  change (working (open_session db)) with db.
  destruct (head (filter _ (users _))) as [u|]; [|reflexivity].
  destruct (negb (is_active u)); reflexivity.
Qed.

(** Validation looks at the users and at the refresh-token rows only. *)
Lemma verify_result_ext cfg token now db db' :
  users db' = users db →
  refresh_token_table db' = refresh_token_table db →
  verify_result cfg token now db' = verify_result cfg token now db.
Proof. intros Hu Ht. rewrite !verify_result_unfold, Hu, Ht. reflexivity. Qed.

Lemma verify_result_raises cfg token now db e :
  verify_result cfg token now db = Raise e →
  ∃ msg, e = http401 msg.
Proof.
  rewrite verify_result_unfold. intros Hv.
  repeat case_match; simplify_eq; eauto.
Qed.

Lemma verify_result_returns cfg token now db u t :
  verify_result cfg token now db = Return (u, t) →
  ∃ payload jti mail,
    token = JWS (SECRET_KEY cfg) payload ∧
    c_type payload = Some "refresh" ∧
    c_jti payload = Some jti ∧ jti ≠ "" ∧
    c_sub payload = Some mail ∧ mail ≠ "" ∧
    rt_jti t = jti ∧ t ∈ refresh_token_table db ∧ revoked t = false.
Proof.
  rewrite verify_result_unfold. unfold jwt_decode. intros Hv.
  destruct token as [raw|k payload]; [done|].
  case_bool_decide as Hk; [subst k|done].
  assert (∀ x : JWTError + Claims, match x with
    | inl _ => Raise (http401 "Could not validate token")
    | inr p => Return p end = Return payload → x = inr payload) as Hinr.
  { intros [?|?] ?; simplify_eq. done. }
  exists payload.
  destruct (c_exp payload) as [x|];
    [destruct (true && bool_decide (x < timegm now)); [done|]|];
    (case_bool_decide as Htype; [|done]; simpl in Hv;
     destruct (c_jti payload) as [j|]; [|done];
     destruct (c_sub payload) as [mail|]; [|done];
     exists j, mail;
     destruct (bool_decide (j = "")) eqn:Hj; [done|];
     destruct (bool_decide (mail = "")) eqn:Hm; [done|];
     apply bool_decide_eq_false in Hj, Hm; simpl in Hv;
     destruct (head (filter _ _)) as [t'|] eqn:Hfound; [|done];
     apply head_filter_Some in Hfound as [Hin [Hjt Hrev]];
     repeat case_match; simplify_eq; done).
Qed.

Lemma verify_result_spent cfg payload jti now db :
  c_jti payload = Some jti →
  spent jti db →
  ∃ msg,
    verify_result cfg (JWS (SECRET_KEY cfg) payload) now db
      = Raise (http401 msg) ∧
    (c_type payload = Some "refresh" →
     truthy (c_jti payload) = true → truthy (c_sub payload) = true →
     (∀ x, c_exp payload = Some x → timegm now ≤ x) →
     msg = "Token has been revoked or does not exist").
Proof.
  intros Hjti Hspent. rewrite verify_result_unfold. unfold jwt_decode.
  rewrite bool_decide_true by done.
  assert (head (filter (λ r, rt_jti r = jti ∧ revoked r = false)
                       (refresh_token_table db)) = None) as Hnone.
  { apply head_filter_None. intros r Hr [Hj Hrev].
    rewrite (Hspent r Hr Hj) in Hrev. done. }
  assert (∃ msg,
    (if negb (bool_decide (c_type payload = Some "refresh"))
     then Raise (http401 "Invalid token type")
     else
       match c_jti payload, c_sub payload with
       | Some jti, Some mail =>
           if negb (truthy (Some jti)) || negb (truthy (Some mail))
           then Raise (http401 "Invalid token payload")
           else
             match head (filter (λ r, rt_jti r = jti ∧ revoked r = false)
                                (refresh_token_table db)) with
             | None =>
                 Raise (http401 "Token has been revoked or does not exist")
             | Some t =>
                 if negb (is_valid t now)
                 then Raise (http401 "Token has expired")
                 else
                   match head (filter (λ u, email u = mail) (users db)) with
                   | None => Raise (http401 "User not found or inactive")
                   | Some u =>
                       if negb (is_active u)
                       then Raise (http401 "User not found or inactive")
                       else Return (u, t)
                   end
             end
       | _, _ => Raise (http401 "Invalid token payload")
       end) = Raise (http401 msg) ∧
    (c_type payload = Some "refresh" →
     truthy (c_jti payload) = true → truthy (c_sub payload) = true →
     msg = "Token has been revoked or does not exist")) as (msg & Hmsg & Hwhy).
  { rewrite Hjti, Hnone.
    destruct (bool_decide (c_type payload = Some "refresh")) eqn:Ht; simpl.
    - destruct (c_sub payload) as [mail|]; simpl;
        [|eexists; split; [reflexivity|]; by intros _ _ [=]].
      destruct (bool_decide (jti = "")); simpl;
        [eexists; split; [reflexivity|]; by intros _ [=]|].
      destruct (bool_decide (mail = "")); simpl;
        [eexists; split; [reflexivity|]; by intros _ _ [=]|].
      eexists. split; reflexivity.
    - eexists. split; [reflexivity|]. intros Hty.
      apply bool_decide_eq_false in Ht. done. }
  destruct (c_exp payload) as [x|] eqn:Hexp.
  - destruct (bool_decide (x < timegm now)) eqn:Hx; simpl.
    + eexists. split; [reflexivity|]. intros _ _ _ Hlive.
      apply bool_decide_eq_true in Hx. specialize (Hlive x eq_refl). lia.
    + exists msg. split; [exact Hmsg|]. intros. by apply Hwhy.
  - exists msg. split; [exact Hmsg|]. intros. by apply Hwhy.
Qed.

(** ** Registry writes and token issue, step by step *)

Lemma block_token_run kind jti expires_at uid why now s :
  block_token kind jti expires_at uid why now s
  = match head (filter (λ b, bl_jti b = jti) (token_blocklist (working s))) with
    | Some existing => (s, Return existing)
    | None =>
        let blocked :=
          {| bl_id := next_id (bl_id <$> token_blocklist (working s));
             bl_jti := jti; token_type := kind; bl_user_id := uid;
             bl_expires_at := expires_at; bl_revoked_at := now;
             reason := why |} in
        let w := with_token_blocklist (λ l, l ++ [blocked]) (working s) in
        ({| opened_on := opened_on s; commits := w :: commits s;
            working := w |}, Return blocked)
    end.
Proof.
  unfold block_token. st_unfold.
  destruct (head (filter _ _)); reflexivity.
Qed.

Lemma create_refresh_token_run cfg user device ip now uuid4 s :
  create_refresh_token cfg user device ip now uuid4 s
  = if bool_decide (uuid_str uuid4 ∈ rt_jti <$> refresh_token_table (working s))
    then (s, Raise IntegrityError)
    else
      let expires_at := now + timedelta_days (REFRESH_TOKEN_EXPIRE_DAYS cfg) in
      let db_token :=
        {| rt_id := next_id (rt_id <$> refresh_token_table (working s));
           rt_user_id := user_id user; rt_jti := uuid_str uuid4;
           rt_expires_at := expires_at; rt_created_at := now;
           revoked := false; revoked_at := None;
           device_info := device; ip_address := ip |} in
      let w := with_refresh_tokens (λ l, l ++ [db_token]) (working s) in
      ({| opened_on := opened_on s; commits := w :: commits s; working := w |},
       Return (jwt_encode
                 {| c_sub := Some (email user); c_jti := Some (uuid_str uuid4);
                    c_type := Some "refresh";
                    c_exp := Some (timegm expires_at) |} (SECRET_KEY cfg),
               db_token)).
Proof.
  unfold create_refresh_token. st_unfold.
  destruct (bool_decide _); reflexivity.
Qed.

(** After the block step the unique-id is on the registry, and the rows of
    the other tables are as before. *)
Lemma block_token_after kind jti expires_at uid why now s :
  let s' := (block_token kind jti expires_at uid why now s).1 in
  on_registry jti (working s') ∧
  refresh_token_table (working s') = refresh_token_table (working s) ∧
  users (working s') = users (working s) ∧
  opened_on s' = opened_on s ∧
  (s' = s ∨ (commits s' = working s' :: commits s)) ∧
  (∀ j, on_registry j (working s) → on_registry j (working s')) ∧
  ∃ b, (block_token kind jti expires_at uid why now s).2 = Return b.
Proof.
  rewrite block_token_run.
  destruct (head (filter _ _)) as [existing|] eqn:Hfound; simpl.
  - apply head_filter_Some in Hfound as [Hin Hj].
    repeat split; eauto. exists existing. done.
  - repeat split; eauto.
    + eexists. split; [apply elem_of_app; right; apply list_elem_of_here|done].
    + intros j (b & Hb & Hj). exists b. split; [|done].
      apply elem_of_app. by left.
Qed.

(** ** Rotation *)

Lemma NoDup_fmap_elem_inj {A B} (f : A → B) (l : list A) (x y : A) :
  NoDup (f <$> l) → x ∈ l → y ∈ l → f x = f y → x = y.
Proof.
  induction l as [|z l IH]; intros Hnd Hx Hy Hf.
  - by apply elem_of_nil in Hx.
  - rewrite fmap_cons in Hnd. apply NoDup_cons in Hnd as [Hz Hnd].
    apply elem_of_cons in Hx as [->|Hx]; apply elem_of_cons in Hy as [->|Hy].
    + done.
    + exfalso. apply Hz. rewrite Hf. by apply list_elem_of_fmap_2.
    + exfalso. apply Hz. rewrite <- Hf. by apply list_elem_of_fmap_2.
    + by apply IH.
Qed.

(** Writing back the revoked row spends its unique-id. *)
Lemma update_spends now t db :
  jti_unique db → t ∈ refresh_token_table db →
  spent (rt_jti t)
    (with_refresh_tokens
       (fmap (λ r, if bool_decide (rt_id r = rt_id (revoke t now))
                   then revoke t now else r)) db).
Proof.
  intros Hnd Ht r' Hr' Hj. simpl in Hr'.
  apply list_elem_of_fmap in Hr' as (r & -> & Hr).
  case_bool_decide as Hid; [reflexivity|].
  exfalso. apply Hid. simpl.
  by rewrite (NoDup_fmap_elem_inj rt_jti _ r t Hnd Hr Ht Hj).
Qed.

Lemma update_keeps_row now t db :
  t ∈ refresh_token_table db →
  revoke t now ∈ refresh_token_table
    (with_refresh_tokens
       (fmap (λ r, if bool_decide (rt_id r = rt_id (revoke t now))
                   then revoke t now else r)) db).
Proof.
  intros Ht. simpl. apply list_elem_of_fmap. exists t. split; [|done].
  by rewrite bool_decide_true.
Qed.

(** A rotation that returns has validated the old token, written its row
    back revoked, blocked it, and then issued the new pair. *)
Lemma refresh_tokens_returns cfg request body now ua ur s s' pair :
  refresh_tokens cfg request body now ua ur s = (s', Return pair) →
  ∃ u t,
    verify_result cfg (body_refresh_token body) now (working s)
      = Return (u, t) ∧
    let s1 := (db_update_refresh_token (revoke t now) s).1 in
    let s2 := (block_refresh_token (rt_jti t) (rt_expires_at t)
                 (Some (user_id u)) (Some "Token rotation") now s1).1 in
    ∃ issued,
      create_refresh_token cfg u (Some (user_agent request))
        (Some (_get_client_ip request)) now ur s2 = (s', Return issued).
Proof.
  unfold refresh_tokens. unfold st_bind at 1.
  rewrite verify_refresh_token_run.
  destruct (verify_result _ _ _ _) as [[u t]|e]; [|done].
  intros Hrun. exists u, t. split; [done|]. cbv zeta.
  revert Hrun. unfold st_bind at 1.
  destruct (db_update_refresh_token (revoke t now) s) as [s1 [[]|e1]] eqn:Hup;
    [|done].
  unfold st_bind at 1. simpl fst.
  destruct (block_refresh_token _ _ _ _ _ s1) as [s2 [b|e2]] eqn:Hbl; [|done].
  unfold st_bind at 1. simpl fst.
  destruct (create_refresh_token _ _ _ _ _ _ s2) as [s3 [issued|e3]] eqn:Hcr;
    [|done].
  unfold st_ret. intros [= <- _]. eauto.
Qed.

(** A rotation of a token that fails validation raises what validation
    raises and touches nothing. *)
Lemma refresh_tokens_rejects cfg request body now ua ur s e :
  verify_result cfg (body_refresh_token body) now (working s) = Raise e →
  refresh_tokens cfg request body now ua ur s = (s, Raise e).
Proof.
  intros Hv. unfold refresh_tokens. unfold st_bind at 1.
  by rewrite verify_refresh_token_run, Hv.
Qed.

Lemma spent_ext jti db db' :
  refresh_token_table db' = refresh_token_table db →
  spent jti db → spent jti db'.
Proof. unfold spent. intros ->. done. Qed.

Lemma spent_insert jti new db :
  rt_jti new ≠ jti →
  spent jti db →
  spent jti (with_refresh_tokens (λ l, l ++ [new]) db).
Proof.
  intros Hne Hs r Hr Hj. simpl in Hr.
  apply elem_of_app in Hr as [Hr|Hr]; [by apply Hs|].
  apply list_elem_of_singleton in Hr as ->. done.
Qed.

(** C3. A rotation that succeeds makes one or two commits; each of them
    already has the old token's row flagged revoked and its unique-id on the
    registry, and the last one holds the new token's row: the new token is
    never durable while the old one is still valid.  From then on, in every
    database where the old rows stay revoked, validating or rotating the old
    token again is rejected with 401: as revoked while the token's own [exp]
    has not passed (after that the signature check rejects it first). *)
Theorem rotation_single_use cfg request body now ua ur db s' pair :
  jti_unique db →
  refresh_tokens cfg request body now ua ur (open_session db)
    = (s', Return pair) →
  ∃ payload jti,
    body_refresh_token body = JWS (SECRET_KEY cfg) payload ∧
    c_jti payload = Some jti ∧
    (∀ d, d ∈ commits s' → spent jti d ∧ on_registry jti d) ∧
    spent jti (durable s') ∧ on_registry jti (durable s') ∧
    (∃ r_new, r_new ∈ refresh_token_table (durable s') ∧
              rt_jti r_new = uuid_str ur ∧ revoked r_new = false ∧
              rt_jti r_new ≠ jti) ∧
    (∀ db' later,
       spent jti db' →
       ∃ msg,
         verify_result cfg (body_refresh_token body) later db'
           = Raise (http401 msg) ∧
         (∀ request' ua' ur',
            refresh_tokens cfg request' body later ua' ur' (open_session db')
            = (open_session db', Raise (http401 msg))) ∧
         ((∀ x, c_exp payload = Some x → timegm later ≤ x) →
          msg = "Token has been revoked or does not exist")).
Proof.
  intros Hunique Hrun.
  apply refresh_tokens_returns in Hrun as (u & t & Hv & issued & Hcreate).
  change (working (open_session db)) with db in Hv.
  apply verify_result_returns in Hv
    as (payload & jti & mail & Htok & Htype & Hjti & Hjne & Hsub & Hmne
        & Hjt & Hin & Hrev).
  exists payload, jti. split; [done|]. split; [done|].
  (* the write-back *)
  set (w1 := with_refresh_tokens
        (fmap (λ r, if bool_decide (rt_id r = rt_id (revoke t now))
                    then revoke t now else r)) db) in *.
  assert ((db_update_refresh_token (revoke t now) (open_session db)).1
          = {| opened_on := db; commits := []; working := w1 |}) as Hs1
    by reflexivity.
  rewrite Hs1 in Hcreate. clear Hs1.
  assert (spent jti w1) as Hspent1.
  { subst jti. by apply update_spends. }
  assert (revoke t now ∈ refresh_token_table w1) as Hkept
    by by apply update_keeps_row.
  (* the block *)
  unfold block_refresh_token in Hcreate.
  set (s1 := {| opened_on := db; commits := []; working := w1 |}) in *.
  pose proof (block_token_after "refresh" (rt_jti t) (rt_expires_at t)
                (Some (user_id u)) (Some "Token rotation") now s1)
    as (Hreg & Htab & _ & Hopen & Hcommits & _ & _).
  set (s2 := (block_token "refresh" (rt_jti t) (rt_expires_at t)
                (Some (user_id u)) (Some "Token rotation") now s1).1) in *.
  rewrite Hjt in Hreg.
  assert (spent jti (working s2)) as Hspent2 by by eapply spent_ext.
  (* the issue *)
  rewrite create_refresh_token_run in Hcreate.
  case_bool_decide as Hfresh; [done|].
  injection Hcreate as <- _.
  set (new_row := {| rt_id := next_id (rt_id <$> refresh_token_table (working s2));
                     rt_jti := uuid_str ur |}) in *.
  assert (uuid_str ur ≠ jti) as Hne.
  { intros Heq. apply Hfresh. rewrite Htab, Heq, <- Hjt.
    by apply (list_elem_of_fmap_2 rt_jti _ (revoke t now)). }
  set (w3 := with_refresh_tokens (λ l, l ++ [new_row]) (working s2)) in *.
  assert (spent jti w3) as Hspent3 by by apply spent_insert.
  assert (on_registry jti w3) as Hreg3 by exact Hreg.
  split; [|split; [exact Hspent3|split; [exact Hreg3|split]]].
  - intros d Hd. simpl in Hd.
    apply elem_of_cons in Hd as [->|Hd]; [done|].
    destruct Hcommits as [Hsame|Hcommitted].
    + rewrite Hsame in Hd. simpl in Hd. by apply elem_of_nil in Hd.
    + rewrite Hcommitted in Hd. simpl in Hd.
      apply list_elem_of_singleton in Hd as ->. done.
  - exists new_row. simpl. repeat split; [|done].
    apply elem_of_app. right. apply list_elem_of_here.
  - intros db' later Hspent'.
    destruct (verify_result_spent cfg payload jti later db' Hjti Hspent')
      as (msg & Hmsg & Hwhy).
    exists msg. rewrite Htok. split; [done|]. split.
    + intros request' ua' ur'. apply refresh_tokens_rejects.
      by rewrite Htok.
    + intros Hlive. apply Hwhy; [done| | |done].
      * rewrite Hjti. simpl. by rewrite bool_decide_false.
      * rewrite Hsub. simpl. by rewrite bool_decide_false.
Qed.

Lemma db_sessions_unique : jti_unique db_sessions.
Proof. apply (bool_decide_unpack _). vm_compute. exact I. Qed.

Lemma rotation_single_use_witness :
  ∃ msg,
    verify_result cfg0 alice_refresh_token (t0 + 5000000)
      (durable (refresh_tokens cfg0 request0 rotate_request t0 7 8
                  (open_session db_sessions)).1)
    = Raise (http401 msg).
Proof.
  destruct (refresh_tokens cfg0 request0 rotate_request t0 7 8
              (open_session db_sessions)) as [s' [pair|e]] eqn:Hrun;
    [|vm_compute in Hrun; discriminate Hrun].
  destruct (rotation_single_use cfg0 request0 rotate_request t0 7 8
              db_sessions s' pair db_sessions_unique Hrun)
    as (payload & jti & _ & _ & _ & Hspent & _ & _ & Hlater).
  destruct (Hlater (durable s') (t0 + 5000000) Hspent) as (msg & Hmsg & _).
  exists msg. exact Hmsg.
Defined.

(** A rotated token, one second later: rejected, and as revoked. *)
Example rotated_token_rejected :
  let db' := (run_request (refresh_tokens cfg0 request0 rotate_request t0 7 8)
                db_sessions).1 in
  verify_result cfg0 alice_refresh_token (t0 + 1000000) db'
    = Raise (http401 "Token has been revoked or does not exist") ∧
  (revoked <$> refresh_token_table db') = [true; false; false; false] ∧
  (bl_jti <$> token_blocklist db') = ["j-r1"].
Proof. vm_compute. repeat split; reflexivity. Qed.

(** ** Logout *)

Lemma block_token_noop kind jti expires_at uid why now s :
  on_registry jti (working s) →
  ∃ b, block_token kind jti expires_at uid why now s = (s, Return b).
Proof.
  intros (b & Hb & Hj). rewrite block_token_run.
  destruct (head (filter _ _)) as [existing|] eqn:Hfound; [eauto|].
  exfalso. by apply (proj1 (head_filter_None _ _) Hfound b).
Qed.

Lemma presented_access_time cfg request t1 t2 :
  presented_access cfg request t1 = presented_access cfg request t2.
Proof.
  unfold presented_access, jwt_decode.
  destruct (authorization request) as [[[raw|k c]|raw]|]; try reflexivity.
Qed.

Lemma logout_access_run cfg request now s :
  logout_access cfg request now s
  = match presented_access cfg request now with
    | Some (jti, e, sub) =>
        if bool_decide (representable e) then
          let uid :=
            if truthy sub
            then user_id <$> head (filter (λ u, email u = default "" sub)
                                          (users (working s)))
            else None in
          ((block_access_token jti (e * 1000000) uid (Some "User logout")
              now s).1, Return ())
        else (s, Raise ValueError)
    | None => (s, Return ())
    end.
Proof.
  unfold logout_access, presented_access, decode.
  destruct (authorization request) as [[token|raw]|]; try reflexivity.
  destruct (jwt_decode token (SECRET_KEY cfg) false now) as [e|payload];
    [reflexivity|].
  unfold st_try, st_bind at 1, st_ret at 1.
  destruct (c_jti payload) as [jti|]; [|reflexivity].
  destruct (c_exp payload) as [e|]; [|reflexivity].
  destruct (truthy (Some jti) && negb (bool_decide (e = 0))); [|reflexivity].
  unfold utcfromtimestamp.
  destruct (bool_decide (representable e)); [|reflexivity].
  unfold get_user_by_email, block_access_token.
  destruct (truthy (c_sub payload)); st_unfold; cbv beta iota zeta;
    match goal with
    | |- context [block_token ?k ?j ?x ?u ?w ?n ?s0] =>
        destruct (block_token_after k j x u w n s0)
          as (_ & _ & _ & _ & _ & _ & b & Hb);
        destruct (block_token k j x u w n s0) as [s' r];
        simpl in Hb; subst r; reflexivity
    end.
Qed.

Lemma logout_refresh_run cfg body now s :
  logout_refresh cfg body now s
  = match presented_refresh body with
    | Some token =>
        match verify_result cfg token now (working s) with
        | Return (u, t) =>
            let s1 := (db_update_refresh_token (revoke t now) s).1 in
            let s2 := (block_refresh_token (rt_jti t) (rt_expires_at t)
                         (Some (rt_user_id t)) (Some "User logout") now s1).1 in
            ((db_commit s2).1, Return ())
        | Raise _ => (s, Return ())
        end
    | None => (s, Return ())
    end.
Proof.
  unfold logout_refresh, presented_refresh.
  destruct body as [b|]; [|reflexivity].
  destruct (token_nonempty (body_refresh_token b)); [|reflexivity].
  unfold st_try, st_bind at 1. rewrite verify_refresh_token_run.
  destruct (verify_result _ _ _ _) as [[u t]|e] eqn:Hv.
  - unfold block_refresh_token. cbv beta iota zeta. simpl snd.
    unfold st_bind at 1.
    destruct (db_update_refresh_token (revoke t now) s) as [s1 [[]|e1]] eqn:Hup;
      [|done].
    unfold st_bind at 1. simpl fst.
    destruct (block_token_after "refresh" (rt_jti t) (rt_expires_at t)
                (Some (rt_user_id t)) (Some "User logout") now s1)
      as (_ & _ & _ & _ & _ & _ & b' & Hb).
    destruct (block_token _ _ _ _ _ _ s1) as [s2 r]. simpl in Hb. subst r.
    reflexivity.
  - apply verify_result_raises in Hv as [msg ->]. reflexivity.
Qed.

(** The access half returns, or it raises [ValueError] before it has done
    anything. *)
Lemma logout_access_outcome cfg request now s :
  (logout_access cfg request now s).2 = Return () ∨
  logout_access cfg request now s = (s, Raise ValueError).
Proof.
  rewrite logout_access_run.
  destruct (presented_access cfg request now) as [[[jti e] sub]|];
    [|by left].
  destruct (bool_decide (representable e)); [by left|by right].
Qed.

Lemma logout_access_returns cfg request now s :
  (∀ jti e sub, presented_access cfg request now = Some (jti, e, sub) →
                representable e) →
  (logout_access cfg request now s).2 = Return ().
Proof.
  intros Hrange. rewrite logout_access_run.
  destruct (presented_access cfg request now) as [[[jti e] sub]|]; [|done].
  by rewrite bool_decide_true by by eapply Hrange.
Qed.

Lemma logout_refresh_returns cfg body now s :
  (logout_refresh cfg body now s).2 = Return ().
Proof.
  rewrite logout_refresh_run.
  destruct (presented_refresh body) as [token|]; [|done].
  by destruct (verify_result _ _ _ _) as [[u t]|e].
Qed.

Lemma logout_run cfg request body now s :
  logout cfg request body now s
  = match (logout_access cfg request now s).2 with
    | Return _ =>
        ((logout_refresh cfg body now (logout_access cfg request now s).1).1,
         Return {| response_status := 204 |})
    | Raise e => (s, Raise e)
    end.
Proof.
  unfold logout, st_bind.
  destruct (logout_access_outcome cfg request now s) as [Ha| ->].
  - destruct (logout_access cfg request now s) as [sa ra].
    simpl in Ha. subst ra. simpl fst.
    pose proof (logout_refresh_returns cfg body now sa) as Hr.
    destruct (logout_refresh cfg body now sa) as [sr rr].
    simpl in Hr. subst rr. reflexivity.
  - reflexivity.
Qed.

(** With an [exp] that [datetime] can hold, logout answers 204. *)
Lemma logout_run_dated cfg request body now s :
  (∀ jti e sub, presented_access cfg request now = Some (jti, e, sub) →
                representable e) →
  logout cfg request body now s
  = ((logout_refresh cfg body now (logout_access cfg request now s).1).1,
     Return {| response_status := 204 |}).
Proof.
  intros Hrange. rewrite logout_run.
  by rewrite (logout_access_returns cfg request now s Hrange).
Qed.

(** The session a logout leaves: that of its two halves, or, after the
    [ValueError], the one it was given. *)
Lemma logout_session cfg request body now s :
  (logout cfg request body now s).1
  = (logout_refresh cfg body now (logout_access cfg request now s).1).1 ∨
  (logout cfg request body now s).1 = s.
Proof.
  rewrite logout_run.
  destruct (logout_access cfg request now s).2; [by left|by right].
Qed.

Lemma block_token_synced kind jti expires_at uid why now s :
  synced s → synced (block_token kind jti expires_at uid why now s).1.
Proof.
  intros Hs.
  destruct (block_token_after kind jti expires_at uid why now s)
    as (_ & _ & _ & _ & [->|Hc] & _); [done|].
  unfold synced, durable. by rewrite Hc.
Qed.

Lemma logout_access_after cfg request now s :
  let s' := (logout_access cfg request now s).1 in
  refresh_token_table (working s') = refresh_token_table (working s) ∧
  users (working s') = users (working s) ∧
  (synced s → synced s') ∧
  (∀ j, on_registry j (working s) → on_registry j (working s')) ∧
  (∀ jti e sub, presented_access cfg request now = Some (jti, e, sub) →
                representable e → on_registry jti (working s')) ∧
  ((∀ jti e sub, presented_access cfg request now = Some (jti, e, sub) →
                 on_registry jti (working s)) → s' = s).
Proof.
  rewrite logout_access_run.
  destruct (presented_access cfg request now) as [[[jti e] sub]|];
    cbv beta iota zeta; simpl fst; [|by repeat split].
  case_bool_decide as Hrange; cbv beta iota zeta; simpl fst;
    [|by repeat split; try done; intros ??? [= _ <- _] ?].
  unfold block_access_token.
  match goal with
  | |- context [block_token ?k ?j ?x ?u ?w ?n ?s0] =>
      pose proof (block_token_after k j x u w n s0)
        as (Hreg & Htab & Husers & _ & _ & Hkeep & _);
      pose proof (block_token_synced k j x u w n s0) as Hsync;
      pose proof (block_token_noop k j x u w n s0) as Hnoop
  end.
  repeat split; try done.
  - by intros ??? [= <- _ _] _.
  - intros Hall. destruct (Hnoop (Hall _ _ _ eq_refl)) as [b ->]. done.
Qed.

Lemma logout_refresh_after cfg body now s :
  let s' := (logout_refresh cfg body now s).1 in
  users (working s') = users (working s) ∧
  (synced s → synced s') ∧
  (∀ j, on_registry j (working s) → on_registry j (working s')) ∧
  (∀ token u t,
     presented_refresh body = Some token →
     verify_result cfg token now (working s) = Return (u, t) →
     jti_unique (working s) →
     spent (rt_jti t) (working s') ∧ on_registry (rt_jti t) (working s')) ∧
  ((∀ token, presented_refresh body = Some token →
             ∃ e, verify_result cfg token now (working s) = Raise e) →
   s' = s).
Proof.
  rewrite logout_refresh_run.
  destruct (presented_refresh body) as [token|]; [|by repeat split].
  destruct (verify_result cfg token now (working s)) as [[u t]|e] eqn:Hv;
    cbv beta iota zeta; simpl fst.
  - unfold block_refresh_token.
    set (s1 := {| opened_on := opened_on s; commits := commits s;
                  working := with_refresh_tokens
                    (fmap (λ r, if bool_decide (rt_id r = rt_id t)
                                then revoke t now else r)) (working s) |}).
    pose proof (block_token_after "refresh" (rt_jti t) (rt_expires_at t)
                  (Some (rt_user_id t)) (Some "User logout") now s1)
      as (Hreg & Htab & Husers & _ & _ & Hkeep & _).
    pose proof (block_token_synced "refresh" (rt_jti t) (rt_expires_at t)
                  (Some (rt_user_id t)) (Some "User logout") now s1) as Hsync.
    set (s2 := (block_token "refresh" (rt_jti t) (rt_expires_at t)
                  (Some (rt_user_id t)) (Some "User logout") now s1).1) in *.
    split; [exact Husers|]. split; [done|]. split; [exact Hkeep|]. split.
    + intros token' u' t' [= <-] Hret Hunique.
      rewrite Hv in Hret. injection Hret as <- <-.
      apply verify_result_returns in Hv
        as (payload & jti & mail & _ & _ & _ & _ & _ & _ & _ & Hin & _).
      split; [|exact Hreg].
      eapply spent_ext; [exact Htab|].
      by apply (update_spends now t (working s)).
    + intros Hall. destruct (Hall token eq_refl) as [e He]. congruence.
  - repeat split; try done; intros; simplify_eq; congruence.
Qed.

Lemma is_valid_mono t t1 t2 :
  t1 ≤ t2 → is_valid t t2 = true → is_valid t t1 = true.
Proof.
  unfold is_valid. intros Hle Hv.
  apply andb_true_iff in Hv as [Hr Hx]. apply bool_decide_eq_true in Hx.
  rewrite Hr. simpl. apply bool_decide_eq_true. lia.
Qed.

(** A token that validation rejects stays rejected as time passes. *)
Lemma verify_result_stays_rejected cfg token t1 t2 db e :
  t1 ≤ t2 →
  verify_result cfg token t1 db = Raise e →
  ∃ e', verify_result cfg token t2 db = Raise e'.
Proof.
  intros Hle. rewrite !verify_result_unfold. unfold jwt_decode.
  destruct token as [raw|k payload]; [eauto|].
  destruct (bool_decide (k = SECRET_KEY cfg)); [|eauto].
  assert (∀ x, bool_decide (x < timegm t2) = false →
               bool_decide (x < timegm t1) = false) as Hlive.
  { intros x Hx. apply bool_decide_eq_false in Hx.
    apply bool_decide_eq_false. pose proof (timegm_mono t1 t2 Hle). lia. }
  destruct (c_exp payload) as [x|];
    [destruct (bool_decide (x < timegm t2)) eqn:H2; simpl; [eauto|];
     rewrite (Hlive x H2); simpl|];
    (destruct (negb (bool_decide (c_type payload = Some "refresh")));
       [eauto|];
     destruct (c_jti payload) as [j|], (c_sub payload) as [mail|]; eauto;
     destruct (_ || _); [eauto|];
     destruct (head (filter _ (refresh_token_table db))) as [t|]; [|eauto];
     destruct (is_valid t t2) eqn:Hv2; simpl; [|eauto];
     rewrite (is_valid_mono t t1 t2 Hle Hv2); simpl;
     destruct (head (filter _ (users db))) as [u|]; [|eauto];
     destruct (negb (is_active u)); [eauto|]; intros; done).
Qed.

(** What logout does keep of its promise.  When the [exp] of the bearer
    token, if it is read at all, is one [datetime] can hold, logout answers
    204, and a second logout with the same inputs, not earlier than the
    first, changes nothing.  After the first call the unique-id of the
    bearer token is on the registry whenever the token is signed with the
    key and carries a unique-id and an [exp] (its expiry is not looked at),
    and the rows of the refresh token are flagged revoked and its unique-id
    is on the registry whenever the token passes refresh validation. *)
Lemma logout_idempotent cfg request body t1 t2 db :
  jti_unique db →
  t1 ≤ t2 →
  (∀ jti e sub, presented_access cfg request t1 = Some (jti, e, sub) →
                representable e) →
  let first := run_request (logout cfg request body t1) db in
  let second := run_request (logout cfg request body t2) first.1 in
  first.2 = Return {| response_status := 204 |} ∧
  second.2 = Return {| response_status := 204 |} ∧
  second.1 = first.1 ∧
  (∀ jti e sub, presented_access cfg request t1 = Some (jti, e, sub) →
                on_registry jti first.1) ∧
  (∀ token u t,
     presented_refresh body = Some token →
     verify_result cfg token t1 db = Return (u, t) →
     spent (rt_jti t) first.1 ∧ on_registry (rt_jti t) first.1 ∧
     ∃ msg, verify_result cfg token t2 first.1 = Raise (http401 msg)).
Proof.
  intros Hunique Hle Hrange. unfold run_request.
  rewrite !logout_run_dated
    by (try rewrite <- (presented_access_time cfg request t1 t2); done).
  cbv zeta. simpl fst. simpl snd.
  (* the first call *)
  set (s0 := open_session db).
  pose proof (logout_access_after cfg request t1 s0)
    as (Htab_a & Husers_a & Hsync_a & Hkeep_a & Hreg_a & _).
  set (sa := (logout_access cfg request t1 s0).1) in *.
  pose proof (logout_refresh_after cfg body t1 sa)
    as (Husers_r & Hsync_r & Hkeep_r & Hspent_r & Hnoop_r).
  set (sr := (logout_refresh cfg body t1 sa).1) in *.
  assert (synced sr) as Hsynced by (apply Hsync_r, Hsync_a; reflexivity).
  rewrite Hsynced.
  assert (jti_unique (working sa)) as Hunique_a
    by (unfold jti_unique; rewrite Htab_a; exact Hunique).
  assert (∀ token, verify_result cfg token t1 (working sa)
                   = verify_result cfg token t1 db) as Hsame.
  { intros token. by apply verify_result_ext. }
  (* the refresh token is rejected from now on *)
  assert (∀ token, presented_refresh body = Some token →
            ∃ e, verify_result cfg token t2 (working sr) = Raise e) as Hrej.
  { intros token Htoken.
    destruct (verify_result cfg token t1 (working sa)) as [[u t]|e] eqn:Hv.
    - destruct (Hspent_r token u t Htoken Hv Hunique_a) as [Hspent _].
      apply verify_result_returns in Hv
        as (payload & jti & mail & -> & _ & Hjti & _ & _ & _ & <- & _).
      destruct (verify_result_spent cfg payload _ t2 _ Hjti Hspent)
        as (msg & Hmsg & _). eauto.
    - assert (sr = sa) as -> by (apply Hnoop_r; intros tok Ht; simplify_eq; eauto).
      rewrite Hsame in Hv.
      destruct (verify_result_stays_rejected cfg token t1 t2 db e Hle Hv)
        as [e' He'].
      exists e'. rewrite <- He'. by apply verify_result_ext. }
  (* the second call *)
  set (s0' := open_session (working sr)).
  pose proof (logout_access_after cfg request t2 s0')
    as (_ & _ & _ & _ & _ & Hnoop_a').
  assert ((logout_access cfg request t2 s0').1 = s0') as Ha'.
  { apply Hnoop_a'. intros jti e sub Hp.
    rewrite <- (presented_access_time cfg request t1 t2) in Hp.
    apply Hkeep_r. eapply Hreg_a; eauto. }
  rewrite Ha'.
  pose proof (logout_refresh_after cfg body t2 s0')
    as (_ & _ & _ & _ & Hnoop_r').
  assert ((logout_refresh cfg body t2 s0').1 = s0') as Hr'.
  { apply Hnoop_r'. exact Hrej. }
  rewrite Hr'.
  split; [done|]. split; [done|]. split; [done|]. split.
  - intros jti e sub Hp. apply Hkeep_r. eapply Hreg_a; eauto.
  - intros token u t Htoken Hv. rewrite <- Hsame in Hv.
    destruct (Hspent_r token u t Htoken Hv Hunique_a) as [Hspent Hreg].
    split; [done|]. split; [done|].
    apply verify_result_returns in Hv
      as (payload & jti & mail & -> & _ & Hjti & _ & _ & _ & <- & _).
    destruct (verify_result_spent cfg payload _ t2 _ Hjti Hspent)
      as (msg & Hmsg & _). eauto.
Qed.

(** Tokens that no longer validate are skipped, as the handler says: an
    access token with a bad signature and an expired refresh token whose
    row was never flagged leave the database as it was. *)
Example logout_leaves_invalid_tokens :
  let gone := run_request
    (logout cfg0 (with_bearer forged_access_token)
            (Some {| body_refresh_token := expired_refresh_token |}) t0)
    db_logout in
  gone.2 = Return {| response_status := 204 |} ∧
  (revoked <$> refresh_token_table gone.1) = [false; false; false] ∧
  token_blocklist gone.1 = [].
Proof. vm_compute. repeat split; reflexivity. Qed.

Lemma alice_access_dated t jti e sub :
  presented_access cfg0 (with_bearer alice_access_token) t = Some (jti, e, sub) →
  representable e.
Proof. intros [= _ <- _]. vm_compute. split; discriminate. Qed.

Example logout_twice :
  (run_request
     (logout cfg0 (with_bearer alice_access_token) (Some rotate_request)
             (t0 + 1000000))
     (run_request
        (logout cfg0 (with_bearer alice_access_token) (Some rotate_request) t0)
        db_sessions).1).1
  = (run_request
       (logout cfg0 (with_bearer alice_access_token) (Some rotate_request) t0)
       db_sessions).1.
Proof.
  pose proof (logout_idempotent cfg0 (with_bearer alice_access_token)
                (Some rotate_request) t0 (t0 + 1000000) db_sessions
                db_sessions_unique ltac:(lia) (alice_access_dated t0)) as Hidem.
  cbv zeta in Hidem. destruct Hidem as (_ & _ & Hsame & _). exact Hsame.
Qed.

(** C7. Logout breaks its promise for two kinds of token that are still
    good.  A bearer token signed with the key whose [exp] lies beyond the
    year 9999 makes the handler raise [ValueError] where it dates the
    registry entry: there is no 204, nothing is blocked, the refresh token
    sent along is not revoked, and both tokens are accepted afterwards.
    And the live refresh token of a deactivated user is skipped like an
    invalid one: logout answers 204, the row stays unrevoked and the
    registry empty, and the token validates again as soon as the account
    is switched back on. *)
Theorem logout_fails_on_good_tokens :
  let undated := run_request
    (logout cfg0 (with_bearer far_access_token) (Some rotate_request) t0)
    db_sessions in
  let inactive := run_request
    (logout cfg0 request0 (Some {| body_refresh_token := bob_refresh_token |})
            t0)
    db_logout in
  let later := t0 + 1000000 in
  undated.2 = Raise ValueError ∧
  undated.1 = db_sessions ∧
  (run_request (get_current_user cfg0 far_access_token later) undated.1).2
    = Return alice ∧
  verify_result cfg0 alice_refresh_token later undated.1
    = Return (alice, session_row 1 1 "j-r1") ∧
  inactive.2 = Return {| response_status := 204 |} ∧
  (revoked <$> refresh_token_table inactive.1) = [false; false; false] ∧
  token_blocklist inactive.1 = [] ∧
  verify_result cfg0 bob_refresh_token later
    (with_users (fmap activate) inactive.1)
    = Return (activate bob_inactive, session_row 2 2 "j-rb").
Proof. vm_compute. repeat split; reflexivity. Qed.

(** ** Revoked is terminal *)

Lemma next_id_above (ids : list Z) (x : Z) : x ∈ ids → x < next_id ids.
Proof.
  unfold next_id. induction ids as [|y ids IH]; intros Hx.
  - by apply elem_of_nil in Hx.
  - simpl. apply elem_of_cons in Hx as [->|Hx]; [lia|].
    specialize (IH Hx). lia.
Qed.

Lemma revokes_only_tail a l g : revokes_only (a :: l) g → revokes_only l g.
Proof. intros Hg r Hr. apply Hg. by right. Qed.

Lemma revokes_only_ids l g :
  revokes_only l g → rt_id <$> (g <$> l) = rt_id <$> l.
Proof.
  induction l as [|a l IH]; intros Hg; [done|].
  rewrite !fmap_cons, IH by by eapply revokes_only_tail. f_equal.
  destruct (Hg a) as [->|[_ [now ->]]]; [left|done..].
Qed.

Lemma revokes_only_id l : revokes_only l id.
Proof. intros r _. by left. Qed.

(** What a table step keeps: the primary key, the dating of revocations,
    and every revoked row as it is (unless the step deletes it). *)
Lemma table_step_keeps l l' :
  table_step l l' →
  NoDup (rt_id <$> l) →
  (∀ r, r ∈ l → revoked r = true → is_Some (revoked_at r)) →
  NoDup (rt_id <$> l') ∧
  (∀ r, r ∈ l' → revoked r = true → is_Some (revoked_at r)) ∧
  (∀ r r', r ∈ l → revoked r = true → r' ∈ l' → rt_id r' = rt_id r → r' = r).
Proof.
  intros Hstep Hids Hdated.
  assert (∀ g r r', revokes_only l g → r ∈ l → revoked r = true →
            r' ∈ g <$> l → rt_id r' = rt_id r → r' = r) as Hkeep.
  { intros g r r' Hg Hr Hrev Hr' Hid.
    apply list_elem_of_fmap in Hr' as (r0 & -> & Hr0).
    assert (rt_id (g r0) = rt_id r0) as Hid0
      by (destruct (Hg r0 Hr0) as [->|[_ [now ->]]]; done).
    rewrite Hid0 in Hid.
    rewrite (NoDup_fmap_elem_inj rt_id l r0 r Hids Hr0 Hr Hid).
    destruct (Hg r Hr) as [->|[Hfalse _]]; [done|congruence]. }
  assert (∀ g r', revokes_only l g → r' ∈ g <$> l → revoked r' = true →
            is_Some (revoked_at r')) as Hdate.
  { intros g r' Hg Hr' Hrev.
    apply list_elem_of_fmap in Hr' as (r0 & -> & Hr0).
    destruct (Hg r0 Hr0) as [Heq|[_ [now Heq]]]; rewrite Heq in *.
    - by apply Hdated.
    - by eexists. }
  destruct Hstep as [g Hg|g new Hg Hnew Hunrev|P Hdec].
  - rewrite revokes_only_ids by done. eauto.
  - rewrite fmap_app, revokes_only_ids by done. simpl. repeat split.
    + apply NoDup_app. split; [done|]. split; [|apply NoDup_singleton].
      intros x Hx Hx'. apply list_elem_of_singleton in Hx'. subst x.
      apply next_id_above in Hx. lia.
    + intros r Hr Hrev. apply elem_of_app in Hr as [Hr|Hr]; [by eapply Hdate|].
      apply list_elem_of_singleton in Hr as ->. congruence.
    + intros r r' Hr Hrev Hr' Hid.
      apply elem_of_app in Hr' as [Hr'|Hr']; [by eapply Hkeep|].
      apply list_elem_of_singleton in Hr' as ->. exfalso.
      pose proof (next_id_above (rt_id <$> l) (rt_id r)
                    (list_elem_of_fmap_2 rt_id l r Hr)). lia.
  - repeat split.
    + apply (NoDup_fmap_2_strong rt_id).
      * intros x y Hx Hy. apply list_elem_of_filter in Hx as [_ Hx].
        apply list_elem_of_filter in Hy as [_ Hy].
        by apply (NoDup_fmap_elem_inj rt_id l).
      * apply NoDup_filter. by eapply NoDup_fmap_1.
    + intros r Hr. apply list_elem_of_filter in Hr as [_ Hr]. by apply Hdated.
    + intros r r' Hr Hrev Hr' Hid.
      apply list_elem_of_filter in Hr' as [_ Hr'].
      by apply (NoDup_fmap_elem_inj rt_id l).
Qed.

Lemma revoking_open db : revoking (refresh_token_table db) (open_session db).
Proof.
  split.
  - exists id. split; [apply revokes_only_id|]. simpl. by rewrite list_fmap_id.
  - intros d Hd. simpl in Hd. by apply elem_of_nil in Hd.
Qed.

Lemma revoking_block kind jti expires_at uid why now l s :
  revoking l s → revoking l (block_token kind jti expires_at uid why now s).1.
Proof.
  intros [(g & Hg & Htab) Hcommits]. rewrite block_token_run.
  destruct (head (filter _ _)); simpl; [by split; eauto|].
  split; [eauto|].
  intros d Hd. apply elem_of_cons in Hd as [->|Hd]; [|by apply Hcommits].
  simpl. rewrite Htab. by constructor.
Qed.

Lemma revoking_commit l s : revoking l s → revoking l (db_commit s).1.
Proof.
  intros [(g & Hg & Htab) Hcommits]. split; [by eauto|].
  intros d Hd. simpl in Hd.
  apply elem_of_cons in Hd as [->|Hd]; [|by apply Hcommits].
  rewrite Htab. by constructor.
Qed.

Lemma revoking_update now t s :
  NoDup (rt_id <$> refresh_token_table (working s)) →
  t ∈ refresh_token_table (working s) → revoked t = false →
  (∀ d, d ∈ commits s →
        table_step (refresh_token_table (working s)) (refresh_token_table d)) →
  revoking (refresh_token_table (working s))
           (db_update_refresh_token (revoke t now) s).1.
Proof.
  intros Hids Ht Hrev Hcommits. split; [|exact Hcommits].
  eexists. split; [|reflexivity].
  intros r Hr. case_bool_decide as Hid; [|by left].
  right. simpl in Hid.
  rewrite (NoDup_fmap_elem_inj rt_id _ r t Hids Hr Ht Hid). eauto.
Qed.

Lemma revoking_bulk uid now s :
  (∀ d, d ∈ commits s →
        table_step (refresh_token_table (working s)) (refresh_token_table d)) →
  revoking (refresh_token_table (working s))
           (revoke_all_user_tokens uid now s).1.
Proof.
  intros Hcommits. rewrite revoke_all_user_tokens_effect.
  assert (revokes_only (refresh_token_table (working s))
            (λ r, if bool_decide (rt_user_id r = uid ∧ revoked r = false)
                  then revoke r now else r)) as Hg.
  { intros r Hr. case_bool_decide as Hc; [|by left].
    right. destruct Hc. eauto. }
  split; [by eauto|].
  intros d Hd. simpl in Hd.
  apply elem_of_cons in Hd as [->|Hd]; [|by apply Hcommits].
  simpl. by constructor.
Qed.

Lemma revoking_create cfg user device ip now uuid4 l s :
  revoking l s →
  ∀ d, d ∈ commits (create_refresh_token cfg user device ip now uuid4 s).1 →
       table_step l (refresh_token_table d).
Proof.
  intros [(g & Hg & Htab) Hcommits] d. rewrite create_refresh_token_run.
  case_bool_decide; simpl; [by apply Hcommits|].
  intros Hd. apply elem_of_cons in Hd as [->|Hd]; [|by apply Hcommits].
  simpl. rewrite Htab. apply ts_revoke_insert; [done| |done].
  simpl. by rewrite revokes_only_ids.
Qed.

Lemma revoking_commits l s :
  revoking l s → ∀ d, d ∈ commits s → table_step l (refresh_token_table d).
Proof. by intros [_ ?]. Qed.

Lemma refresh_tokens_session cfg request body now ua ur s :
  (refresh_tokens cfg request body now ua ur s).1
  = match verify_result cfg (body_refresh_token body) now (working s) with
    | Raise _ => s
    | Return (u, t) =>
        (create_refresh_token cfg u (Some (user_agent request))
           (Some (_get_client_ip request)) now ur
           (block_refresh_token (rt_jti t) (rt_expires_at t)
              (Some (user_id u)) (Some "Token rotation") now
              (db_update_refresh_token (revoke t now) s).1).1).1
    end.
Proof.
  unfold refresh_tokens. unfold st_bind at 1.
  rewrite verify_refresh_token_run.
  destruct (verify_result _ _ _ _) as [[u t]|e]; [|reflexivity].
  unfold st_bind at 1.
  destruct (db_update_refresh_token (revoke t now) s) as [s1 [[]|e1]] eqn:Hup;
    [|done].
  unfold st_bind at 1. simpl fst. unfold block_refresh_token.
  destruct (block_token_after "refresh" (rt_jti t) (rt_expires_at t)
              (Some (user_id u)) (Some "Token rotation") now s1)
    as (_ & _ & _ & _ & _ & _ & b & Hb).
  destruct (block_token _ _ _ _ _ _ s1) as [s2 r]. simpl in Hb. subst r.
  unfold st_bind at 1. simpl fst.
  destruct (create_refresh_token _ _ _ _ _ _ s2) as [s3 [issued|e3]];
    reflexivity.
Qed.

Lemma refresh_tokens_commits cfg request body now ua ur db :
  id_unique db →
  ∀ d, d ∈ commits (refresh_tokens cfg request body now ua ur
                      (open_session db)).1 →
       table_step (refresh_token_table db) (refresh_token_table d).
Proof.
  intros Hids. rewrite refresh_tokens_session.
  change (working (open_session db)) with db.
  destruct (verify_result _ _ _ _) as [[u t]|e] eqn:Hv.
  - apply verify_result_returns in Hv
      as (payload & jti & mail & _ & _ & _ & _ & _ & _ & _ & Hin & Hrev).
    apply revoking_create, revoking_block.
    apply (revoking_update now t (open_session db)); try done.
    intros d Hd. simpl in Hd. by apply elem_of_nil in Hd.
  - intros d Hd. simpl in Hd. by apply elem_of_nil in Hd.
Qed.

Lemma logout_commits cfg request body now db :
  id_unique db →
  ∀ d, d ∈ commits (logout cfg request body now (open_session db)).1 →
       table_step (refresh_token_table db) (refresh_token_table d).
Proof.
  intros Hids.
  destruct (logout_session cfg request body now (open_session db))
    as [-> | ->]; [|intros d Hd; simpl in Hd; by apply elem_of_nil in Hd].
  assert (revoking (refresh_token_table db)
            (logout_access cfg request now (open_session db)).1) as Ha.
  { rewrite logout_access_run.
    destruct (presented_access cfg request now) as [[[jti e] sub]|];
      [case_bool_decide|];
      cbv beta iota zeta; simpl fst;
      [apply revoking_block| |]; apply revoking_open. }
  pose proof (logout_access_after cfg request now (open_session db))
    as (Htab & _).
  change (working (open_session db)) with db in Htab.
  set (sa := (logout_access cfg request now (open_session db)).1) in *.
  rewrite logout_refresh_run.
  destruct (presented_refresh body) as [token|];
    [|by apply revoking_commits].
  destruct (verify_result cfg token now (working sa)) as [[u t]|e] eqn:Hv;
    [|by apply revoking_commits].
  apply verify_result_returns in Hv
    as (payload & jti & mail & _ & _ & _ & _ & _ & _ & _ & Hin & Hrev).
  cbv zeta. simpl fst.
  apply revoking_commits.
  change (revoking (refresh_token_table db)
            (db_commit (block_refresh_token (rt_jti t) (rt_expires_at t)
               (Some (rt_user_id t)) (Some "User logout") now
               (db_update_refresh_token (revoke t now) sa).1).1).1).
  apply revoking_commit, revoking_block.
  rewrite <- Htab.
  apply revoking_update.
  - rewrite Htab. exact Hids.
  - exact Hin.
  - exact Hrev.
  - rewrite Htab. by apply revoking_commits.
Qed.

Lemma logout_all_devices_commits cfg request user now db :
  ∀ d, d ∈ commits (logout_all_devices cfg request user now
                      (open_session db)).1 →
       table_step (refresh_token_table db) (refresh_token_table d).
Proof.
  apply revoking_commits.
  pose proof (revoking_bulk (user_id user) now (open_session db)) as Hbulk.
  change (working (open_session db)) with db in Hbulk.
  unfold logout_all_devices. unfold st_bind at 1.
  rewrite revoke_all_user_tokens_effect in *. cbv zeta in *. simpl fst in Hbulk.
  set (sA := {| opened_on := _; commits := _; working := _ |}) in *.
  assert (revoking (refresh_token_table db) sA) as HA.
  { apply Hbulk. intros d Hd. simpl in Hd. by apply elem_of_nil in Hd. }
  clear Hbulk. unfold st_bind at 1, decode.
  destruct (authorization request) as [[token|raw]|]; try exact HA.
  unfold st_try.
  destruct (jwt_decode token (SECRET_KEY cfg) false now) as [e|payload];
    [exact HA|].
  unfold st_bind at 1, st_ret at 1.
  destruct (c_jti payload) as [jti|]; [|exact HA].
  destruct (c_exp payload) as [e|]; [|exact HA].
  destruct (truthy (Some jti) && negb (bool_decide (e = 0))); [|exact HA].
  unfold utcfromtimestamp, st_bind at 1.
  destruct (bool_decide (representable e)); [|exact HA].
  unfold st_ret at 1.
  unfold block_access_token, st_bind at 1.
  pose proof (revoking_block "access" jti (e * 1000000)
                (Some (user_id user)) (Some "User logout all devices") now
                _ sA HA) as HB.
  destruct (block_token_after "access" jti (e * 1000000)
              (Some (user_id user)) (Some "User logout all devices") now sA)
    as (_ & _ & _ & _ & _ & _ & b & Hb).
  destruct (block_token _ _ _ _ _ _ sA) as [sB r]. simpl in Hb. subst r.
  exact HB.
Qed.

Lemma cleanup_commits now db :
  ∀ d, d ∈ commits (cleanup_expired_tokens now (open_session db)).1 →
       table_step (refresh_token_table db) (refresh_token_table d).
Proof.
  intros d Hd. simpl in Hd.
  apply list_elem_of_singleton in Hd as ->. simpl.
  apply ts_delete.
Qed.

(** The decorator leaves the state as it found it or as the handler left
    it. *)
Lemma limiter_limit_state {S A} check request (handler : ST S A) (s : S) :
  (limiter_limit check request handler s).1 = s ∨
  (limiter_limit check request handler s).1 = (handler s).1.
Proof.
  unfold limiter_limit. case_bool_decide; [by right|].
  destruct check as [limit| |]; [by left| |by left].
  right. unfold st_bind. by destruct (handler s) as [s' [a|e]].
Qed.

(** What the decorated handler answers. *)
Lemma limiter_limit_run {S A} check request (handler : ST S A) (s : S) :
  limiter_limit check request handler s
  = if bool_decide (get_client_ip get_remote_address request = "")
    then handler s
    else
      match check with
      | LimitExceeded limit =>
          (s, Raise (HTTPExc {| status_code := 429; detail := limit;
                                headers := [] |}))
      | LimitStoreFailed => (s, Raise RedisConnectionError)
      | LimitCounted =>
          ((handler s).1,
           match (handler s).2 with
           | Return _ => Raise (PlainException response_required)
           | Raise e => Raise e
           end)
      end.
Proof.
  unfold limiter_limit. case_bool_decide; [done|].
  destruct check as [limit| |]; [done| |done].
  unfold st_bind. by destruct (handler s) as [s' [a|e]].
Qed.

Lemma limiter_limit_admitted {S A} check request (handler : ST S A) (s : S) :
  admitted check request →
  limiter_limit check request handler s
  = ((handler s).1, decorated request (handler s).2).
Proof.
  intros Hadm. rewrite limiter_limit_run. unfold decorated.
  case_bool_decide as Hkey; [by destruct (handler s)|].
  destruct Hadm as [Hempty| ->]; done.
Qed.

Lemma limiter_limit_refused {S A} check request (handler : ST S A) (s : S) :
  ¬ admitted check request →
  ∃ e, limiter_limit check request handler s = (s, Raise e).
Proof.
  intros Hnot. rewrite limiter_limit_run. unfold admitted in Hnot.
  rewrite bool_decide_false by tauto.
  destruct check as [limit| |]; [eauto|tauto|eauto].
Qed.

Lemma decorated_raise {A} request (e : Exn) :
  decorated request (@Raise A e) = Raise e.
Proof. unfold decorated. by case_bool_decide. Qed.

Lemma run_request_admitted {A} check request (handler : M A) db :
  admitted check request →
  run_request (limiter_limit check request handler) db
  = ((run_request handler db).1, decorated request (run_request handler db).2).
Proof.
  intros Hadm. unfold run_request. rewrite limiter_limit_admitted by done.
  by destruct (handler (open_session db)).
Qed.

(** Login touches the session only by issuing a refresh token. *)
Lemma login_body_session `{CryptContext} cfg request form now ua ur app
    (P : Session → Prop) :
  P (session app) →
  (∀ u ip, P (create_refresh_token cfg u (Some (user_agent request)) ip now ur
                (session app)).1) →
  P (session (login_body cfg request form now ua ur app).1).
Proof.
  intros Hsame Hissue.
  destruct app as [rl sess]. simpl session in Hsame, Hissue. unfold login_body.
  unfold st_bind at 1, in_limiter at 1. simpl limiter. simpl session.
  destruct (record_failed_login _ _ _ rl) as [rl1 [[count locked]|e]];
    [|exact Hsame].
  destruct locked.
  - unfold st_bind at 1, in_limiter at 1. simpl limiter. simpl session.
    destruct (get_lockout_ttl _ _ rl1) as [rl2 [ttl|e]]; exact Hsame.
  - unfold st_bind at 1, in_session at 1, get_user_by_email.
    st_unfold. cbv beta iota. simpl session. simpl limiter.
    destruct (head (filter _ (users (working sess)))) as [u|].
    + destruct (negb (verify_password (password form) (hashed_password u))).
      * unfold in_limiter. simpl limiter. simpl session.
        destruct (get_remaining_attempts _ _ _ rl1) as [rl2 [remaining|e]];
          exact Hsame.
      * unfold in_limiter, in_session. simpl limiter. simpl session.
        destruct (reset_failed_logins _ rl1) as [rl2 [[]|e]]; [|exact Hsame].
        simpl limiter. simpl session.
        specialize (Hissue u (Some (_get_client_ip request))).
        destruct (create_refresh_token _ _ _ _ _ _ sess) as [s' [issued|e]];
          exact Hissue.
    + unfold in_limiter. simpl limiter. simpl session.
      destruct (get_remaining_attempts _ _ _ rl1) as [rl2 [remaining|e]];
        exact Hsame.
Qed.

Lemma login_session `{CryptContext} cfg check request form now ua ur app
    (P : Session → Prop) :
  P (session app) →
  (∀ u ip, P (create_refresh_token cfg u (Some (user_agent request)) ip now ur
                (session app)).1) →
  P (session (login cfg check request form now ua ur app).1).
Proof.
  intros Hsame Hissue. unfold login.
  destruct (limiter_limit_state check request
              (login_body cfg request form now ua ur) app) as [-> | ->];
    [exact Hsame|].
  by apply login_body_session.
Qed.

(** Every snapshot an operation commits is a table step from the table the
    operation found. *)
Lemma handler_run_commits `{CryptContext} cfg db s :
  handler_run cfg db s →
  id_unique db →
  ∀ d, d ∈ commits s →
       table_step (refresh_token_table db) (refresh_token_table d).
Proof.
  intros Hrun Hids.
  destruct Hrun as [user device ip now uuid4|check request form now ua ur rl
                   |request body now ua ur|request body now
                   |request user now|uid now|token now|token now|now].
  - apply revoking_create, revoking_open.
  - apply (login_session cfg check request form now ua ur
             {| limiter := rl; session := open_session db |}
             (λ s, ∀ d, d ∈ commits s →
                table_step (refresh_token_table db) (refresh_token_table d))).
    + intros d Hd. simpl in Hd. by apply elem_of_nil in Hd.
    + intros u ip. apply revoking_create, revoking_open.
  - by apply refresh_tokens_commits.
  - by apply logout_commits.
  - apply logout_all_devices_commits.
  - apply revoking_commits.
    apply (revoking_bulk uid now (open_session db)).
    intros d Hd. simpl in Hd. by apply elem_of_nil in Hd.
  - rewrite verify_refresh_token_run. simpl.
    intros d Hd. by apply elem_of_nil in Hd.
  - rewrite get_current_user_by_checks.
    destruct (validate_in_order _ _ _ _ _); simpl;
      intros d Hd; by apply elem_of_nil in Hd.
  - apply cleanup_commits.
Qed.

Lemma step_keeps `{CryptContext} cfg db db' :
  step cfg db db' →
  id_unique db → revocation_dated db →
  id_unique db' ∧ revocation_dated db' ∧
  (∀ r r', r ∈ refresh_token_table db → revoked r = true →
           r' ∈ refresh_token_table db' → rt_id r' = rt_id r → r' = r).
Proof.
  intros Hstep Hids Hdated. destruct Hstep as [db s d Hrun Hd|db f].
  - apply (table_step_keeps (refresh_token_table db)); [|done..].
    by eapply handler_run_commits.
  - simpl. repeat split; [done..|].
    intros r r' Hr _ Hr' Hid.
    by apply (NoDup_fmap_elem_inj rt_id (refresh_token_table db)).
Qed.

Lemma reachable_keys `{CryptContext} cfg db :
  reachable cfg db → id_unique db ∧ revocation_dated db.
Proof.
  induction 1 as [|db db' _ [Hids Hdated] Hstep].
  - split; [apply NoDup_nil_2|]. intros r Hr. by apply elem_of_nil in Hr.
  - destruct (step_keeps cfg db db' Hstep Hids Hdated) as (? & ? & _). done.
Qed.

(** C9. In every state the subsystem can reach, a revoked row has its
    [revoked_at] set; and no step from such a state changes a revoked row:
    after the step the row is either unchanged or deleted (by the
    cleanup), so [revoked] never goes back to false and a row that a step
    revokes gets its [revoked_at] in the same step. *)
Theorem revoked_is_terminal `{CryptContext} cfg db :
  reachable cfg db →
  revocation_dated db ∧
  ∀ db', step cfg db db' →
    revocation_dated db' ∧
    (∀ r r', r ∈ refresh_token_table db → revoked r = true →
             r' ∈ refresh_token_table db' → rt_id r' = rt_id r →
             r' = r ∧ revoked r' = true) ∧
    (∀ r r', r ∈ refresh_token_table db → revoked r = false →
             r' ∈ refresh_token_table db' → rt_id r' = rt_id r →
             revoked r' = true → is_Some (revoked_at r')).
Proof.
  intros Hreach. destruct (reachable_keys cfg db Hreach) as [Hids Hdated].
  split; [done|]. intros db' Hstep.
  destruct (step_keeps cfg db db' Hstep Hids Hdated) as (_ & Hdated' & Hkeep).
  split; [done|]. split.
  - intros r r' Hr Hrev Hr' Hid.
    rewrite (Hkeep r r' Hr Hrev Hr' Hid). done.
  - intros r r' _ _ Hr' _ Hrev'. by apply Hdated'.
Qed.

Lemma issued_session_reachable :
  @reachable test_crypt cfg0 (durable issued_session).
Proof.
  apply (@reachable_step test_crypt cfg0 db_users).
  - apply (@reachable_step test_crypt cfg0 empty_db);
      [apply reachable_empty|].
    apply (@step_users test_crypt cfg0 empty_db (λ _, [alice; bob_inactive])).
  - apply (@step_commit test_crypt cfg0 db_users issued_session).
    + apply run_issue.
    + simpl. apply list_elem_of_here.
Defined.

(** An operation that has committed leaves its last commit behind. *)
Lemma durable_committed s : commits s ≠ [] → durable s ∈ commits s.
Proof.
  unfold durable. destruct (commits s) as [|d l]; [done|].
  intros _. apply list_elem_of_here.
Qed.

Lemma logged_out_reachable :
  @reachable test_crypt cfg0 (durable logged_out_session).
Proof.
  apply (@reachable_step test_crypt cfg0 (durable issued_twice_session)).
  - apply (@reachable_step test_crypt cfg0 (durable issued_session));
      [apply issued_session_reachable|].
    apply (@step_commit test_crypt cfg0 _ issued_twice_session).
    + apply run_issue.
    + apply durable_committed. vm_compute. discriminate.
  - apply (@step_commit test_crypt cfg0 _ logged_out_session).
    + apply run_logout.
    + apply durable_committed. vm_compute. discriminate.
Defined.

Lemma logged_out_all_step :
  @step test_crypt cfg0 (durable logged_out_session)
        (durable logged_out_all_session).
Proof.
  apply (@step_commit test_crypt cfg0 _ logged_out_all_session).
  - apply run_logout_all.
  - apply durable_committed. vm_compute. discriminate.
Defined.

Lemma logged_out_all_reachable :
  @reachable test_crypt cfg0 (durable logged_out_all_session).
Proof.
  exact (@reachable_step test_crypt cfg0 _ _ logged_out_reachable
           logged_out_all_step).
Defined.

(** After alice was issued two refresh tokens and has logged out with the
    first, the first row is revoked and dated.  The logout-all that
    follows leaves that row as it is, with the date of the logout, and
    revokes and dates the second. *)
Lemma revoked_is_terminal_witness :
  let db := durable logged_out_session in
  let db' := durable logged_out_all_session in
  (revoked <$> refresh_token_table db) = [true; false] ∧
  (revoked_at <$> refresh_token_table db') =
    [Some (t0 + 1000000); Some (t0 + 2000000)] ∧
  revocation_dated db ∧
  revocation_dated db' ∧
  (∀ r r', r ∈ refresh_token_table db → revoked r = true →
           r' ∈ refresh_token_table db' → rt_id r' = rt_id r →
           r' = r ∧ revoked r' = true) ∧
  (∀ r r', r ∈ refresh_token_table db → revoked r = false →
           r' ∈ refresh_token_table db' → rt_id r' = rt_id r →
           revoked r' = true → is_Some (revoked_at r')).
Proof.
  intros db db'.
  destruct (@revoked_is_terminal test_crypt cfg0 db logged_out_reachable)
    as [Hdated Hstep].
  destruct (Hstep db' logged_out_all_step) as (Hdated' & Hkept & Hnew).
  split; [vm_compute; reflexivity|].
  split; [vm_compute; reflexivity|].
  exact (conj Hdated (conj Hdated' (conj Hkept Hnew))).
Defined.

(** ** Sanity checks of the embedding *)

Example uuid_str_zero : uuid_str 0 = "00000000-0000-0000-0000-000000000000".
Proof. vm_compute. reflexivity. Qed.

Example uuid_str_digits :
  uuid_str 0x123e4567e89b12d3a456426614174000
  = "123e4567-e89b-12d3-a456-426614174000".
Proof. vm_compute. reflexivity. Qed.

Example client_ip_forwarded :
  _get_client_ip
    {| req_headers := <["x-forwarded-for" := " 10.0.0.1 , 2.2.2.2"]>
                        (<["x-real-ip" := "3.3.3.3"]> ∅);
       authorization := None; client_host := Some "4.4.4.4" |}
  = "10.0.0.1".
Proof. vm_compute. reflexivity. Qed.

Example client_ip_fallback :
  _get_client_ip
    {| req_headers := ∅; authorization := None; client_host := None |}
  = "unknown".
Proof. vm_compute. reflexivity. Qed.

(** Cleanup drops the stale registry entry and keeps unrevoked rows, however
    old. *)
Example cleanup_keeps_unrevoked :
  let db := (run_request (cleanup_expired_tokens (t0 + timedelta_days 60))
               (with_token_blocklist (λ _, [stale_entry]) db_logout)).1 in
  token_blocklist db = [] ∧ length (refresh_token_table db) = 3%nat.
Proof. vm_compute. split; reflexivity. Qed.

(** An issued access token is accepted until it is blocklisted by logout. *)
Example issued_token_then_logout :
  let token := create_access_token cfg0 (sub_only "a@b.com") None t0 9 in
  (get_current_user cfg0 token (t0 + 1000000) (open_session db_users)).2
    = Return alice ∧
  let db := (run_request (logout cfg0 (with_bearer token) None
                                 (t0 + 2000000)) db_users).1 in
  (get_current_user cfg0 token (t0 + 3000000) (open_session db)).2
    = Raise (HTTPExc (rejection_response Revoked)).
Proof. vm_compute. split; reflexivity. Qed.

(* ===================================================================== *)
(** * Further properties of the code *)

#[local] Arguments uuid_str : simpl never.

(** ** Issue and validate *)

Lemma live_exp_decodes cfg payload now :
  (∀ e, c_exp payload = Some e → timegm now ≤ e) →
  jwt_decode (JWS (SECRET_KEY cfg) payload) (SECRET_KEY cfg) true now
  = inr payload.
Proof.
  intros Hlive. unfold jwt_decode. rewrite bool_decide_true by done.
  destruct (c_exp payload) as [e|]; [|done].
  specialize (Hlive e eq_refl). simpl.
  by rewrite bool_decide_false by lia.
Qed.

Lemma past_exp_expires cfg payload now e :
  c_exp payload = Some e → e < timegm now →
  jwt_decode (JWS (SECRET_KEY cfg) payload) (SECRET_KEY cfg) true now
  = inl ExpiredSignatureError.
Proof.
  intros He Hlt. unfold jwt_decode. rewrite bool_decide_true by done.
  rewrite He. simpl. by rewrite bool_decide_true.
Qed.

(** The answer of the registry, in terms of its entries. *)
Lemma check_token_blocklist_run jti now s :
  check_token_blocklist jti now s
  = (s, Return (bool_decide
       (Exists (λ b, bl_jti b = jti ∧ now < bl_expires_at b)
               (token_blocklist (working s))))).
Proof.
  unfold check_token_blocklist. st_unfold.
  by rewrite blocked_query_Exists.
Qed.

(** A well-formed, live access token of an active user: the outcome is
    decided by the registry alone. *)
Lemma get_current_user_live cfg payload now s mail u :
  c_type payload = Some "access" →
  (∀ e, c_exp payload = Some e → timegm now ≤ e) →
  c_sub payload = Some mail →
  head (filter (λ x, email x = mail) (users (working s))) = Some u →
  is_active u = true →
  get_current_user cfg (JWS (SECRET_KEY cfg) payload) now s
  = (s, if truthy (c_jti payload) &&
           bool_decide
             (Exists (λ b, bl_jti b = default "" (c_jti payload) ∧
                           now < bl_expires_at b)
                     (token_blocklist (working s)))
        then Raise (HTTPExc (rejection_response Revoked))
        else Return u).
Proof.
  intros Htype Hlive Hsub Huser Hactive.
  unfold get_current_user, get_current_user_checks.
  rewrite live_exp_decodes by done. rewrite Htype, Hsub. simpl negb.
  cbv iota. unfold st_bind at 1. unfold st_bind at 1.
  destruct (truthy (c_jti payload)); simpl andb.
  - rewrite check_token_blocklist_run.
    destruct (bool_decide (Exists _ _)); [reflexivity|].
    unfold get_user_by_email. st_unfold. by rewrite Huser, Hactive.
  - unfold get_user_by_email. st_unfold. by rewrite Huser, Hactive.
Qed.

(** X1. An access token minted by [create_access_token] for the email of an
    active user is accepted by [get_current_user] at every instant up to
    and including the second of its [exp], unless its unique-id has a live
    registry entry; from the next second on it is rejected with the common
    401.  Its [exp] is the time of issue plus the lifetime asked for, or
    plus the configured minutes when none is asked for or the one asked
    for is zero. *)
Theorem issued_access_token_lifetime cfg mail u delta now uuid4 now' s :
  head (filter (λ x, email x = mail) (users (working s))) = Some u →
  is_active u = true →
  (∀ b, b ∈ token_blocklist (working s) → bl_jti b = uuid_str uuid4 →
        bl_expires_at b ≤ now') →
  let token := create_access_token cfg (sub_only mail) delta now uuid4 in
  let expire :=
    now + timedelta_or delta
            (timedelta_minutes (ACCESS_TOKEN_EXPIRE_MINUTES cfg)) in
  (timegm now' ≤ timegm expire →
   get_current_user cfg token now' s = (s, Return u)) ∧
  (timegm expire < timegm now' →
   get_current_user cfg token now' s
   = (s, Raise (HTTPExc credentials_exception))).
Proof.
  intros Huser Hactive Hfree token expire. split; intros Htime.
  - unfold token, create_access_token, jwt_encode.
    rewrite (get_current_user_live cfg _ now' s mail u); try done.
    + rewrite (bool_decide_false (Exists _ _)); [by rewrite andb_false_r|].
      rewrite Exists_exists. intros (b & Hb & Hj & Hexp).
      specialize (Hfree b Hb Hj). lia.
    + simpl. intros e [= <-]. exact Htime.
  - unfold token, create_access_token, jwt_encode.
    unfold get_current_user, get_current_user_checks.
    rewrite (past_exp_expires cfg _ now' (timegm expire)); [reflexivity..|done].
Qed.

(** A token asked for with a lifetime of zero lives the configured fifteen
    minutes: it is accepted 899 seconds after its issue and rejected after
    901. *)
Lemma issued_access_token_lifetime_witness :
  let token := create_access_token cfg0 (sub_only "a@b.com") (Some 0) t0 9 in
  get_current_user cfg0 token (t0 + 899000000) (open_session db_blocked)
    = (open_session db_blocked, Return alice) ∧
  get_current_user cfg0 token (t0 + 901000000) (open_session db_blocked)
    = (open_session db_blocked, Raise (HTTPExc credentials_exception)).
Proof.
  intros token.
  assert (∀ now' b, b ∈ token_blocklist (working (open_session db_blocked)) →
            bl_jti b = uuid_str 9 → bl_expires_at b ≤ now') as Hfree.
  { simpl. intros now' b Hb Hj. apply list_elem_of_singleton in Hb. subst b.
    vm_compute in Hj. discriminate Hj. }
  split.
  - apply (issued_access_token_lifetime cfg0 "a@b.com" alice (Some 0) t0 9%N
             (t0 + 899000000) (open_session db_blocked) eq_refl eq_refl
             (Hfree _)).
    vm_compute. discriminate.
  - apply (issued_access_token_lifetime cfg0 "a@b.com" alice (Some 0) t0 9%N
             (t0 + 901000000) (open_session db_blocked) eq_refl eq_refl
             (Hfree _)).
    vm_compute. reflexivity.
Defined.

Lemma filter_none_of {A} (P : A → Prop) `{∀ x, Decision (P x)} (l : list A) :
  (∀ x, x ∈ l → ¬ P x) → filter P l = [].
Proof.
  intros Hnone. apply head_None. by apply head_filter_None.
Qed.

(** What [create_refresh_token] leaves behind, and what validation makes of
    the token it returns. *)
Lemma created_token_verifies cfg user device ip now uuid4 s s'
    token row u now' :
  create_refresh_token cfg user device ip now uuid4 s
    = (s', Return (token, row)) →
  head (filter (λ x, email x = email user) (users (working s))) = Some u →
  is_active u = true →
  email user ≠ "" →
  now' < now + timedelta_days (REFRESH_TOKEN_EXPIRE_DAYS cfg) →
  verify_result cfg token now' (working s') = Return (u, row) ∧
  durable s' = working s' ∧
  row ∈ refresh_token_table (durable s') ∧
  rt_user_id row = user_id user ∧ revoked row = false ∧
  rt_expires_at row = now + timedelta_days (REFRESH_TOKEN_EXPIRE_DAYS cfg).
Proof.
  intros Hrun Huser Hactive Hmail Hlive.
  rewrite create_refresh_token_run in Hrun.
  case_bool_decide as Hfresh; [done|].
  cbv zeta in Hrun. injection Hrun as <- <- <-.
  split; [|repeat split; try done;
           simpl; apply elem_of_app; right; apply list_elem_of_here].
  rewrite verify_result_unfold. unfold jwt_encode.
  rewrite live_exp_decodes.
  2:{ simpl. intros e [= <-]. apply timegm_mono. lia. }
  simpl c_type. rewrite bool_decide_true by done. simpl negb. cbv iota.
  simpl c_jti. simpl c_sub. unfold truthy.
  rewrite (bool_decide_false (uuid_str uuid4 = "")) by apply uuid_str_nonempty.
  rewrite (bool_decide_false (email user = "")) by done.
  simpl orb. cbv iota.
  simpl refresh_token_table. rewrite filter_app.
  rewrite (filter_none_of _ (refresh_token_table (working s))).
  2:{ intros r Hr [Hj _]. apply Hfresh. rewrite <- Hj.
      by apply list_elem_of_fmap_2. }
  rewrite filter_cons, decide_True by (split; reflexivity).
  rewrite filter_nil, app_nil_l. cbn [head].
  unfold is_valid. cbn [revoked rt_expires_at negb andb].
  rewrite bool_decide_true by lia.
  cbn [negb andb users working with_refresh_tokens].
  by rewrite Huser, Hactive.
Qed.

(** X2. A refresh token that [create_refresh_token] has just issued passes
    [verify_refresh_token] at every instant before the row's expiry, and
    validation hands back that very row, provided the email resolves to an
    active user. *)
Theorem issued_refresh_token_validates cfg user device ip now uuid4 s s'
    token row u now' :
  create_refresh_token cfg user device ip now uuid4 s
    = (s', Return (token, row)) →
  head (filter (λ x, email x = email user) (users (working s))) = Some u →
  is_active u = true →
  email user ≠ "" →
  now' < now + timedelta_days (REFRESH_TOKEN_EXPIRE_DAYS cfg) →
  verify_result cfg token now' (working s') = Return (u, row) ∧
  durable s' = working s' ∧
  row ∈ refresh_token_table (durable s') ∧
  rt_user_id row = user_id user ∧ revoked row = false ∧
  rt_expires_at row = now + timedelta_days (REFRESH_TOKEN_EXPIRE_DAYS cfg).
Proof.
  apply created_token_verifies.
Qed.

Lemma issued_refresh_token_validates_witness :
  ∃ token row,
    (create_refresh_token cfg0 alice (Some "browser") (Some "1.2.3.4") t0 5
       (open_session db_users)).2 = Return (token, row) ∧
    verify_result cfg0 token (t0 + 1000000) (working issued_session)
      = Return (alice, row).
Proof.
  destruct (create_refresh_token cfg0 alice (Some "browser") (Some "1.2.3.4")
              t0 5 (open_session db_users)) as [s' [[token row]|e]] eqn:Hrun;
    [|vm_compute in Hrun; discriminate Hrun].
  exists token, row. split; [reflexivity|].
  assert (issued_session = s') as -> by (unfold issued_session; by rewrite Hrun).
  apply (issued_refresh_token_validates cfg0 alice (Some "browser")
           (Some "1.2.3.4") t0 5%N (open_session db_users) s' token row alice
           (t0 + 1000000) Hrun).
  - reflexivity.
  - reflexivity.
  - discriminate.
  - vm_compute. reflexivity.
Defined.

(** X3. The two kinds of token do not mix: a refresh token issued by
    [create_refresh_token] is rejected by [get_current_user] with the common
    401 at every instant and on every database, and an access token minted
    by [create_access_token] is rejected by [verify_refresh_token] with a
    401, as of the wrong type while it is live. *)
Theorem token_kinds_do_not_mix cfg :
  (∀ user device ip now uuid4 s s' token row now' s'',
     create_refresh_token cfg user device ip now uuid4 s
       = (s', Return (token, row)) →
     get_current_user cfg token now' s''
     = (s'', Raise (HTTPExc credentials_exception))) ∧
  (∀ data delta now uuid4 now' db,
     ∃ msg,
       verify_result cfg (create_access_token cfg data delta now uuid4) now' db
         = Raise (http401 msg) ∧
       (msg = "Invalid token type" ∨ msg = "Could not validate token") ∧
       (timegm now'
          ≤ timegm (now + timedelta_or delta
                            (timedelta_minutes
                               (ACCESS_TOKEN_EXPIRE_MINUTES cfg))) →
        msg = "Invalid token type")).
Proof.
  split.
  - intros user device ip now uuid4 s s' token row now' s'' Hrun.
    rewrite create_refresh_token_run in Hrun.
    case_bool_decide; [done|]. cbv zeta in Hrun. injection Hrun as _ <- _.
    unfold get_current_user, get_current_user_checks, jwt_encode, jwt_decode.
    rewrite bool_decide_true by done. cbn [c_exp andb].
    destruct (bool_decide (_ < timegm now')); reflexivity.
  - intros data delta now uuid4 now' db.
    rewrite verify_result_unfold.
    unfold create_access_token, jwt_encode, jwt_decode.
    rewrite bool_decide_true by done. cbn [c_exp access_claims andb].
    case_bool_decide as Hexp.
    + eexists. split; [reflexivity|]. split; [by right|]. lia.
    + eexists. split; [reflexivity|]. split; [by left|]. done.
Qed.

Lemma token_kinds_do_not_mix_witness :
  ∃ token row,
    (create_refresh_token cfg0 alice (Some "browser") (Some "1.2.3.4") t0 5
       (open_session db_users)).2 = Return (token, row) ∧
    get_current_user cfg0 token (t0 + 1000000) issued_session
    = (issued_session, Raise (HTTPExc credentials_exception)).
Proof.
  destruct (create_refresh_token cfg0 alice (Some "browser") (Some "1.2.3.4")
              t0 5 (open_session db_users)) as [s' [[token row]|e]] eqn:Hrun;
    [|vm_compute in Hrun; discriminate Hrun].
  exists token, row. split; [reflexivity|].
  exact (proj1 (token_kinds_do_not_mix cfg0) alice (Some "browser")
           (Some "1.2.3.4") t0 5%N (open_session db_users) s' token row
           (t0 + 1000000) issued_session Hrun).
Defined.

(** ** What logout does to the validators *)

Lemma block_token_filter kind jti expires_at uid why now s j :
  on_registry j (working s) ∨ jti ≠ j →
  filter (λ b, bl_jti b = j)
         (token_blocklist (working (block_token kind jti expires_at uid why
                                      now s).1))
  = filter (λ b, bl_jti b = j) (token_blocklist (working s)).
Proof.
  intros Hcase. rewrite block_token_run.
  destruct (head (filter _ _)) as [existing|] eqn:Hfound; [reflexivity|].
  cbn [fst working with_token_blocklist token_blocklist].
  rewrite filter_app, filter_cons, filter_nil. cbn [bl_jti].
  destruct (decide (jti = j)) as [->|Hne]; [|by rewrite app_nil_r].
  exfalso. destruct Hcase as [(b & Hb & Hj)|Hne]; [|done].
  by apply (proj1 (head_filter_None _ _) Hfound b).
Qed.

Lemma block_token_fresh_entry kind jti expires_at uid why now s :
  ¬ on_registry jti (working s) →
  ∃ entry,
    filter (λ b, bl_jti b = jti)
           (token_blocklist (working (block_token kind jti expires_at uid why
                                        now s).1)) = [entry] ∧
    bl_expires_at entry = expires_at ∧ token_type entry = kind.
Proof.
  intros Hnew. rewrite block_token_run.
  destruct (head (filter _ _)) as [existing|] eqn:Hfound.
  - exfalso. apply Hnew. apply head_filter_Some in Hfound as [? ?].
    by exists existing.
  - cbn [fst working with_token_blocklist token_blocklist].
    rewrite filter_app, filter_cons, filter_nil. cbn [bl_jti].
    rewrite decide_True by done.
    rewrite (filter_none_of _ (token_blocklist (working s))).
    + eexists. split; [reflexivity|]. done.
    + intros b Hb Hj. apply Hnew. by exists b.
Qed.

Lemma Exists_on_jti (j : string) (Q : TokenBlocklist → Prop)
    (l : list TokenBlocklist) :
  Exists (λ b, bl_jti b = j ∧ Q b) l
  ↔ Exists Q (filter (λ b, bl_jti b = j) l).
Proof.
  rewrite !Exists_exists. split.
  - intros (b & Hb & Hj & HQ). exists b. split; [|done].
    by apply list_elem_of_filter.
  - intros (b & Hb & HQ). apply list_elem_of_filter in Hb as [Hj Hb]. eauto.
Qed.

(** The outcome of the access-token validator depends on the database
    through the users and through the registry entries of the token's own
    unique-id. *)
Lemma get_current_user_ext cfg token now db db' :
  users db' = users db →
  (∀ j, claims_of token ≫= c_jti = Some j →
        filter (λ b, bl_jti b = j) (token_blocklist db')
        = filter (λ b, bl_jti b = j) (token_blocklist db)) →
  (get_current_user cfg token now (open_session db')).2
  = (get_current_user cfg token now (open_session db)).2.
Proof.
  intros Hu Hreg. rewrite !get_current_user_by_checks.
  change (working (open_session db')) with db'.
  change (working (open_session db)) with db.
  assert (validate_in_order code_order cfg db' now token
          = validate_in_order code_order cfg db now token) as ->;
    [|by destruct (validate_in_order _ _ _ _ _)].
  assert (subject_of db' token = subject_of db token) as Hsubject
    by (unfold subject_of; by rewrite Hu).
  unfold validate_in_order, first_failing. rewrite Hsubject.
  assert (∀ r, check_fails cfg db' now token r = check_fails cfg db now token r)
    as Hchecks.
  { intros r. destruct r; try reflexivity; simpl; rewrite ?Hsubject; try done.
    destruct (claims_of token ≫= c_jti) as [j|] eqn:Hj; [|done].
    f_equal. apply bool_decide_ext.
    rewrite !Exists_on_jti. by rewrite (Hreg j eq_refl). }
  rewrite (list_filter_iff _ (λ r, check_fails cfg db now token r = true));
    [done|].
  intros r. by rewrite Hchecks.
Qed.

Lemma logout_db cfg request body now db :
  (run_request (logout cfg request body now) db).1
  = match (logout_access cfg request now (open_session db)).2 with
    | Return _ =>
        working (logout_refresh cfg body now
                   (logout_access cfg request now (open_session db)).1).1
    | Raise _ => db
    end.
Proof.
  unfold run_request. rewrite logout_run.
  destruct (logout_access cfg request now (open_session db)).2;
    [|reflexivity].
  simpl fst.
  pose proof (logout_access_after cfg request now (open_session db))
    as (_ & _ & Hsync_a & _).
  pose proof (logout_refresh_after cfg body now
                (logout_access cfg request now (open_session db)).1)
    as (_ & Hsync_r & _).
  apply Hsync_r, Hsync_a. reflexivity.
Qed.

Lemma logout_refresh_filter cfg body now s j :
  on_registry j (working s) ∨
  (∀ R u t, presented_refresh body = Some R →
            verify_result cfg R now (working s) = Return (u, t) →
            rt_jti t ≠ j) →
  filter (λ b, bl_jti b = j)
         (token_blocklist (working (logout_refresh cfg body now s).1))
  = filter (λ b, bl_jti b = j) (token_blocklist (working s)).
Proof.
  intros Hcase. rewrite logout_refresh_run.
  destruct (presented_refresh body) as [R|]; [|reflexivity].
  destruct (verify_result cfg R now (working s)) as [[u t]|e] eqn:Hv;
    [|reflexivity].
  cbv zeta. unfold block_refresh_token, db_commit. cbn [fst working].
  rewrite block_token_filter; [reflexivity|].
  destruct Hcase as [Hreg|Hother]; [left; exact Hreg|right; by eapply Hother].
Qed.

Lemma presented_access_of cfg request token payload j e :
  authorization request = Some (Bearer token) →
  token = JWS (SECRET_KEY cfg) payload →
  c_jti payload = Some j → j ≠ "" → c_exp payload = Some e → e ≠ 0 →
  ∀ now, presented_access cfg request now = Some (j, e, c_sub payload).
Proof.
  intros Hauth Htok Hj Hne He He0 now. unfold presented_access, jwt_decode.
  rewrite Hauth, Htok.
  rewrite bool_decide_true by done. rewrite He. cbn [andb].
  rewrite Hj, He. unfold truthy.
  by rewrite (bool_decide_false (j = "")), (bool_decide_false (e = 0)).
Qed.

(** X4. Logging out with a well-formed access token of an active user whose
    unique-id was not yet on the registry.  When the token's [exp] is an
    instant [datetime] can hold, logout answers 204 and [get_current_user]
    rejects that token as revoked at every instant before the [exp]; in the
    second of the [exp] itself the registry entry has lapsed while
    [jwt.decode] still accepts the token, and the token is accepted again;
    after that second it is rejected as expired.  When the [exp] is beyond
    what [datetime] can hold, logout raises [ValueError] instead, writes
    nothing, and the token is accepted as before as long as it lives. *)
Theorem logout_blocks_until_exp cfg request body t db token payload j e mail u :
  authorization request = Some (Bearer token) →
  token = JWS (SECRET_KEY cfg) payload →
  c_type payload = Some "access" →
  c_jti payload = Some j → j ≠ "" →
  c_exp payload = Some e → e ≠ 0 →
  c_sub payload = Some mail →
  head (filter (λ x, email x = mail) (users db)) = Some u →
  is_active u = true →
  ¬ on_registry j db →
  let out := run_request (logout cfg request body t) db in
  let db1 := out.1 in
  (representable e →
   out.2 = Return {| response_status := 204 |} ∧
   ∀ now',
     (now' < e * 1000000 →
      get_current_user cfg token now' (open_session db1)
      = (open_session db1, Raise (HTTPExc (rejection_response Revoked)))) ∧
     (e * 1000000 ≤ now' → timegm now' ≤ e →
      get_current_user cfg token now' (open_session db1)
      = (open_session db1, Return u)) ∧
     (e < timegm now' →
      get_current_user cfg token now' (open_session db1)
      = (open_session db1, Raise (HTTPExc credentials_exception)))) ∧
  (¬ representable e →
   out = (db, Raise ValueError) ∧
   ∀ now', timegm now' ≤ e →
     get_current_user cfg token now' (open_session db)
     = (open_session db, Return u)).
Proof.
  intros Hauth Htok Htype Hj Hne He He0 Hsub Huser Hactive Hnew out db1.
  pose proof (presented_access_of cfg request token payload j e
                Hauth Htok Hj Hne He He0 t) as Hp.
  split.
  - intros Hrange.
    assert ((logout_access cfg request t (open_session db)).2 = Return ())
      as Hret.
    { apply logout_access_returns. intros jti e' sub Heq.
      rewrite Hp in Heq. by injection Heq as _ <- _. }
    split.
    { unfold out, run_request. by rewrite logout_run, Hret. }
    intros now'.
    (* the registry after the call *)
    assert (users db1 = users db ∧
            ∃ entry, filter (λ b, bl_jti b = j) (token_blocklist db1) = [entry] ∧
                     bl_expires_at entry = e * 1000000) as [Hu Hentry].
    { unfold db1, out. rewrite logout_db, Hret.
      pose proof (logout_access_after cfg request t (open_session db))
        as (_ & Hu_a & _ & _ & Hreg_a & _).
      pose proof (logout_refresh_after cfg body t
                    (logout_access cfg request t (open_session db)).1)
        as (Hu_r & _).
      split; [by rewrite Hu_r, Hu_a|].
      rewrite logout_refresh_filter by (left; by eapply Hreg_a).
      rewrite logout_access_run, Hp. rewrite bool_decide_true by done.
      cbv zeta. unfold block_access_token.
      destruct (block_token_fresh_entry "access" j (e * 1000000)
        (if truthy (c_sub payload)
         then user_id <$> head (filter (λ u0, email u0
                                              = default "" (c_sub payload))
                                       (users (working (open_session db))))
         else None) (Some "User logout") t (open_session db) Hnew)
        as (entry & Hfilter & Hexp & _).
      exists entry. split; [exact Hfilter|exact Hexp]. }
    destruct Hentry as (entry & Hfilter & Hexp).
    assert (∀ live : ∀ x, c_exp payload = Some x → timegm now' ≤ x,
      get_current_user cfg token now' (open_session db1)
      = (open_session db1,
         if bool_decide (now' < e * 1000000)
         then Raise (HTTPExc (rejection_response Revoked)) else Return u))
      as Hlive.
    { intros Hlive. subst token.
      rewrite (get_current_user_live cfg payload now' _ mail u); try done.
      2:{ change (working (open_session db1)) with db1. by rewrite Hu. }
      change (working (open_session db1)) with db1.
      rewrite Hj. unfold truthy. rewrite (bool_decide_false (j = "")) by done.
      cbn [negb andb default]. f_equal.
      rewrite (bool_decide_ext _ (now' < e * 1000000)); [done|].
      rewrite Exists_on_jti. unfold id.
      rewrite Hfilter, Exists_cons, Exists_nil, Hexp. tauto. }
    split; [|split].
    + intros Hbefore. rewrite Hlive.
      * by rewrite bool_decide_true.
      * intros x Hx. rewrite He in Hx. injection Hx as <-.
        unfold timegm.
        apply Z.lt_le_incl, Z.div_lt_upper_bound; lia.
    + intros Hafter Hsecond. rewrite Hlive.
      * by rewrite bool_decide_false by lia.
      * intros x Hx. rewrite He in Hx. by injection Hx as <-.
    + intros Hpast. subst token.
      unfold get_current_user, get_current_user_checks.
      by rewrite (past_exp_expires cfg payload now' e).
  - intros Hout. split.
    + unfold out, run_request. rewrite logout_run, logout_access_run, Hp.
      by rewrite bool_decide_false.
    + intros now' Hlive. subst token.
      rewrite (get_current_user_live cfg payload now' _ mail u); try done.
      2:{ intros x Hx. rewrite He in Hx. by injection Hx as <-. }
      change (working (open_session db)) with db.
      rewrite Hj. cbn [default].
      rewrite (bool_decide_false (Exists _ _)); [by rewrite andb_false_r|].
      intros Hex. apply Exists_exists in Hex as (b & Hb & Hjb & _).
      apply Hnew. by exists b.
Qed.

(** Alice logs out with an access token that has ten minutes to live: it is
    rejected a second later and accepted again in the second of its [exp].
    With a token whose [exp] is the first second of the year 10000 the
    logout fails and the token stays good. *)
Lemma logout_blocks_until_exp_witness :
  let out := run_request (logout cfg0 (with_bearer alice_access_token) None t0)
                         db_sessions in
  let undated :=
    run_request (logout cfg0 (with_bearer far_access_token) None t0)
                db_sessions in
  out.2 = Return {| response_status := 204 |} ∧
  get_current_user cfg0 alice_access_token (t0 + 1000000) (open_session out.1)
    = (open_session out.1, Raise (HTTPExc (rejection_response Revoked))) ∧
  get_current_user cfg0 alice_access_token (t0 + 600500000)
                   (open_session out.1)
    = (open_session out.1, Return alice) ∧
  undated = (db_sessions, Raise ValueError) ∧
  get_current_user cfg0 far_access_token (t0 + 1000000)
                   (open_session db_sessions)
    = (open_session db_sessions, Return alice).
Proof.
  assert (¬ on_registry "j-a1" db_sessions) as Hnew.
  { intros (b & Hb & _). simpl in Hb. by apply elem_of_nil in Hb. }
  pose proof (logout_blocks_until_exp cfg0 (with_bearer alice_access_token)
                None t0 db_sessions alice_access_token
                (claims0 "a@b.com" (Some "j-a1") "access" (timegm t0 + 600))
                "j-a1" (timegm t0 + 600) "a@b.com" alice
                eq_refl eq_refl eq_refl eq_refl ltac:(discriminate)
                eq_refl ltac:(vm_compute; discriminate) eq_refl
                eq_refl eq_refl Hnew) as Hnear.
  pose proof (logout_blocks_until_exp cfg0 (with_bearer far_access_token)
                None t0 db_sessions far_access_token
                (claims0 "a@b.com" (Some "j-a1") "access" 253402300800)
                "j-a1" 253402300800 "a@b.com" alice
                eq_refl eq_refl eq_refl eq_refl ltac:(discriminate)
                eq_refl ltac:(discriminate) eq_refl
                eq_refl eq_refl Hnew) as Hfar.
  cbv zeta in Hnear, Hfar. cbv zeta.
  destruct Hnear as [Hnear _]. destruct Hfar as [_ Hfar].
  destruct Hnear as [H204 Hnear]; [vm_compute; split; discriminate|].
  destruct Hfar as [Hraise Hfar];
    [vm_compute; intros [_ Hle]; by apply Hle|].
  split; [exact H204|]. split.
  { apply (proj1 (Hnear (t0 + 1000000))). vm_compute. reflexivity. }
  split.
  { apply (proj1 (proj2 (Hnear (t0 + 600500000)))); vm_compute; discriminate. }
  split; [exact Hraise|].
  apply Hfar. vm_compute. discriminate.
Defined.

(** [logout_all_devices], step by step. *)
Lemma logout_all_devices_run cfg request user now s :
  logout_all_devices cfg request user now s
  = (let sA := (revoke_all_user_tokens (user_id user) now s).1 in
     let done :=
       Return ({| response_status := 204 |},
               length (filter (λ r, rt_user_id r = user_id user
                                    ∧ revoked r = false)
                              (refresh_token_table (working s)))) in
     match presented_access cfg request now with
     | Some (jti, e, _) =>
         if bool_decide (representable e) then
           ((block_access_token jti (e * 1000000) (Some (user_id user))
               (Some "User logout all devices") now sA).1, done)
         else (sA, Raise ValueError)
     | None => (sA, done)
     end).
Proof.
  unfold logout_all_devices. unfold st_bind at 1.
  rewrite revoke_all_user_tokens_effect. cbv zeta. cbn [fst].
  set (sA := {| opened_on := _; commits := _; working := _ |}).
  unfold presented_access, decode. unfold st_bind at 1.
  destruct (authorization request) as [[token|raw]|]; try reflexivity.
  unfold st_try.
  destruct (jwt_decode token (SECRET_KEY cfg) false now) as [e|payload];
    [reflexivity|].
  unfold st_bind at 1, st_ret at 1.
  destruct (c_jti payload) as [jti|]; [|reflexivity].
  destruct (c_exp payload) as [e|]; [|reflexivity].
  destruct (truthy (Some jti) && negb (bool_decide (e = 0))); [|reflexivity].
  unfold utcfromtimestamp, st_bind at 1.
  destruct (bool_decide (representable e)); [|reflexivity].
  unfold st_ret at 1.
  unfold block_access_token, st_bind at 1.
  destruct (block_token_after "access" jti (e * 1000000)
              (Some (user_id user)) (Some "User logout all devices") now sA)
    as (_ & _ & _ & _ & _ & _ & b & Hb).
  destruct (block_token _ _ _ _ _ _ sA) as [sB r]. simpl in Hb. subst r.
  reflexivity.
Qed.

Lemma logout_all_devices_db cfg request user now db :
  let db1 := (run_request (logout_all_devices cfg request user now) db).1 in
  users db1 = users db ∧
  refresh_token_table db1
  = (λ r, if bool_decide (rt_user_id r = user_id user ∧ revoked r = false)
          then revoke r now else r) <$> refresh_token_table db ∧
  ∀ j, (∀ jti e sub, presented_access cfg request now = Some (jti, e, sub) →
                     jti ≠ j) →
       filter (λ b, bl_jti b = j) (token_blocklist db1)
       = filter (λ b, bl_jti b = j) (token_blocklist db).
Proof.
  unfold run_request. rewrite logout_all_devices_run. cbv zeta.
  rewrite revoke_all_user_tokens_effect. cbv zeta. cbn [fst].
  set (sA := {| opened_on := _; commits := _; working := _ |}).
  destruct (presented_access cfg request now) as [[[jti e] sub]|];
    [|by repeat split].
  case_bool_decide; [|by repeat split].
  unfold block_access_token. cbn [fst].
  pose proof (block_token_after "access" jti (e * 1000000)
                (Some (user_id user)) (Some "User logout all devices") now sA)
    as (_ & Htab & Hu & _ & _ & _ & _).
  pose proof (block_token_synced "access" jti (e * 1000000)
                (Some (user_id user)) (Some "User logout all devices") now sA
                eq_refl) as Hsync.
  rewrite Hsync. split; [exact Hu|]. split; [exact Htab|].
  intros j Hother. rewrite Hsync, block_token_filter; [reflexivity|].
  right. by eapply Hother.
Qed.

(** X5. Logout-all writes at most one registry entry, for the access token
    it was called with: for every other token (any token whose unique-id is
    not the presented one) [get_current_user] answers after the call as it
    did before, so the access tokens of the user's other devices stay
    usable until they expire. *)
Theorem logout_all_spares_other_access_tokens cfg request user now db
    other now' :
  (∀ jti e sub, presented_access cfg request now = Some (jti, e, sub) →
                claims_of other ≫= c_jti ≠ Some jti) →
  let db1 := (run_request (logout_all_devices cfg request user now) db).1 in
  (get_current_user cfg other now' (open_session db1)).2
  = (get_current_user cfg other now' (open_session db)).2.
Proof.
  intros Hother db1.
  destruct (logout_all_devices_db cfg request user now db) as (Hu & _ & Hreg).
  apply get_current_user_ext; [exact Hu|].
  intros j Hj. apply Hreg. intros jti e sub Hp Heq.
  apply (Hother jti e sub Hp). by rewrite Hj, Heq.
Qed.

Lemma logout_all_spares_other_access_tokens_witness :
  (get_current_user cfg0 alice_other_access_token (t0 + 1000000)
     (open_session
        (run_request (logout_all_devices cfg0 (with_bearer alice_access_token)
                        alice t0) db_sessions).1)).2
  = Return alice.
Proof.
  etrans.
  - apply (logout_all_spares_other_access_tokens cfg0
             (with_bearer alice_access_token) alice t0 db_sessions
             alice_other_access_token (t0 + 1000000)).
    intros jti e sub Hp. vm_compute in Hp. injection Hp as <- _ _.
    vm_compute. discriminate.
  - vm_compute. reflexivity.
Defined.

Lemma filter_fmap_fixed {A} (P : A → Prop) `{∀ x, Decision (P x)}
    (g : A → A) (l : list A) :
  (∀ x, x ∈ l → (P x → g x = x) ∧ (¬ P x → ¬ P (g x))) →
  filter P (g <$> l) = filter P l.
Proof.
  induction l as [|a l IH]; intros Hg; [done|].
  rewrite fmap_cons, !filter_cons.
  destruct (Hg a) as [Hin Hout]; [left|].
  rewrite IH by (intros x Hx; apply Hg; by right).
  destruct (decide (P a)) as [Ha|Ha].
  - rewrite (Hin Ha). by rewrite decide_True.
  - by rewrite decide_False by by apply Hout.
Qed.

Lemma jwt_decode_claims token key verify now c :
  jwt_decode token key verify now = inr c → claims_of token = Some c.
Proof.
  unfold jwt_decode. destruct token as [raw|k payload]; [done|].
  repeat case_match; intros; simplify_eq; done.
Qed.

(** Refresh validation depends on the database through the users and the
    unrevoked rows of the token's own unique-id. *)
Lemma verify_result_rows cfg token now db db' :
  users db' = users db →
  (∀ j, claims_of token ≫= c_jti = Some j →
        filter (λ r, rt_jti r = j ∧ revoked r = false) (refresh_token_table db')
        = filter (λ r, rt_jti r = j ∧ revoked r = false)
                 (refresh_token_table db)) →
  verify_result cfg token now db' = verify_result cfg token now db.
Proof.
  intros Hu Hrows. rewrite !verify_result_unfold.
  destruct (jwt_decode token (SECRET_KEY cfg) true now) as [e|c] eqn:Hd;
    [done|].
  apply jwt_decode_claims in Hd.
  destruct (negb (bool_decide (c_type c = Some "refresh"))); [done|].
  destruct (c_jti c) as [j|] eqn:Hj; [|done].
  destruct (c_sub c) as [mail|]; [|done].
  rewrite Hu, (Hrows j); [done|]. by rewrite Hd.
Qed.

Lemma update_spares_other_rows now t l j :
  NoDup (rt_id <$> l) → t ∈ l → rt_jti t ≠ j →
  filter (λ r, rt_jti r = j ∧ revoked r = false)
    ((λ r, if bool_decide (rt_id r = rt_id t) then revoke t now else r) <$> l)
  = filter (λ r, rt_jti r = j ∧ revoked r = false) l.
Proof.
  intros Hids Ht Hne. apply filter_fmap_fixed. intros r Hr. split.
  - intros [Hj _]. case_bool_decide as Hid; [|done].
    rewrite (NoDup_fmap_elem_inj rt_id l r t Hids Hr Ht Hid) in Hj. done.
  - intros Hn. case_bool_decide; [|done]. intros [Hj _]. done.
Qed.

(** X6. Logging out one session leaves the others alone: for every refresh
    token whose unique-id is not that of the refresh token the call
    revokes, [verify_refresh_token] answers after the logout as it did
    before.  In particular a logout that carries only a bearer token
    changes the outcome for no refresh token, even if the bearer token is
    itself a refresh token. *)
Theorem logout_spares_other_sessions cfg request body now db other now' :
  id_unique db →
  (∀ R u t, presented_refresh body = Some R →
            verify_result cfg R now db = Return (u, t) →
            claims_of other ≫= c_jti ≠ Some (rt_jti t)) →
  verify_result cfg other now' (run_request (logout cfg request body now) db).1
  = verify_result cfg other now' db.
Proof.
  intros Hids Hother. rewrite logout_db.
  destruct (logout_access cfg request now (open_session db)).2;
    [|reflexivity].
  pose proof (logout_access_after cfg request now (open_session db))
    as (Htab_a & Hu_a & _).
  set (sa := (logout_access cfg request now (open_session db)).1) in *.
  change (working (open_session db)) with db in *.
  pose proof (logout_refresh_after cfg body now sa) as (Hu_r & _).
  apply verify_result_rows; [by rewrite Hu_r, Hu_a|].
  intros j Hj. rewrite logout_refresh_run.
  destruct (presented_refresh body) as [R|]; [|cbn [fst]; by rewrite Htab_a].
  destruct (verify_result cfg R now (working sa)) as [[u t]|e] eqn:Hv;
    [|cbn [fst]; by rewrite Htab_a].
  rewrite (verify_result_ext cfg R now db (working sa)) in Hv by done.
  specialize (Hother R u t eq_refl Hv).
  apply verify_result_returns in Hv
    as (payload & jti & mail & _ & _ & _ & _ & _ & _ & _ & Hin & _).
  cbv zeta. unfold block_refresh_token, db_commit. cbn [fst working].
  pose proof (block_token_after "refresh" (rt_jti t) (rt_expires_at t)
                (Some (rt_user_id t)) (Some "User logout") now
                (db_update_refresh_token (revoke t now) sa).1)
    as (_ & Htab & _).
  rewrite Htab. cbn [db_update_refresh_token db_write fst working
                     with_refresh_tokens refresh_token_table rt_id revoke].
  rewrite Htab_a. apply update_spares_other_rows; [done..|].
  intros Heq. apply Hother. by rewrite Hj, Heq.
Qed.

Lemma db_sessions_ids : id_unique db_sessions.
Proof. apply (bool_decide_unpack _). vm_compute. exact I. Qed.

Lemma logout_spares_other_sessions_witness :
  verify_result cfg0 alice_second_refresh_token (t0 + 1000000)
    (run_request (logout cfg0 (with_bearer alice_access_token)
                    (Some rotate_request) t0) db_sessions).1
  = Return (alice, session_row 2 1 "j-r2").
Proof.
  etrans.
  - apply (logout_spares_other_sessions cfg0 (with_bearer alice_access_token)
             (Some rotate_request) t0 db_sessions alice_second_refresh_token
             (t0 + 1000000) db_sessions_ids).
    intros R u t HR Hv. injection HR as <-.
    vm_compute in Hv. injection Hv as <- <-.
    vm_compute. discriminate.
  - vm_compute. reflexivity.
Defined.

(** ** Cleanup *)

Lemma filter_filter_implied {A} (P Q : A → Prop) `{∀ x, Decision (P x)}
    `{∀ x, Decision (Q x)} (l : list A) :
  (∀ x, P x → Q x) → filter P (filter Q l) = filter P l.
Proof.
  intros HPQ. induction l as [|a l IH]; [done|].
  rewrite (filter_cons Q). destruct (decide (Q a)) as [Hq|Hq].
  - rewrite !filter_cons, IH. done.
  - rewrite IH, filter_cons. rewrite decide_False; [done|]. naive_solver.
Qed.

Lemma length_filter_split {A} (P : A → Prop) `{∀ x, Decision (P x)}
    (l : list A) :
  length l = (length (filter (λ x, ¬ P x) l) + length (filter P l))%nat.
Proof.
  induction l as [|a l IH]; [done|].
  rewrite !filter_cons. destruct (decide (P a)) as [Ha|Ha].
  - rewrite decide_False by tauto. simpl. lia.
  - rewrite decide_True by done. simpl. lia.
Qed.

(** The outcome of the access-token validator at an instant depends on the
    registry through the entries that block at that instant. *)
Lemma get_current_user_ext_live cfg token now db db' :
  users db' = users db →
  (∀ j, Exists (λ b, bl_jti b = j ∧ now < bl_expires_at b) (token_blocklist db')
        ↔ Exists (λ b, bl_jti b = j ∧ now < bl_expires_at b)
                 (token_blocklist db)) →
  (get_current_user cfg token now (open_session db')).2
  = (get_current_user cfg token now (open_session db)).2.
Proof.
  intros Hu Hreg. rewrite !get_current_user_by_checks.
  change (working (open_session db')) with db'.
  change (working (open_session db)) with db.
  assert (validate_in_order code_order cfg db' now token
          = validate_in_order code_order cfg db now token) as ->;
    [|by destruct (validate_in_order _ _ _ _ _)].
  assert (subject_of db' token = subject_of db token) as Hsubject
    by (unfold subject_of; by rewrite Hu).
  unfold validate_in_order, first_failing. rewrite Hsubject.
  assert (∀ r, check_fails cfg db' now token r = check_fails cfg db now token r)
    as Hchecks.
  { intros r. destruct r; try reflexivity; simpl; rewrite ?Hsubject; try done.
    destruct (claims_of token ≫= c_jti) as [j|] eqn:Hj; [|done].
    f_equal. apply bool_decide_ext, Hreg. }
  rewrite (list_filter_iff _ (λ r, check_fails cfg db now token r = true));
    [done|].
  intros r. by rewrite Hchecks.
Qed.

(** X7. The maintenance cleanup changes no answer of a validator: after
    [cleanup_expired_tokens] has run at [now], [verify_refresh_token] gives
    the same outcome as before for every token at every instant, and
    [get_current_user] gives the same outcome as before for every token at
    every instant from [now] on. *)
Theorem cleanup_changes_no_answer cfg now db :
  let db1 := (run_request (cleanup_expired_tokens now) db).1 in
  users db1 = users db ∧
  (∀ token t', verify_result cfg token t' db1 = verify_result cfg token t' db) ∧
  (∀ token t', now ≤ t' →
     (get_current_user cfg token t' (open_session db1)).2
     = (get_current_user cfg token t' (open_session db)).2).
Proof.
  cbv zeta. cbn [run_request cleanup_expired_tokens]. split; [reflexivity|].
  split.
  - intros token t'. apply verify_result_rows; [reflexivity|].
    intros j _. cbn. apply filter_filter_implied.
    intros r [_ Hrev] [_ Hrev']. congruence.
  - intros token t' Hle. apply get_current_user_ext_live; [reflexivity|].
    intros j. cbn. rewrite !Exists_exists. split.
    + intros (b & Hb & Hj). apply list_elem_of_filter in Hb as [_ Hb]. eauto.
    + intros (b & Hb & Hj & Hlive). exists b. split; [|done].
      apply list_elem_of_filter. split; [lia|done].
Qed.

(** X8. The counts [cleanup_expired_tokens] returns are the numbers of rows
    it removed from the two tables.  It removes the registry entries whose
    expiry lies before [now] and no others, and from the refresh tokens
    only rows that are revoked and expired for more than seven days: a row
    that was never revoked is kept however long ago it expired. *)
Theorem cleanup_accounting now db :
  let db1 := (run_request (cleanup_expired_tokens now) db).1 in
  ∃ blocklist_deleted refresh_deleted,
    (run_request (cleanup_expired_tokens now) db).2
      = Return (blocklist_deleted, refresh_deleted) ∧
    length (token_blocklist db)
      = (length (token_blocklist db1) + blocklist_deleted)%nat ∧
    length (refresh_token_table db)
      = (length (refresh_token_table db1) + refresh_deleted)%nat ∧
    (∀ b, b ∈ token_blocklist db1
          ↔ b ∈ token_blocklist db ∧ is_expired b now = false) ∧
    (∀ r, r ∈ refresh_token_table db1
          ↔ r ∈ refresh_token_table db ∧
            (revoked r = false ∨ now - timedelta_days 7 ≤ rt_expires_at r)).
Proof.
  cbv zeta. cbn [run_request cleanup_expired_tokens]. do 2 eexists.
  split; [reflexivity|]. cbn. split; [apply length_filter_split|].
  split.
  - rewrite (length_filter_split
               (λ r, rt_expires_at r < now - timedelta_days 7 ∧ revoked r = true)).
    reflexivity.
  - split.
    + intros b. rewrite list_elem_of_filter. unfold is_expired.
      rewrite bool_decide_eq_false. tauto.
    + intros r. rewrite list_elem_of_filter. split.
      * intros [Hkeep Hr]. split; [done|].
        destruct (revoked r) eqn:Hrev; [|by left]. right.
        destruct (decide (rt_expires_at r < now - timedelta_days 7)); [|lia].
        exfalso. by apply Hkeep.
      * intros [Hr Hcase]. split; [|done]. intros [Hold Hrev].
        destruct Hcase as [Hunrev|Hrecent]; [congruence|lia].
Qed.

(** ** Revoke-all, as a whole *)

Lemma revoke_all_request uid now db :
  run_request (revoke_all_user_tokens uid now) db
  = (with_refresh_tokens
       (fmap (λ r, if bool_decide (rt_user_id r = uid ∧ revoked r = false)
                  then revoke r now else r)) db,
     Return (length (filter (λ r, rt_user_id r = uid ∧ revoked r = false)
                            (refresh_token_table db)))).
Proof.
  unfold run_request. rewrite revoke_all_user_tokens_effect. reflexivity.
Qed.

Lemma bulk_revoke_twice (uid : Z) (now now' : datetime) (l : list RefreshToken) :
  fmap (λ r, if bool_decide (rt_user_id r = uid ∧ revoked r = false)
             then revoke r now' else r)
    (fmap (λ r, if bool_decide (rt_user_id r = uid ∧ revoked r = false)
               then revoke r now else r) l)
  = fmap (λ r, if bool_decide (rt_user_id r = uid ∧ revoked r = false)
              then revoke r now else r) l.
Proof.
  induction l as [|r l IH]; [done|].
  rewrite !fmap_cons, IH. f_equal.
  destruct (bool_decide (rt_user_id r = uid ∧ revoked r = false)) eqn:Hr.
  - rewrite bool_decide_false; [done|]. cbn [revoke revoked]. intros [_ ?].
    discriminate.
  - by rewrite Hr.
Qed.

(** X9. [revoke_all_user_tokens] returns the number of rows of the user that
    were not yet revoked.  Afterwards every row of the user is revoked; rows
    of other users and rows revoked before are left exactly as they were
    (an earlier [revoked_at] is not overwritten); no refresh token validates
    to a row of that user any more; and a second call, at any time, counts 0
    and changes nothing. *)
Theorem revoke_all_complete cfg uid now db :
  let db1 := (run_request (revoke_all_user_tokens uid now) db).1 in
  (run_request (revoke_all_user_tokens uid now) db).2
    = Return (length (filter (λ r, rt_user_id r = uid ∧ revoked r = false)
                             (refresh_token_table db))) ∧
  length (refresh_token_table db1) = length (refresh_token_table db) ∧
  (∀ r, r ∈ refresh_token_table db1 → rt_user_id r = uid → revoked r = true) ∧
  (∀ r, r ∈ refresh_token_table db →
        rt_user_id r ≠ uid ∨ revoked r = true → r ∈ refresh_token_table db1) ∧
  (∀ token now' u t,
     verify_result cfg token now' db1 = Return (u, t) → rt_user_id t ≠ uid) ∧
  (∀ now', run_request (revoke_all_user_tokens uid now') db1
           = (db1, Return 0%nat)).
Proof.
  cbv zeta. rewrite revoke_all_request. cbn [fst snd].
  set (g := λ r, if bool_decide (rt_user_id r = uid ∧ revoked r = false)
                 then revoke r now else r).
  assert (∀ r, r ∈ g <$> refresh_token_table db →
               rt_user_id r = uid → revoked r = true) as Hall.
  { intros r Hr Hu. apply list_elem_of_fmap in Hr as (r0 & -> & _).
    unfold g in *. case_bool_decide as Hr0; [done|].
    destruct (revoked r0) eqn:Hrev; [done|]. exfalso. by apply Hr0. }
  split; [reflexivity|]. split; [cbn; by rewrite length_fmap|].
  split; [exact Hall|]. split.
  - intros r Hr Hcase. cbn. apply list_elem_of_fmap. exists r. split; [|done].
    unfold g. rewrite bool_decide_false; [done|].
    intros [Hu Hrev]. destruct Hcase; congruence.
  - split.
    + intros token now' u t Hv Hu.
      apply verify_result_returns in Hv
        as (p & j & m & _ & _ & _ & _ & _ & _ & _ & Hin & Hrev).
      cbn in Hin. rewrite (Hall t Hin Hu) in Hrev. done.
    + intros now'. rewrite revoke_all_request.
      subst g. unfold with_refresh_tokens.
      cbv beta iota delta [users refresh_token_table token_blocklist].
      rewrite bulk_revoke_leaves_none, bulk_revoke_twice. reflexivity.
Qed.

(** ** The other authenticators *)

Lemma logout_users cfg request body now db :
  users (run_request (logout cfg request body now) db).1 = users db.
Proof.
  rewrite logout_db.
  destruct (logout_access cfg request now (open_session db)).2;
    [|reflexivity].
  pose proof (logout_access_after cfg request now (open_session db))
    as (_ & Hu_a & _).
  pose proof (logout_refresh_after cfg body now
                (logout_access cfg request now (open_session db)).1)
    as (Hu_r & _).
  cbv zeta in Hu_a, Hu_r. by rewrite Hu_r, Hu_a.
Qed.

(** What the WebSocket endpoint answers, in terms of the decoded token. *)
Lemma websocket_endpoint_run cfg token now s :
  websocket_endpoint cfg token now s
  = (s, Return
      (if negb (token_nonempty token)
       then WsClosed 1008 "Authentication required"
       else
         match jwt_decode token (SECRET_KEY cfg) true now with
         | inl _ => WsClosed 1008 "Invalid token"
         | inr payload =>
             match c_sub payload with
             | None => WsClosed 1008 "Invalid token"
             | Some mail =>
                 match head (filter (λ u, email u = mail) (users (working s))) with
                 | None => WsClosed 1008 "Invalid token"
                 | Some u =>
                     if negb (is_active u)
                     then WsClosed 1008 "User is inactive"
                     else WsConnected u
                 end
             end
         end)).
Proof.
  unfold websocket_endpoint, get_current_user_from_token, get_user_by_email.
  destruct (negb (token_nonempty token)); [reflexivity|].
  destruct (jwt_decode token (SECRET_KEY cfg) true now) as [e|payload];
    [reflexivity|].
  destruct (c_sub payload) as [mail|]; [|reflexivity].
  st_unfold.
  destruct (head (filter _ _)) as [u|]; [|reflexivity].
  by destruct (negb (is_active u)).
Qed.

(** What [get_current_user] needs of a token it accepts. *)
Lemma get_current_user_returns cfg token now db u :
  (get_current_user cfg token now (open_session db)).2 = Return u →
  ∃ payload mail,
    token = JWS (SECRET_KEY cfg) payload ∧
    jwt_decode token (SECRET_KEY cfg) true now = inr payload ∧
    c_type payload = Some "access" ∧
    c_sub payload = Some mail ∧
    head (filter (λ x, email x = mail) (users db)) = Some u ∧
    is_active u = true.
Proof.
  rewrite get_current_user_by_checks. cbn [working open_session].
  unfold validate_in_order.
  destruct (first_failing code_order cfg db now token) as [r|] eqn:Hfirst;
    [discriminate|].
  destruct (subject_of db token) as [u'|] eqn:Hsubj; [|discriminate].
  cbn [snd]. intros Hv. injection Hv as ->.
  unfold first_failing in Hfirst.
  pose proof (proj1 (head_filter_None _ _) Hfirst) as Hpass.
  assert (∀ r, check_fails cfg db now token r = false) as Hall.
  { intros r. destruct (check_fails cfg db now token r) eqn:Hc; [|done].
    exfalso. apply (Hpass r); [|done].
    unfold code_order. rewrite !elem_of_cons. destruct r; tauto. }
  unfold subject_of in Hsubj.
  destruct token as [raw|k p]; [done|]. cbn in Hsubj.
  destruct (c_sub p) as [mail|] eqn:Hsub; [|done]. cbn in Hsubj.
  pose proof (Hall Malformed) as Hm. pose proof (Hall Expired) as He.
  pose proof (Hall WrongType) as Hw. pose proof (Hall InactiveSubject) as Hi.
  cbn in Hm, He, Hw, Hi.
  apply negb_false_iff, bool_decide_eq_true in Hm. subst k.
  apply negb_false_iff, bool_decide_eq_true in Hw.
  unfold subject_of in Hi. cbn in Hi. rewrite Hsub in Hi. cbn in Hi.
  rewrite Hsubj in Hi. apply negb_false_iff in Hi.
  exists p, mail. split; [done|]. split; [|done].
  unfold jwt_decode. rewrite bool_decide_true by done.
  destruct (c_exp p) as [e|]; [|done]. by rewrite He.
Qed.

(** X10. The WebSocket endpoint connects every token [get_current_user]
    accepts, as the same user; but it looks neither at the [type] claim, nor
    at the unique-id, nor at the registry or the refresh-token table: its
    answer is the same for any token with the same key, subject and expiry
    on any database with the same users.  In particular its answer for a
    token is the same after a logout as before. *)
Theorem websocket_ignores_type_and_registry cfg token now db :
  (∀ u, (get_current_user cfg token now (open_session db)).2 = Return u →
        (websocket_endpoint cfg token now (open_session db)).2
        = Return (WsConnected u)) ∧
  (∀ k p ty j db',
     token = JWS k p → users db' = users db →
     (websocket_endpoint cfg
        (JWS k {| c_sub := c_sub p; c_jti := j; c_type := ty; c_exp := c_exp p |})
        now (open_session db')).2
     = (websocket_endpoint cfg token now (open_session db)).2) ∧
  (∀ request body t,
     (websocket_endpoint cfg token now
        (open_session (run_request (logout cfg request body t) db).1)).2
     = (websocket_endpoint cfg token now (open_session db)).2).
Proof.
  split; [|split].
  - intros u Hv.
    apply get_current_user_returns in Hv
      as (payload & mail & -> & Hd & _ & Hsub & Hu & Hact).
    rewrite websocket_endpoint_run. cbn [snd token_nonempty negb].
    rewrite Hd, Hsub. cbn [working open_session]. rewrite Hu, Hact.
    reflexivity.
  - intros k p ty j db' -> Hu. rewrite !websocket_endpoint_run.
    cbn [snd token_nonempty negb working open_session].
    unfold jwt_decode. cbn [c_exp c_sub]. rewrite Hu.
    destruct (bool_decide (k = SECRET_KEY cfg)); [|reflexivity].
    destruct (c_exp p) as [e|];
      [destruct (true && bool_decide (e < timegm now)); reflexivity
      |reflexivity].
  - intros request body t. rewrite !websocket_endpoint_run.
    cbn [snd working open_session]. by rewrite logout_users.
Qed.

Lemma get_graphql_context_run cfg request now s :
  get_graphql_context cfg request now s
  = (s, Return
      match authorization request with
      | Some (Bearer token) =>
          match jwt_decode token (SECRET_KEY cfg) true now with
          | inl _ => None
          | inr payload =>
              if truthy (c_sub payload)
              then head (filter (λ u, email u = default "" (c_sub payload))
                                (users (working s)))
              else None
          end
      | _ => None
      end).
Proof.
  unfold get_graphql_context, get_user_by_email.
  destruct (authorization request) as [[token|raw]|]; try reflexivity.
  destruct (jwt_decode token (SECRET_KEY cfg) true now) as [e|payload];
    [reflexivity|].
  by destruct (truthy (c_sub payload)).
Qed.

(** X11. The GraphQL context never raises.  For a bearer token that
    [get_current_user] accepts it holds the same user, unless that user's
    email is the empty string.  It looks neither at the [type] claim, nor at
    the unique-id, nor at the registry, nor at [is_active]: a token that
    [get_current_user] turns down because the account is inactive gives a
    context with that inactive user in it. *)
Theorem graphql_context_checks_less cfg token now db :
  let request a := {| req_headers := ∅; authorization := a;
                      client_host := None |} in
  (∀ a s, ∃ found, get_graphql_context cfg (request a) now s
                   = (s, Return found)) ∧
  (∀ u, (get_current_user cfg token now (open_session db)).2 = Return u →
        email u ≠ "" →
        (get_graphql_context cfg (request (Some (Bearer token))) now
           (open_session db)).2 = Return (Some u)) ∧
  (∀ k p ty j db',
     token = JWS k p → users db' = users db →
     (get_graphql_context cfg
        (request (Some (Bearer
           (JWS k {| c_sub := c_sub p; c_jti := j; c_type := ty;
                     c_exp := c_exp p |}))))
        now (open_session db')).2
     = (get_graphql_context cfg (request (Some (Bearer token))) now
          (open_session db)).2) ∧
  ((get_current_user_checks cfg token now (open_session db)).2
     = Return (inl InactiveSubject) →
   claims_of token ≫= c_sub ≠ Some "" →
   ∃ u, (get_graphql_context cfg (request (Some (Bearer token))) now
           (open_session db)).2 = Return (Some u) ∧
        is_active u = false).
Proof.
  cbv zeta. split; [|split; [|split]].
  - intros a s. rewrite get_graphql_context_run. eauto.
  - intros u Hv Hmail.
    apply get_current_user_returns in Hv
      as (payload & mail & -> & Hd & _ & Hsub & Hu & Hact).
    rewrite get_graphql_context_run. cbn [snd authorization].
    rewrite Hd, Hsub. cbn [default working open_session].
    assert (mail ≠ "") as Hne.
    { apply head_filter_Some in Hu as [_ Hm]. congruence. }
    unfold truthy. rewrite bool_decide_false by done. cbn [negb].
    unfold id. by rewrite Hu.
  - intros k p ty j db' -> Hu. rewrite !get_graphql_context_run.
    cbn [snd authorization working open_session].
    unfold jwt_decode. cbn [c_exp c_sub]. rewrite Hu.
    destruct (bool_decide (k = SECRET_KEY cfg)); [|reflexivity].
    destruct (c_exp p) as [e|];
      [destruct (true && bool_decide (e < timegm now)); reflexivity
      |reflexivity].
  - rewrite get_current_user_checks_code_order. cbn [snd working open_session].
    unfold code_order. rewrite !validate_in_order_cons.
    intros Hv Hne. rewrite get_graphql_context_run.
    cbn [snd authorization working open_session].
    destruct (check_fails cfg db now token Malformed) eqn:Hm; [discriminate|].
    destruct (check_fails cfg db now token Expired) eqn:He; [discriminate|].
    destruct (check_fails cfg db now token WrongType); [discriminate|].
    destruct (check_fails cfg db now token NoSubject); [discriminate|].
    destruct (check_fails cfg db now token Revoked); [discriminate|].
    destruct (check_fails cfg db now token UnknownSubject); [discriminate|].
    destruct (check_fails cfg db now token InactiveSubject) eqn:Hfails.
    2: { unfold validate_in_order, first_failing in Hv.
         rewrite filter_nil in Hv. cbn [head] in Hv.
         destruct (subject_of db token); discriminate. }
    clear Hv. cbn [check_fails] in Hfails, Hm, He.
    destruct (subject_of db token) as [u|] eqn:Hsubj; [|done].
    exists u. apply negb_true_iff in Hfails. split; [|done].
    unfold subject_of in Hsubj.
    destruct token as [raw|k p]; [done|]. cbn in Hsubj, Hne, He.
    destruct (c_sub p) as [mail|] eqn:Hsub; [|done]. cbn in Hsubj.
    apply negb_false_iff, bool_decide_eq_true in Hm. subst k.
    unfold jwt_decode. rewrite bool_decide_true by done.
    assert (truthy (Some mail) = true) as Ht.
    { unfold truthy. rewrite bool_decide_false; [done|]. congruence. }
    destruct (c_exp p) as [e|];
      [rewrite He; cbn [andb]|];
      rewrite Hsub, Ht; cbn [default]; unfold id; by rewrite Hsubj.
Qed.

(** ** The brute-force guard on a store that answers *)

Lemma redis_lookup_insert d key e t :
  redis_lookup (<[key := e]> d) key t = if entry_live t e then Some e else None.
Proof. unfold redis_lookup. by rewrite lookup_insert_eq. Qed.

Lemma redis_lookup_insert_ne d key key' e t :
  key ≠ key' → redis_lookup (<[key := e]> d) key' t = redis_lookup d key' t.
Proof. intros Hne. unfold redis_lookup. by rewrite lookup_insert_ne. Qed.

(** Whole seconds apart on the wall clock are within the same number of
    seconds on the store's clock. *)
Lemma mstime_within a b w :
  timegm a < timegm b + w → mstime a ≤ mstime b + w * 1000.
Proof.
  unfold timegm, mstime. intros Hlt.
  pose proof (Z.mul_div_le b 1000000 ltac:(lia)).
  pose proof (Z.mul_succ_div_gt a 1000000 ltac:(lia)).
  assert (a < b + w * 1000000) as Hab by nia.
  assert (a / 1000 ≤ (b + w * 1000000) / 1000) as Hdiv
    by (apply Z.div_le_mono; lia).
  replace (b + w * 1000000) with (b + (w * 1000) * 1000) in Hdiv by lia.
  by rewrite Z.div_add in Hdiv by lia.
Qed.

Lemma record_failed_login_healthy cfg identifier now d :
  0 < BRUTE_FORCE_LOCKOUT_MINUTES cfg →
  record_failed_login cfg identifier now {| redis_client := Some (healthy d) |}
  = (let key := _get_key "brute_force" identifier in
     let attempt_count :=
       default 0 (value <$> redis_lookup d key (mstime now)) + 1 in
     ({| redis_client := Some (healthy
           (<[key := {| value := attempt_count;
                        expire_at := Some (mstime now
                          + BRUTE_FORCE_LOCKOUT_MINUTES cfg * 60 * 1000) |}]>
              d)) |},
      Return (attempt_count,
              bool_decide (BRUTE_FORCE_MAX_ATTEMPTS cfg ≤ attempt_count)))).
Proof.
  intros Hminutes. unfold record_failed_login, healthy. limiter_unfold.
  rewrite (bool_decide_false (BRUTE_FORCE_LOCKOUT_MINUTES cfg * 60 ≤ 0)) by lia.
  reflexivity.
Qed.

(** With a lockout time that is not positive the store refuses the SETEX:
    nothing is counted. *)
Lemma record_failed_login_refused cfg identifier now d :
  BRUTE_FORCE_LOCKOUT_MINUTES cfg ≤ 0 →
  record_failed_login cfg identifier now {| redis_client := Some (healthy d) |}
  = ({| redis_client := Some (healthy d) |}, Return (0, false)).
Proof.
  intros Hminutes. unfold record_failed_login, healthy. limiter_unfold.
  rewrite (bool_decide_true (BRUTE_FORCE_LOCKOUT_MINUTES cfg * 60 ≤ 0)) by lia.
  reflexivity.
Qed.

Lemma get_remaining_attempts_healthy cfg identifier now d :
  get_remaining_attempts cfg identifier now
    {| redis_client := Some (healthy d) |}
  = ({| redis_client := Some (healthy d) |},
     Return (Z.max 0 (BRUTE_FORCE_MAX_ATTEMPTS cfg
       - default 0 (value <$> redis_lookup d
                      (_get_key "brute_force" identifier) (mstime now))))).
Proof. reflexivity. Qed.

Lemma get_lockout_ttl_healthy identifier now d :
  get_lockout_ttl identifier now {| redis_client := Some (healthy d) |}
  = ({| redis_client := Some (healthy d) |},
     Return (let ttl :=
               match redis_lookup d (_get_key "brute_force" identifier)
                                  (mstime now) with
               | None => -2
               | Some e => match expire_at e with
                           | None => -1
                           | Some x => (x - mstime now + 500) / 1000
                           end
               end in
             if bool_decide (0 < ttl) then Some ttl else None)).
Proof. reflexivity. Qed.

Lemma reset_failed_logins_healthy identifier d :
  reset_failed_logins identifier {| redis_client := Some (healthy d) |}
  = ({| redis_client := Some (healthy
          (delete (_get_key "brute_force" identifier) d)) |}, Return ()).
Proof. reflexivity. Qed.

Lemma run_all_cons {S A} (m : ST S A) (ms : list (ST S A)) (s : S) :
  (run_all (m :: ms) s).2 = (m s).2 :: (run_all ms (m s).1).2.
Proof.
  cbn [run_all]. destruct (m s) as [s1 r]. cbn [fst snd].
  by destruct (run_all ms s1).
Qed.

Lemma failed_logins_from cfg identifier (t : nat → datetime) (n : nat) :
  0 < BRUTE_FORCE_LOCKOUT_MINUTES cfg →
  ∀ (a : nat) d k,
    default 0 (value <$> redis_lookup d (_get_key "brute_force" identifier)
                           (mstime (t a))) = k + Z.of_nat a →
    (∀ i, (a ≤ i)%nat → (S i < a + n)%nat →
          timegm (t (S i))
          < timegm (t i) + BRUTE_FORCE_LOCKOUT_MINUTES cfg * 60) →
    (run_all ((λ i, record_failed_login cfg identifier (t i)) <$> seq a n)
             {| redis_client := Some (healthy d) |}).2
    = (λ i, Return (k + Z.of_nat i + 1,
                    bool_decide (BRUTE_FORCE_MAX_ATTEMPTS cfg
                                 ≤ k + Z.of_nat i + 1))) <$> seq a n.
Proof.
  intros Hminutes.
  induction n as [|n IH]; intros a d k Hcount Hgap; [reflexivity|].
  cbn [seq]. rewrite !fmap_cons, run_all_cons.
  rewrite record_failed_login_healthy by done. cbv zeta. cbn [fst snd].
  rewrite Hcount. f_equal.
  destruct n as [|n]; [reflexivity|].
  apply IH.
  - rewrite redis_lookup_insert. unfold entry_live. cbn [expire_at].
    rewrite bool_decide_true by (apply mstime_within, Hgap; lia).
    change (default 0 (value <$> Some ?e)) with (value e).
    cbn [value]. lia.
  - intros i Hi Hlt. apply Hgap; lia.
Qed.

(** X12. Failed logins for one identifier, each made before the lockout
    window of the one before has run out, are counted 1, 2, 3, ... by
    [record_failed_login] however long the whole run lasts, since every
    call re-arms the window; the call reports a lockout from the count
    [BRUTE_FORCE_MAX_ATTEMPTS] on.  (The lockout time is positive, as SETEX
    requires; the store answers every command.) *)
Theorem failed_logins_accumulate cfg identifier (t : nat → datetime) (n : nat) d :
  0 < BRUTE_FORCE_LOCKOUT_MINUTES cfg →
  redis_lookup d (_get_key "brute_force" identifier) (mstime (t 0%nat)) = None →
  (∀ i, (S i < n)%nat →
        timegm (t (S i)) < timegm (t i) + BRUTE_FORCE_LOCKOUT_MINUTES cfg * 60) →
  (run_all ((λ i, record_failed_login cfg identifier (t i)) <$> seq 0 n)
           {| redis_client := Some (healthy d) |}).2
  = (λ i, Return (Z.of_nat i + 1,
                  bool_decide (BRUTE_FORCE_MAX_ATTEMPTS cfg ≤ Z.of_nat i + 1)))
    <$> seq 0 n.
Proof.
  intros Hminutes Hfresh Hgap.
  apply (failed_logins_from cfg identifier t n Hminutes 0%nat d 0).
  - by rewrite Hfresh.
  - intros i _ Hlt. apply Hgap. lia.
Qed.

(** Six failures ten minutes apart, with the default settings: the fifth
    and the sixth are answered with a lockout, fifty minutes after the
    first. *)
Lemma failed_logins_accumulate_witness :
  (run_all ((λ i, record_failed_login cfg0 "1.2.3.4:a@b.com"
                    (t0 + Z.of_nat i * 600000000)) <$> seq 0 6)
           {| redis_client := Some (healthy ∅) |}).2
  = [Return (1, false); Return (2, false); Return (3, false);
     Return (4, false); Return (5, true); Return (6, true)].
Proof.
  etrans.
  - apply (failed_logins_accumulate cfg0 "1.2.3.4:a@b.com"
             (λ i, t0 + Z.of_nat i * 600000000) 6 ∅).
    + reflexivity.
    + reflexivity.
    + intros i Hi.
      destruct i as [|[|[|[|[|i]]]]]; [vm_compute; reflexivity..|lia].
  - vm_compute. reflexivity.
Defined.

(** X13. How the methods of the guard compose on a store that answers.
    After [record_failed_login] has returned the count [c] at [now], and as
    long as the store's clock has not passed the expiry it armed then (the
    lockout time after [now], to the millisecond, that instant included),
    [get_remaining_attempts] returns [max 0 (MAX - c)], the next failure is
    counted [c + 1], and [get_lockout_ttl] returns the time that is left,
    rounded to the nearest second, or nothing when that is 0.  Once the
    clock has passed the expiry, or after [reset_failed_logins] at any time,
    the three answer as for an identifier that never failed. *)
Theorem guard_round_trip cfg identifier now d :
  0 < BRUTE_FORCE_LOCKOUT_MINUTES cfg →
  0 ≤ BRUTE_FORCE_MAX_ATTEMPTS cfg →
  let expiry := mstime now + BRUTE_FORCE_LOCKOUT_MINUTES cfg * 60 * 1000 in
  let recorded :=
    record_failed_login cfg identifier now
      {| redis_client := Some (healthy d) |} in
  let cleared := (reset_failed_logins identifier recorded.1).1 in
  let as_new rl now' :=
    (get_remaining_attempts cfg identifier now' rl).2
      = Return (BRUTE_FORCE_MAX_ATTEMPTS cfg) ∧
    (get_lockout_ttl identifier now' rl).2 = Return None ∧
    (record_failed_login cfg identifier now' rl).2
      = Return (1, bool_decide (BRUTE_FORCE_MAX_ATTEMPTS cfg ≤ 1)) in
  ∃ c,
    recorded.2 = Return (c, bool_decide (BRUTE_FORCE_MAX_ATTEMPTS cfg ≤ c)) ∧
    (∀ now', mstime now' ≤ expiry →
       (get_remaining_attempts cfg identifier now' recorded.1).2
         = Return (Z.max 0 (BRUTE_FORCE_MAX_ATTEMPTS cfg - c)) ∧
       (get_lockout_ttl identifier now' recorded.1).2
         = Return (let seconds := (expiry - mstime now' + 500) / 1000 in
                   if bool_decide (0 < seconds) then Some seconds else None) ∧
       (record_failed_login cfg identifier now' recorded.1).2
         = Return (c + 1, bool_decide (BRUTE_FORCE_MAX_ATTEMPTS cfg ≤ c + 1))) ∧
    (∀ now', expiry < mstime now' → as_new recorded.1 now') ∧
    (∀ now', as_new cleared now').
Proof.
  intros Hlock Hmax. cbv zeta.
  rewrite record_failed_login_healthy by done. cbv zeta.
  cbn [fst snd]. eexists. split; [reflexivity|].
  set (key := _get_key "brute_force" identifier).
  set (c := default 0 (value <$> redis_lookup d key (mstime now)) + 1).
  set (e := {| value := c; expire_at := Some (mstime now
                 + BRUTE_FORCE_LOCKOUT_MINUTES cfg * 60 * 1000) |}).
  split; [|split].
  - intros now' Hin.
    assert (redis_lookup (<[key := e]> d) key (mstime now') = Some e) as Hlive.
    { rewrite redis_lookup_insert. unfold entry_live, e. cbn [expire_at].
      by rewrite bool_decide_true. }
    rewrite get_remaining_attempts_healthy, get_lockout_ttl_healthy,
      record_failed_login_healthy by done.
    cbv zeta. cbn [snd]. fold key. rewrite Hlive.
    change (default 0 (value <$> Some e)) with c. cbn [expire_at e].
    done.
  - intros now' Hout.
    assert (redis_lookup (<[key := e]> d) key (mstime now') = None) as Hdead.
    { rewrite redis_lookup_insert. unfold entry_live, e. cbn [expire_at].
      rewrite bool_decide_false by lia. done. }
    rewrite get_remaining_attempts_healthy, get_lockout_ttl_healthy,
      record_failed_login_healthy by done.
    cbv zeta. cbn [snd]. fold key. rewrite Hdead.
    change (default 0 (value <$> None)) with 0.
    rewrite Z.sub_0_r, Z.max_r by lia. done.
  - intros now'. rewrite reset_failed_logins_healthy. cbn [fst].
    assert (redis_lookup (delete key (<[key := e]> d)) key (mstime now') = None)
      as Hgone.
    { unfold redis_lookup. by rewrite lookup_delete_eq. }
    rewrite get_remaining_attempts_healthy, get_lockout_ttl_healthy,
      record_failed_login_healthy by done.
    cbv zeta. cbn [snd]. fold key. rewrite Hgone.
    change (default 0 (value <$> None)) with 0.
    rewrite Z.sub_0_r, Z.max_r by lia. done.
Qed.

(** With the default settings, a first failure at [t0]: exactly fifteen
    minutes later the counter still stands (4 attempts remain, the next
    failure is the second) although no lockout time is reported any more;
    one millisecond later all is forgotten. *)
Lemma guard_round_trip_witness :
  let recorded :=
    record_failed_login cfg0 "1.2.3.4:a@b.com" t0
      {| redis_client := Some (healthy ∅) |} in
  recorded.2 = Return (1, false) ∧
  (get_remaining_attempts cfg0 "1.2.3.4:a@b.com" (t0 + 900000000)
     recorded.1).2 = Return 4 ∧
  (get_lockout_ttl "1.2.3.4:a@b.com" (t0 + 900000000) recorded.1).2
    = Return None ∧
  (record_failed_login cfg0 "1.2.3.4:a@b.com" (t0 + 900000000)
     recorded.1).2 = Return (2, false) ∧
  (get_lockout_ttl "1.2.3.4:a@b.com" (t0 + 899500000) recorded.1).2
    = Return (Some 1) ∧
  (get_remaining_attempts cfg0 "1.2.3.4:a@b.com" (t0 + 900001000)
     recorded.1).2 = Return 5 ∧
  (record_failed_login cfg0 "1.2.3.4:a@b.com" (t0 + 900001000)
     recorded.1).2 = Return (1, false).
Proof.
  cbv zeta.
  destruct (guard_round_trip cfg0 "1.2.3.4:a@b.com" t0 ∅)
    as (c & Hc & Hlive & Hdead & _).
  - reflexivity.
  - discriminate.
  - assert (c = 1) as -> by (vm_compute in Hc; congruence).
    destruct (Hlive (t0 + 900000000)) as (Hrem & Httl & Hrec);
      [vm_compute; discriminate|].
    destruct (Hlive (t0 + 899500000)) as (_ & Httl' & _);
      [vm_compute; discriminate|].
    destruct (Hdead (t0 + 900001000)) as (Hrem' & _ & Hrec');
      [vm_compute; reflexivity|].
    exact (conj Hc (conj Hrem (conj Httl (conj Hrec
             (conj Httl' (conj Hrem' Hrec')))))).
Defined.

(** ** Which counters a method touches *)

Lemma leaves_keys_ret {A} keep (a : A) : leaves_keys keep (st_ret a).
Proof. by intros r key _. Qed.

Lemma leaves_keys_bind {A B} keep (m : ST Redis A) (k : A → ST Redis B) :
  leaves_keys keep m → (∀ a, leaves_keys keep (k a)) →
  leaves_keys keep (st_bind m k).
Proof.
  intros Hm Hk r key Hkey. unfold st_bind.
  specialize (Hm r key Hkey). destruct (m r) as [r1 [a|e]]; [|done].
  cbn [fst] in Hm. by rewrite (Hk a r1 key Hkey).
Qed.

Lemma leaves_keys_try {A} keep (m k : ST Redis A) :
  leaves_keys keep m → leaves_keys keep k →
  leaves_keys keep (st_try m (on_Exception k)).
Proof.
  intros Hm Hk r key Hkey. unfold st_try, on_Exception.
  specialize (Hm r key Hkey). destruct (m r) as [r1 [a|e]]; [done|].
  cbn [fst] in Hm. by rewrite (Hk r1 key Hkey).
Qed.

Lemma leaves_keys_round_trip {A} (keep : string → Prop)
    (f : gmap string RedisEntry → gmap string RedisEntry * A) :
  (∀ d key, keep key → (f d).1 !! key = d !! key) →
  leaves_keys keep (round_trip f).
Proof.
  intros Hf [d fs] key Hkey. unfold round_trip. cbn [faults data].
  specialize (Hf d key Hkey).
  destruct fs as [|[|] fs]; [|done|]; by destruct (f d).
Qed.

Lemma with_client_frame {A} keep (absent : A) (body : ST Redis A) rl key t :
  leaves_keys keep body → keep key →
  counter (with_client absent body rl).1 key t = counter rl key t.
Proof.
  intros Hbody Hkey. unfold with_client, counter, redis_lookup.
  destruct rl as [[r|]]; cbn [redis_client]; [|done].
  specialize (Hbody r key Hkey). destruct (body r) as [r1 res].
  cbn [fst redis_client] in *. by rewrite Hbody.
Qed.

Lemma apply_cmd_frame t d c key :
  (match c with INCR k | EXPIRE k _ => k end) ≠ key →
  apply_cmd t d c !! key = d !! key.
Proof.
  intros Hne. unfold apply_cmd.
  destruct c as [k|k seconds]; destruct (redis_lookup d k t);
    try case_bool_decide;
    rewrite ?lookup_insert_ne, ?lookup_delete_ne by done; done.
Qed.

Ltac leaves_keys_steps :=
  repeat first
    [ apply leaves_keys_ret
    | apply leaves_keys_try
    | apply leaves_keys_bind; [|intros ?]
    | match goal with
      | |- leaves_keys _ (if ?c then _ else _) => destruct c
      end ].

Lemma guard_leaves_keys cfg identifier now :
  let keep key := key ≠ _get_key "brute_force" identifier in
  leaves_keys keep
    (st_try
      (let key := _get_key "brute_force" identifier in
       do attempts <- redis_get key (mstime now);
       let attempt_count := default 0 attempts + 1 in
       redis_setex key (BRUTE_FORCE_LOCKOUT_MINUTES cfg * 60) attempt_count
                   (mstime now) >>
       let is_locked_out :=
         bool_decide (BRUTE_FORCE_MAX_ATTEMPTS cfg ≤ attempt_count) in
       st_ret (attempt_count, is_locked_out))
      (on_Exception (st_ret (0, false)))) ∧
  leaves_keys keep
    (st_try (redis_delete (_get_key "brute_force" identifier))
            (on_Exception (st_ret ()))).
Proof.
  cbv zeta. unfold redis_setex.
  split; leaves_keys_steps;
    try (intros r key _; reflexivity);
    apply leaves_keys_round_trip; intros d key Hkey; cbn [fst]; try done.
  - by rewrite lookup_insert_ne.
  - by rewrite lookup_delete_ne.
Qed.

Lemma check_rate_limit_frame cfg request pm ph now rl key t :
  key ≠ _get_key "minute" (_get_client_ip request) →
  key ≠ _get_key "hour" (_get_client_ip request) →
  counter (check_rate_limit cfg request pm ph now rl).1 key t
  = counter rl key t.
Proof.
  intros Hm Hh. unfold check_rate_limit.
  destruct (negb (RATE_LIMIT_ENABLED cfg)); [reflexivity|].
  apply (with_client_frame
           (λ k, k ≠ _get_key "minute" (_get_client_ip request) ∧
                 k ≠ _get_key "hour" (_get_client_ip request)));
    [|done].
  cbv zeta. leaves_keys_steps;
    apply leaves_keys_round_trip; intros d k [Hk1 Hk2]; cbn [fst]; try done.
  cbn [foldl]. rewrite !apply_cmd_frame by done. done.
Qed.

Lemma append_inj_r (p a b : string) : p +:+ a = p +:+ b → a = b.
Proof.
  induction p as [|c p IH]; [done|]. cbn. intros Heq.
  injection Heq as Heq. by apply IH.
Qed.

Lemma _get_key_inj prefix a b : _get_key prefix a = _get_key prefix b → a = b.
Proof.
  unfold _get_key. intros Heq.
  by do 3 apply append_inj_r in Heq.
Qed.

(** X14. The counters do not interfere.  Whatever the store holds and
    whether or not it answers, recording or resetting the failures of one
    identifier leaves the failure counter of every other identifier and the
    request counters of every address as they were, and [check_rate_limit]
    leaves every failure counter as it was. *)
Theorem counters_do_not_interfere cfg request pm ph identifier now rl t :
  (∀ other, other ≠ identifier →
     counter (record_failed_login cfg identifier now rl).1
             (_get_key "brute_force" other) t
       = counter rl (_get_key "brute_force" other) t ∧
     counter (reset_failed_logins identifier rl).1
             (_get_key "brute_force" other) t
       = counter rl (_get_key "brute_force" other) t) ∧
  (∀ address,
     counter (record_failed_login cfg identifier now rl).1
             (_get_key "minute" address) t
       = counter rl (_get_key "minute" address) t ∧
     counter (record_failed_login cfg identifier now rl).1
             (_get_key "hour" address) t
       = counter rl (_get_key "hour" address) t ∧
     counter (reset_failed_logins identifier rl).1
             (_get_key "minute" address) t
       = counter rl (_get_key "minute" address) t ∧
     counter (reset_failed_logins identifier rl).1
             (_get_key "hour" address) t
       = counter rl (_get_key "hour" address) t) ∧
  (∀ anyone,
     counter (check_rate_limit cfg request pm ph now rl).1
             (_get_key "brute_force" anyone) t
       = counter rl (_get_key "brute_force" anyone) t).
Proof.
  pose proof (guard_leaves_keys cfg identifier now) as [Hrec Hreset].
  cbv zeta in Hrec, Hreset.
  split; [|split].
  - intros other Hother.
    assert (_get_key "brute_force" other ≠ _get_key "brute_force" identifier)
      as Hne by (intros Heq; by apply _get_key_inj in Heq).
    split.
    + by apply (with_client_frame _ _ _ _ _ _ Hrec).
    + by apply (with_client_frame _ _ _ _ _ _ Hreset).
  - intros address.
    repeat split;
      first [ apply (with_client_frame _ _ _ _ _ _ Hrec)
            | apply (with_client_frame _ _ _ _ _ _ Hreset) ];
      discriminate.
  - intros anyone. apply check_rate_limit_frame; discriminate.
Qed.

(** ** The address a login is counted under *)

Lemma _get_client_ip_forwarded request v :
  req_headers request !! "x-forwarded-for" = Some v → v ≠ "" →
  _get_client_ip request = strip (first_segment v).
Proof.
  intros Hv Hne. unfold _get_client_ip. rewrite Hv.
  unfold truthy. by rewrite bool_decide_false.
Qed.

Lemma get_client_ip_forwarded remote request v :
  req_headers request !! "x-forwarded-for" = Some v → v ≠ "" →
  get_client_ip remote request = strip (first_segment v).
Proof.
  intros Hv Hne. unfold get_client_ip. rewrite Hv.
  unfold truthy. by rewrite bool_decide_false.
Qed.

(** A first failure does not lock out, for a limit above one. *)
Lemma record_first_failure cfg identifier now d :
  1 < BRUTE_FORCE_MAX_ATTEMPTS cfg →
  redis_lookup d (_get_key "brute_force" identifier) (mstime now) = None →
  ∃ d1 c,
    record_failed_login cfg identifier now
      {| redis_client := Some (healthy d) |}
    = ({| redis_client := Some (healthy d1) |}, Return (c, false)).
Proof.
  intros Hmax Hfresh.
  destruct (decide (0 < BRUTE_FORCE_LOCKOUT_MINUTES cfg)) as [Hpos|Hnon].
  - rewrite record_failed_login_healthy by done. cbv zeta.
    rewrite Hfresh. change (default 0 (value <$> None) + 1) with 1.
    rewrite bool_decide_false by lia. eauto.
  - rewrite record_failed_login_refused by lia. eauto.
Qed.

(** The body of a login that names an address with no live counter for
    that user does not answer with the lockout. *)
Lemma login_body_not_locked `{CryptContext} cfg request form now ua ur d sess :
  1 < BRUTE_FORCE_MAX_ATTEMPTS cfg →
  redis_lookup d
    (_get_key "brute_force" (_get_client_ip request +:+ ":" +:+ username form))
    (mstime now) = None →
  status_of
    (login_body cfg request form now ua ur
       {| limiter := {| redis_client := Some (healthy d) |};
          session := sess |}).2 ≠ 429.
Proof.
  intros Hmax Hfresh.
  destruct (record_first_failure cfg _ now d Hmax Hfresh)
    as (d1 & c & Hrec).
  unfold login_body. unfold st_bind at 1, in_limiter at 1.
  cbn [limiter session]. rewrite Hrec. cbv beta iota.
  unfold st_bind at 1, in_session at 1, get_user_by_email.
  st_unfold. cbv beta iota. cbn [session limiter].
  destruct (head (filter _ (users (working sess)))) as [u|].
  - destruct (negb (verify_password (password form) (hashed_password u))).
    + unfold in_limiter. cbn [limiter session].
      rewrite get_remaining_attempts_healthy. cbn [snd status_of status_code].
      discriminate.
    + unfold in_limiter, in_session. cbn [limiter session].
      rewrite reset_failed_logins_healthy. cbn [limiter session].
      rewrite create_refresh_token_run.
      case_bool_decide; cbv zeta; cbn [snd status_of]; discriminate.
  - unfold in_limiter. cbn [limiter session].
    rewrite get_remaining_attempts_healthy. cbn [snd status_of status_code].
    discriminate.
Qed.

(** X15. When the request carries a non-empty X-Forwarded-For header, both
    the guard in the body of [login] and the decorator in front of it take
    the first entry of that header for the address of the client, whatever
    the address of the peer.  So a login that names an address with no
    live counter for that user is never answered with the lockout,
    whatever was counted under other addresses (for a limit above one): if
    it is answered 429 at all, the decorator found a limit of the route
    used up under the named address, and neither the guard nor the
    database was touched. *)
Theorem lockout_keyed_by_forwarded_header `{CryptContext} cfg check request
    form now ua ur d sess v :
  req_headers request !! "x-forwarded-for" = Some v → v ≠ "" →
  1 < BRUTE_FORCE_MAX_ATTEMPTS cfg →
  redis_lookup d
    (_get_key "brute_force"
       (strip (first_segment v) +:+ ":" +:+ username form))
    (mstime now) = None →
  let app := {| limiter := {| redis_client := Some (healthy d) |};
                session := sess |} in
  _get_client_ip request = strip (first_segment v) ∧
  get_client_ip get_remote_address request = strip (first_segment v) ∧
  status_of (login_body cfg request form now ua ur app).2 ≠ 429 ∧
  (status_of (login cfg check request form now ua ur app).2 = 429 →
   ∃ limit,
     check = LimitExceeded limit ∧
     login cfg check request form now ua ur app
     = (app, Raise (HTTPExc {| status_code := 429; detail := limit;
                               headers := [] |}))).
Proof.
  intros Hv Hne Hmax Hfresh app.
  pose proof (_get_client_ip_forwarded request v Hv Hne) as Hip.
  pose proof (get_client_ip_forwarded get_remote_address request v Hv Hne)
    as Hkey.
  assert (status_of (login_body cfg request form now ua ur app).2 ≠ 429)
    as Hbody.
  { apply login_body_not_locked; [done|]. by rewrite Hip. }
  split; [exact Hip|]. split; [exact Hkey|]. split; [exact Hbody|].
  unfold login. rewrite limiter_limit_run.
  case_bool_decide; [done|].
  destruct check as [limit| |]; cbn [snd].
  - intros _. by exists limit.
  - destruct (login_body cfg request form now ua ur app).2; done.
  - done.
Qed.

(** ** The request counters on a store that answers *)

Lemma redis_lookup_live d key t e :
  redis_lookup d key t = Some e → entry_live t e = true.
Proof.
  unfold redis_lookup. destruct (d !! key) as [e'|]; [|done].
  destruct (entry_live t e') eqn:Hlive; [|done]. by intros [= <-].
Qed.

(** INCR followed by EXPIRE on one key. *)
Lemma incr_then_expire t d key seconds :
  0 < seconds →
  apply_cmd t (apply_cmd t d (INCR key)) (EXPIRE key seconds)
  = <[key := {| value := default 0 (value <$> redis_lookup d key t) + 1;
                expire_at := Some (t + seconds * 1000) |}]> d.
Proof.
  intros Hpos. cbn [apply_cmd]. rewrite (bool_decide_false (seconds ≤ 0)) by lia.
  destruct (redis_lookup d key t) as [e|] eqn:Hfound.
  - rewrite redis_lookup_insert.
    pose proof (redis_lookup_live d key t e Hfound) as Hlive.
    unfold entry_live in *. cbn [expire_at]. rewrite Hlive.
    cbn [value]. by rewrite insert_insert_eq.
  - rewrite redis_lookup_insert. unfold entry_live. cbn [expire_at value].
    by rewrite insert_insert_eq.
Qed.

Lemma check_rate_limit_healthy cfg request pm ph now d :
  RATE_LIMIT_ENABLED cfg = true →
  check_rate_limit cfg request pm ph now {| redis_client := Some (healthy d) |}
  = (let per_minute := or_default pm (RATE_LIMIT_PER_MINUTE cfg) in
     let per_hour := or_default ph (RATE_LIMIT_PER_HOUR cfg) in
     let minute_key := _get_key "minute" (_get_client_ip request) in
     let hour_key := _get_key "hour" (_get_client_ip request) in
     if match value <$> redis_lookup d minute_key (mstime now) with
        | Some c => bool_decide (per_minute ≤ c)
        | None => false
        end
     then ({| redis_client := Some (healthy d) |},
           Return (false,
                   Some ("Rate limit exceeded: " +:+ pretty per_minute +:+
                         " requests per minute")))
     else
       if match value <$> redis_lookup d hour_key (mstime now) with
          | Some c => bool_decide (per_hour ≤ c)
          | None => false
          end
       then ({| redis_client := Some (healthy d) |},
             Return (false,
                     Some ("Rate limit exceeded: " +:+ pretty per_hour +:+
                           " requests per hour")))
       else
         ({| redis_client := Some (healthy
               (<[hour_key :=
                    {| value := default 0
                         (value <$> redis_lookup d hour_key (mstime now)) + 1;
                       expire_at := Some (mstime now + 3600 * 1000) |}]>
                 (<[minute_key :=
                      {| value := default 0
                           (value <$> redis_lookup d minute_key (mstime now))
                           + 1;
                         expire_at := Some (mstime now + 60 * 1000) |}]> d))) |},
          Return (true, None))).
Proof.
  intros Hon. unfold check_rate_limit. rewrite Hon. cbn [negb]. cbv zeta.
  unfold with_client, healthy. cbn [redis_client].
  unfold st_try, st_bind at 1, redis_get at 1, round_trip at 1.
  cbn [faults data tail].
  destruct (match value <$> redis_lookup d _ (mstime now) with
            | Some c => bool_decide (_ ≤ c) | None => false end);
    [reflexivity|].
  unfold st_bind at 1, redis_get at 1, round_trip at 1. cbn [faults data tail].
  destruct (match value <$> redis_lookup d _ (mstime now) with
            | Some c => bool_decide (_ ≤ c) | None => false end);
    [reflexivity|].
  unfold st_bind, redis_pipeline, round_trip, st_ret. cbn [faults data tail].
  cbn [foldl]. rewrite !incr_then_expire by lia.
  rewrite (redis_lookup_insert_ne d (_get_key "minute" _) (_get_key "hour" _))
    by discriminate.
  reflexivity.
Qed.

Lemma rate_limit_from cfg request pm ph (t : nat → datetime) :
  RATE_LIMIT_ENABLED cfg = true →
  let per_minute := or_default pm (RATE_LIMIT_PER_MINUTE cfg) in
  let per_hour := or_default ph (RATE_LIMIT_PER_HOUR cfg) in
  ∀ (r a : nat) d c,
    value <$> redis_lookup d (_get_key "minute" (_get_client_ip request))
                (mstime (t a)) = Some c →
    value <$> redis_lookup d (_get_key "hour" (_get_client_ip request))
                (mstime (t a)) = Some c →
    c + Z.of_nat r = Z.min per_minute per_hour →
    (∀ i, (a ≤ i)%nat → (i < a + r)%nat →
          timegm (t (S i)) < timegm (t i) + 60) →
    (run_all ((λ i, check_rate_limit cfg request pm ph (t i)) <$> seq a (S r))
             {| redis_client := Some (healthy d) |}).2
    = replicate r (Return (true, None))
      ++ [Return (false,
            Some (if bool_decide (per_minute ≤ per_hour)
                  then "Rate limit exceeded: " +:+ pretty per_minute +:+
                       " requests per minute"
                  else "Rate limit exceeded: " +:+ pretty per_hour +:+
                       " requests per hour"))].
Proof.
  intros Hon per_minute per_hour.
  induction r as [|r IH]; intros a d c Hm Hh Hc Hgap.
  - cbn [seq replicate app]. rewrite fmap_cons, run_all_cons.
    rewrite check_rate_limit_healthy by done. cbv zeta.
    fold per_minute per_hour. rewrite Hm, Hh.
    f_equal.
    destruct (bool_decide (per_minute ≤ per_hour)) eqn:Hle;
      [apply bool_decide_eq_true in Hle|apply bool_decide_eq_false in Hle].
    + rewrite bool_decide_true by lia. reflexivity.
    + rewrite bool_decide_false by lia.
      rewrite bool_decide_true by lia. reflexivity.
  - cbn [seq replicate]. rewrite fmap_cons, run_all_cons.
    rewrite check_rate_limit_healthy by done. cbv zeta.
    fold per_minute per_hour. rewrite Hm, Hh.
    rewrite !bool_decide_false by lia. cbn [fst snd].
    change ((Return (true, None) :: replicate r (Return (true, None))) ++ ?l)
      with (Return (true, @None string)
              :: (replicate r (Return (true, None)) ++ l)).
    f_equal.
    apply (IH (S a) _ (c + 1)).
    + rewrite redis_lookup_insert_ne by discriminate.
      rewrite redis_lookup_insert. unfold entry_live. cbn [expire_at].
      rewrite bool_decide_true by (apply mstime_within, Hgap; lia).
      reflexivity.
    + rewrite redis_lookup_insert. unfold entry_live. cbn [expire_at].
      rewrite bool_decide_true
        by (pose proof (mstime_within _ _ 60 (Hgap a ltac:(lia) ltac:(lia)));
            lia).
      reflexivity.
    + lia.
    + intros i Hi Hlt. apply Hgap; lia.
Qed.

(** X16. The request limits are sliding windows: every admitted request
    re-arms both counters.  From counters that are not live, requests of one
    address that follow each other by less than a minute are admitted until
    their number reaches the smaller of the two limits; the next one is
    refused, with the per-minute message if the per-minute limit is the
    smaller or equal one and with the per-hour message otherwise, however
    much time the run has taken. *)
Theorem rate_limit_window_slides cfg request pm ph (t : nat → datetime)
    (n : nat) d :
  RATE_LIMIT_ENABLED cfg = true →
  let per_minute := or_default pm (RATE_LIMIT_PER_MINUTE cfg) in
  let per_hour := or_default ph (RATE_LIMIT_PER_HOUR cfg) in
  redis_lookup d (_get_key "minute" (_get_client_ip request))
               (mstime (t 0%nat)) = None →
  redis_lookup d (_get_key "hour" (_get_client_ip request))
               (mstime (t 0%nat)) = None →
  (∀ i, (i < n)%nat → timegm (t (S i)) < timegm (t i) + 60) →
  (0 < n)%nat →
  Z.of_nat n = Z.min per_minute per_hour →
  (run_all ((λ i, check_rate_limit cfg request pm ph (t i)) <$> seq 0 (S n))
           {| redis_client := Some (healthy d) |}).2
  = replicate n (Return (true, None))
    ++ [Return (false,
          Some (if bool_decide (per_minute ≤ per_hour)
                then "Rate limit exceeded: " +:+ pretty per_minute +:+
                     " requests per minute"
                else "Rate limit exceeded: " +:+ pretty per_hour +:+
                     " requests per hour"))].
Proof.
  intros Hon per_minute per_hour Hm Hh Hgap Hpos Hn.
  destruct n as [|n]; [lia|].
  change (seq 0 (S (S n))) with (0%nat :: seq 1 (S n)).
  rewrite fmap_cons, run_all_cons.
  rewrite check_rate_limit_healthy by done. cbv zeta.
  fold per_minute per_hour. rewrite Hm, Hh. cbn [fmap option_fmap option_map].
  cbn [fst snd replicate].
  change ((Return (true, None) :: replicate n (Return (true, None))) ++ ?l)
    with (Return (true, @None string)
            :: (replicate n (Return (true, None)) ++ l)).
  f_equal.
  apply (rate_limit_from cfg request pm ph t Hon n 1%nat _ 1).
  - rewrite redis_lookup_insert_ne by discriminate.
    rewrite redis_lookup_insert. unfold entry_live. cbn [expire_at].
    rewrite bool_decide_true by (apply mstime_within, Hgap; lia).
    reflexivity.
  - rewrite redis_lookup_insert. unfold entry_live. cbn [expire_at].
    rewrite bool_decide_true
      by (pose proof (mstime_within _ _ 60 (Hgap 0%nat ltac:(lia))); lia).
    reflexivity.
  - fold per_minute per_hour. lia.
  - intros i Hi Hlt. apply Hgap; lia.
Qed.

(** Three requests a minute allowed, requests 59 seconds apart: the fourth
    is refused, almost three minutes after the first. *)
Lemma rate_limit_window_slides_witness :
  (run_all ((λ i, check_rate_limit cfg0 request0 (Some 3) (Some 180)
                    (t0 + Z.of_nat i * 59000000)) <$> seq 0 4)
           {| redis_client := Some (healthy ∅) |}).2
  = [Return (true, None); Return (true, None); Return (true, None);
     Return (false, Some "Rate limit exceeded: 3 requests per minute")].
Proof.
  etrans.
  - apply (rate_limit_window_slides cfg0 request0 (Some 3) (Some 180)
             (λ i, t0 + Z.of_nat i * 59000000) 3 ∅).
    + reflexivity.
    + reflexivity.
    + reflexivity.
    + intros i Hi. destruct i as [|[|[|i]]]; [vm_compute; reflexivity..|lia].
    + lia.
    + reflexivity.
  - vm_compute. reflexivity.
Defined.

(** ** The rate-limit dependencies *)

Lemma st_try_returns {S A} (m : ST S A) (a : A) (s : S) :
  ∃ v, (st_try m (on_Exception (st_ret a)) s).2 = Return v.
Proof.
  unfold st_try, on_Exception, st_ret.
  destruct (m s) as [s1 [v|e]]; cbn [snd]; eauto.
Qed.

Lemma check_rate_limit_returns cfg request pm ph now rl :
  ∃ verdict, (check_rate_limit cfg request pm ph now rl).2 = Return verdict.
Proof.
  unfold check_rate_limit.
  destruct (negb (RATE_LIMIT_ENABLED cfg)); [by eexists|].
  unfold with_client. destruct (redis_client rl) as [r|]; [|by eexists].
  match goal with
  | |- context [st_try ?m (on_Exception (st_ret ?a)) r] =>
      destruct (st_try_returns m a r) as [v Hv];
      destruct (st_try m (on_Exception (st_ret a)) r) as [r1 res]
  end.
  cbn [snd] in *. eauto.
Qed.

(** X17. [check_rate_limit_strict] and [check_rate_limit_moderate] return or
    raise 429 and nothing else, whatever the store does; they raise exactly
    when [check_rate_limit] refuses, with its message as detail; without a
    client or with rate limiting switched off they let every request
    through and touch nothing.  A limit of 0 does not refuse everything: it
    stands for the configured defaults. *)
Theorem rate_limit_dependency_outcomes cfg request limit now rl :
  let out := check_rate_limit_dependency cfg request limit now rl in
  let verdict :=
    (check_rate_limit cfg request (Some limit) (Some (limit * 60)) now rl).2 in
  (∃ allowed msg,
     verdict = Return (allowed, msg) ∧
     out.2 = if allowed then Return ()
             else Raise (HTTPExc {| status_code := 429;
                                    detail := default "Rate limit exceeded" msg;
                                    headers := [] |})) ∧
  (RATE_LIMIT_ENABLED cfg = false ∨ redis_client rl = None →
   out = (rl, Return ())) ∧
  check_rate_limit_dependency cfg request 0 now rl
  = (do verdict <- check_rate_limit cfg request None None now;
     if negb verdict.1
     then raise_http 429 (default "Rate limit exceeded" verdict.2) []
     else st_ret ()) rl.
Proof.
  cbv zeta. split; [|split].
  - destruct (check_rate_limit_returns cfg request (Some limit)
                (Some (limit * 60)) now rl) as [[allowed msg] Hv].
    exists allowed, msg. split; [done|].
    unfold check_rate_limit_dependency, st_bind.
    destruct (check_rate_limit cfg request (Some limit) (Some (limit * 60))
                now rl) as [rl1 res].
    cbn [snd] in Hv. subst res. by destruct allowed.
  - intros Hoff. unfold check_rate_limit_dependency, st_bind, check_rate_limit.
    destruct Hoff as [->| Hnone]; [reflexivity|].
    destruct (negb (RATE_LIMIT_ENABLED cfg)); [reflexivity|].
    unfold with_client. rewrite Hnone. reflexivity.
  - reflexivity.
Qed.

(** A login without an X-Forwarded-For header from the locked-out address
    is refused; the same login naming another address is not, and gets as
    far as the password: it is answered 401. *)
Lemma lockout_keyed_by_forwarded_header_witness :
  let app := {| limiter := {| redis_client := Some (healthy locked_store) |};
                session := open_session db_users |} in
  get_client_ip get_remote_address (forwarded_request "9.9.9.9") = "9.9.9.9" ∧
  status_of
    (@login test_crypt cfg0 LimitCounted (forwarded_request "9.9.9.9")
       wrong_password t0 7 8 app).2 = 401 ∧
  status_of
    (@login test_crypt cfg0 LimitCounted request0 wrong_password t0 7 8 app).2
    = 429.
Proof.
  intros app.
  destruct (@lockout_keyed_by_forwarded_header test_crypt cfg0 LimitCounted
              (forwarded_request "9.9.9.9") wrong_password t0 7 8 locked_store
              (open_session db_users) "9.9.9.9")
    as (_ & Hkey & _ & Hnot).
  - reflexivity.
  - discriminate.
  - reflexivity.
  - vm_compute. reflexivity.
  - split; [exact Hkey|]. split.
    + destruct (Z.eq_dec
        (status_of
           (@login test_crypt cfg0 LimitCounted (forwarded_request "9.9.9.9")
              wrong_password t0 7 8 app).2) 429) as [H429|_].
      * destruct (Hnot H429) as (limit & Hcheck & _). discriminate Hcheck.
      * vm_compute. reflexivity.
    + vm_compute. reflexivity.
Defined.

Example locked_out_without_the_header :
  status_of
    (@login_body test_crypt cfg0 request0 wrong_password t0 7 8
       {| limiter := {| redis_client := Some (healthy locked_store) |};
          session := open_session db_users |}).2 = 429.
Proof. vm_compute. reflexivity. Qed.

(** ** Login and the activity flag *)

Lemma login_returns `{CryptContext} cfg request form now ua ur app app' pair :
  login_body cfg request form now ua ur app = (app', Return pair) →
  ∃ u issued,
    head (filter (λ x, email x = username form)
                 (users (working (session app)))) = Some u ∧
    verify_password (password form) (hashed_password u) = true ∧
    create_refresh_token cfg u (Some (user_agent request))
      (Some (_get_client_ip request)) now ur (session app)
      = (session app', Return issued) ∧
    pair = {| access_token :=
                create_access_token cfg (sub_only (email u)) None now ua;
              refresh_token := issued.1;
              pair_token_type := "bearer";
              expires_in := ACCESS_TOKEN_EXPIRE_MINUTES cfg * 60 |}.
Proof.
  destruct app as [rl sess]. cbn [session]. unfold login_body.
  unfold st_bind at 1, in_limiter at 1. cbn [limiter session].
  destruct (record_failed_login _ _ _ rl) as [rl1 [[count locked]|e]];
    [|discriminate].
  destruct locked.
  - unfold st_bind at 1, in_limiter at 1. cbn [limiter session].
    destruct (get_lockout_ttl _ _ rl1) as [rl2 [ttl|e]]; discriminate.
  - unfold st_bind at 1, in_session at 1, get_user_by_email.
    st_unfold. cbv beta iota. cbn [session limiter].
    destruct (head (filter _ (users (working sess)))) as [u|].
    + destruct (verify_password (password form) (hashed_password u)) eqn:Hpw;
        cbn [negb].
      * unfold in_limiter, in_session. cbn [limiter session].
        destruct (reset_failed_logins _ rl1) as [rl2 [[]|e]]; [|discriminate].
        cbn [limiter session].
        destruct (create_refresh_token _ _ _ _ _ _ sess) as [s' [issued|e]]
          eqn:Hcreate; [|discriminate].
        intros [= <- <-]. exists u, issued. cbn [session].
        split; [done|]. split; [done|]. split; [exact Hcreate|done].
      * unfold in_limiter. cbn [limiter session].
        destruct (get_remaining_attempts _ _ _ rl1) as [rl2 [remaining|e]];
          discriminate.
    + unfold in_limiter. cbn [limiter session].
      destruct (get_remaining_attempts _ _ _ rl1) as [rl2 [remaining|e]];
        discriminate.
Qed.

(** What [verify_refresh_token] needs of the subject of a token it
    accepts. *)
Lemma verify_result_user cfg token now db u t :
  verify_result cfg token now db = Return (u, t) →
  ∃ mail, claims_of token ≫= c_sub = Some mail ∧
          head (filter (λ x, email x = mail) (users db)) = Some u ∧
          is_active u = true.
Proof.
  rewrite verify_result_unfold. intros Hv.
  destruct (jwt_decode token (SECRET_KEY cfg) true now) as [e|c] eqn:Hd;
    [done|].
  rewrite (jwt_decode_claims _ _ _ _ _ Hd). cbn [mbind option_bind].
  destruct (negb (bool_decide (c_type c = Some "refresh"))); [done|].
  destruct (c_jti c) as [j|]; [|done].
  destruct (c_sub c) as [mail|]; [|done].
  destruct (negb (truthy (Some j)) || negb (truthy (Some mail))); [done|].
  destruct (head (filter _ (refresh_token_table db))) as [t'|]; [|done].
  destruct (negb (is_valid t' now)); [done|].
  destruct (head (filter _ (users db))) as [u'|] eqn:Hu; [|done].
  destruct (is_active u') eqn:Hact; cbn [negb] in Hv; [|done].
  injection Hv as <- <-. eauto.
Qed.

(** A body that returns has found the user of that email and verified the
    password, and has stored an unrevoked refresh-token row for that user;
    if the user is inactive, neither validator ever accepts either token
    of the pair while the users stay as they are. *)
Lemma login_body_grants `{CryptContext} cfg request form now
    ua ur app app' pair :
  login_body cfg request form now ua ur app = (app', Return pair) →
  ∃ u,
    head (filter (λ x, email x = username form)
                 (users (working (session app)))) = Some u ∧
    verify_password (password form) (hashed_password u) = true ∧
    (∃ row, row ∈ refresh_token_table (durable (session app')) ∧
            rt_user_id row = user_id u ∧ revoked row = false) ∧
    (is_active u = false →
     ∀ later db', users db' = users (working (session app)) →
       (∀ v, (get_current_user cfg (access_token pair) later
                (open_session db')).2 ≠ Return v) ∧
       (∀ v, verify_result cfg (refresh_token pair) later db' ≠ Return v)).
Proof.
  intros Hrun.
  apply login_returns in Hrun as (u & issued & Hu & Hpw & Hcreate & ->).
  exists u. split; [done|]. split; [done|].
  rewrite create_refresh_token_run in Hcreate.
  destruct (bool_decide (uuid_str ur ∈ _)); [discriminate|].
  cbv zeta in Hcreate. injection Hcreate as Hs Hissued.
  pose proof (head_filter_Some _ _ _ Hu) as [_ Hmail].
  split.
  - rewrite <- Hs. unfold durable. cbn [commits head default].
    eexists. split.
    + cbn. apply elem_of_app. right. apply list_elem_of_here.
    + done.
  - intros Hinactive later db' Husers. cbn [access_token refresh_token].
    split.
    + intros v Hv. apply get_current_user_returns in Hv
        as (payload & mail & Htok & _ & _ & Hsub & Hfound & Hact).
      unfold create_access_token, jwt_encode in Htok.
      injection Htok as <-. cbn in Hsub. injection Hsub as <-.
      rewrite Husers, Hmail, Hu in Hfound. injection Hfound as <-.
      congruence.
    + intros [v t] Hv. apply verify_result_user in Hv
        as (mail & Hsub & Hfound & Hact).
      rewrite <- Hissued in Hsub. cbn in Hsub. injection Hsub as <-.
      rewrite Husers, Hmail, Hu in Hfound. injection Hfound as <-.
      congruence.
Qed.

Lemma reset_failed_logins_returns identifier rl :
  (reset_failed_logins identifier rl).2 = Return ().
Proof.
  unfold reset_failed_logins, with_client.
  destruct (redis_client rl) as [r|]; [|done].
  match goal with
  | |- context [st_try ?m (on_Exception (st_ret ?a)) r] =>
      destruct (st_try_returns m a r) as [[] Hv];
      destruct (st_try m (on_Exception (st_ret a)) r) as [r1 res]
  end.
  exact Hv.
Qed.

(** The body returns a pair as soon as the guard does not lock the attempt
    out, the email is that of a user, the password is right and the
    unique-id drawn is new. *)
Lemma login_body_succeeds `{CryptContext} cfg request form now ua ur app u c :
  (record_failed_login cfg
     (_get_client_ip request +:+ ":" +:+ username form) now (limiter app)).2
    = Return (c, false) →
  head (filter (λ x, email x = username form)
               (users (working (session app)))) = Some u →
  verify_password (password form) (hashed_password u) = true →
  uuid_str ur ∉ rt_jti <$> refresh_token_table (working (session app)) →
  ∃ app' pair, login_body cfg request form now ua ur app = (app', Return pair).
Proof.
  destruct app as [rl sess]. cbn [limiter session].
  intros Hrec Hu Hpw Hfresh. unfold login_body.
  unfold st_bind at 1, in_limiter at 1. cbn [limiter session].
  destruct (record_failed_login _ _ _ rl) as [rl1 r]. cbn [snd] in Hrec.
  subst r. cbv beta iota.
  unfold st_bind at 1, in_session at 1, get_user_by_email.
  st_unfold. cbv beta iota. cbn [session limiter].
  rewrite Hu, Hpw. cbn [negb]. cbv iota.
  unfold in_limiter, in_session. cbn [limiter session].
  pose proof (reset_failed_logins_returns
                (_get_client_ip request +:+ ":" +:+ username form) rl1)
    as Hreset.
  destruct (reset_failed_logins _ rl1) as [rl2 r]. cbn [snd] in Hreset.
  subst r. cbn [limiter session].
  rewrite create_refresh_token_run. rewrite bool_decide_false by done.
  cbv zeta. eauto.
Qed.

(** X18. [login] does not look at [is_active].  Whenever the guard does
    not lock the attempt out, the email is that of a user, active or not,
    the password is right and the unique-id drawn is new, the body of
    [login] returns a token pair and has committed an unrevoked
    refresh-token row for that user.  Through the decorator the pair
    reaches the client only when the key of the request is empty; when the
    request was counted against the limits of the route the row is
    committed all the same and the answer is the exception of the header
    injection.  If the user is inactive, neither validator ever accepts
    either token of the pair while the users stay as they are. *)
Theorem login_does_not_check_is_active `{CryptContext} cfg check request form
    now ua ur app u c :
  (record_failed_login cfg
     (_get_client_ip request +:+ ":" +:+ username form) now (limiter app)).2
    = Return (c, false) →
  head (filter (λ x, email x = username form)
               (users (working (session app)))) = Some u →
  verify_password (password form) (hashed_password u) = true →
  uuid_str ur ∉ rt_jti <$> refresh_token_table (working (session app)) →
  let body := login_body cfg request form now ua ur app in
  let route := login cfg check request form now ua ur app in
  ∃ pair,
    body.2 = Return pair ∧
    (∃ row, row ∈ refresh_token_table (durable (session body.1)) ∧
            rt_user_id row = user_id u ∧ revoked row = false) ∧
    (get_client_ip get_remote_address request = "" → route = body) ∧
    (get_client_ip get_remote_address request ≠ "" → check = LimitCounted →
     route = (body.1, Raise (PlainException response_required))) ∧
    (is_active u = false →
     ∀ later db', users db' = users (working (session app)) →
       (∀ v, (get_current_user cfg (access_token pair) later
                (open_session db')).2 ≠ Return v) ∧
       (∀ v, verify_result cfg (refresh_token pair) later db' ≠ Return v)).
Proof.
  intros Hrec Hu Hpw Hfresh body route.
  destruct (login_body_succeeds cfg request form now ua ur app u c
              Hrec Hu Hpw Hfresh) as (app' & pair & Hrun).
  destruct (login_body_grants cfg request form now ua ur app app' pair Hrun)
    as (u' & Hu' & _ & Hrow & Hinactive).
  rewrite Hu in Hu'. injection Hu' as <-.
  exists pair. unfold route, login. rewrite limiter_limit_run.
  unfold body. rewrite Hrun. cbn [fst snd].
  split; [done|]. split; [exact Hrow|]. split; [|split].
  - intros Hempty. by rewrite bool_decide_true.
  - intros Hkey ->. by rewrite bool_decide_false.
  - exact Hinactive.
Qed.

(** The inactive user logs in with the right password: the body returns a
    pair and the refresh row of user 2 is committed, while the client,
    counted under its address, is answered with the exception of the
    decorator. *)
Lemma login_does_not_check_is_active_witness :
  let app := {| limiter := {| redis_client := Some (healthy ∅) |};
                session := open_session db_users |} in
  let route := @login test_crypt cfg0 LimitCounted request0 bob_password
                      t0 7 8 app in
  is_active bob_inactive = false ∧
  (∃ pair, (@login_body test_crypt cfg0 request0 bob_password t0 7 8 app).2
           = Return pair) ∧
  route.2 = Raise (PlainException response_required) ∧
  ∃ row, row ∈ refresh_token_table (durable (session route.1)) ∧
         rt_user_id row = 2 ∧ revoked row = false.
Proof.
  intros app route.
  destruct (@login_does_not_check_is_active test_crypt cfg0 LimitCounted
              request0 bob_password t0 7 8 app bob_inactive 1)
    as (pair & Hbody & Hrow & _ & Hroute & _).
  - vm_compute. reflexivity.
  - vm_compute. reflexivity.
  - vm_compute. reflexivity.
  - apply (bool_decide_unpack _). vm_compute. exact I.
  - split; [reflexivity|]. split; [by exists pair|].
    unfold route. rewrite Hroute; [|vm_compute; discriminate|reflexivity].
    split; [reflexivity|exact Hrow].
Defined.

Example inactive_user_logs_in :
  status_of
    (@login_body test_crypt cfg0 request0 bob_password t0 7 8
       {| limiter := {| redis_client := Some (healthy ∅) |};
          session := open_session db_users |}).2 = 200.
Proof. vm_compute. reflexivity. Qed.

(** ** The unique keys of the token tables *)

Lemma NoDup_fmap_filter {A B} (f : A → B) (P : A → Prop)
    `{∀ x, Decision (P x)} (l : list A) :
  NoDup (f <$> l) → NoDup (f <$> filter P l).
Proof.
  induction l as [|a l IH]; [done|].
  rewrite fmap_cons, NoDup_cons. intros [Ha Hl].
  rewrite filter_cons. destruct (decide (P a)); [|by apply IH].
  rewrite fmap_cons, NoDup_cons. split; [|by apply IH].
  intros Hin. apply Ha.
  apply list_elem_of_fmap in Hin as (y & Hy & Hin).
  apply list_elem_of_filter in Hin as [_ Hin].
  apply list_elem_of_fmap. eauto.
Qed.

Lemma NoDup_fmap_snoc {A B} (f : A → B) (l : list A) (x : A) :
  NoDup (f <$> l) → f x ∉ f <$> l → NoDup (f <$> (l ++ [x])).
Proof.
  intros Hl Hx. rewrite fmap_app. apply NoDup_app. split; [done|].
  split; [|apply NoDup_singleton].
  intros y Hy Hy'. apply list_elem_of_singleton in Hy'. by subst y.
Qed.

Lemma fmap_keys_fixed {A B} (key : A → B) (g : A → A) (l : list A) :
  (∀ r, r ∈ l → key (g r) = key r) → key <$> (g <$> l) = key <$> l.
Proof.
  induction l as [|a l IH]; intros Hg; [done|].
  rewrite !fmap_cons, IH, Hg; [done|left|].
  intros r Hr. apply Hg. by right.
Qed.

Lemma next_id_fresh (ids : list Z) : next_id ids ∉ ids.
Proof. intros Hin. apply next_id_above in Hin. lia. Qed.

Lemma keys_kept_open db : keys_unique db → keys_kept (open_session db).
Proof.
  intros Hdb. split; [done|]. intros d Hd. by apply elem_of_nil in Hd.
Qed.

Lemma keys_kept_block kind jti expires_at uid why now s :
  keys_kept s → keys_kept (block_token kind jti expires_at uid why now s).1.
Proof.
  intros [Hw Hc]. rewrite block_token_run.
  destruct (head (filter _ _)) as [existing|] eqn:Hfound; [by split|].
  cbv zeta. cbn [fst].
  assert (keys_unique
            (with_token_blocklist
               (λ l, l ++ [{| bl_id := next_id (bl_id <$> token_blocklist (working s));
                              bl_jti := jti; token_type := kind;
                              bl_user_id := uid; bl_expires_at := expires_at;
                              bl_revoked_at := now; reason := why |}])
               (working s))) as Hnew.
  { destruct Hw as (Hid & Hjti & Hreg). split; [done|]. split; [done|].
    unfold registry_unique. cbn [with_token_blocklist token_blocklist].
    apply NoDup_fmap_snoc; [done|]. cbn [bl_jti].
    intros Hin. apply list_elem_of_fmap in Hin as (b & Hb & Hin).
    by apply (proj1 (head_filter_None _ _) Hfound b). }
  split; [exact Hnew|].
  intros d Hd. cbn [commits] in Hd.
  apply elem_of_cons in Hd as [->|Hd]; [exact Hnew|by apply Hc].
Qed.

Lemma keys_kept_commit s : keys_kept s → keys_kept (db_commit s).1.
Proof.
  intros [Hw Hc]. split; [done|]. intros d Hd. cbn in Hd.
  apply elem_of_cons in Hd as [->|Hd]; [done|by apply Hc].
Qed.

Lemma keys_unique_revoked (g : RefreshToken → RefreshToken) db :
  (∀ r, r ∈ refresh_token_table db →
        rt_id (g r) = rt_id r ∧ rt_jti (g r) = rt_jti r) →
  keys_unique db → keys_unique (with_refresh_tokens (fmap g) db).
Proof.
  intros Hg (Hid & Hjti & Hreg).
  unfold keys_unique, id_unique, jti_unique.
  cbn [with_refresh_tokens refresh_token_table].
  rewrite !fmap_keys_fixed by (intros r Hr; by apply Hg). done.
Qed.

Lemma keys_kept_update now t s :
  t ∈ refresh_token_table (working s) →
  keys_kept s → keys_kept (db_update_refresh_token (revoke t now) s).1.
Proof.
  intros Ht [Hw Hc]. split; [|exact Hc]. cbn.
  apply keys_unique_revoked; [|done].
  intros r Hr. case_bool_decide as Hid; [|done]. cbn [revoke rt_id rt_jti] in *.
  destruct Hw as (Hids & _).
  by rewrite (NoDup_fmap_elem_inj rt_id _ r t Hids Hr Ht Hid).
Qed.

Lemma keys_kept_bulk uid now s :
  keys_kept s → keys_kept (revoke_all_user_tokens uid now s).1.
Proof.
  intros [Hw Hc]. rewrite revoke_all_user_tokens_effect. cbv zeta. cbn [fst].
  assert (keys_unique
            (with_refresh_tokens
               (fmap (λ r, if bool_decide (rt_user_id r = uid ∧ revoked r = false)
                           then revoke r now else r)) (working s))) as Hnew.
  { apply keys_unique_revoked; [|done]. intros r _. by case_bool_decide. }
  split; [exact Hnew|]. intros d Hd. cbn [commits] in Hd.
  apply elem_of_cons in Hd as [->|Hd]; [exact Hnew|by apply Hc].
Qed.

Lemma keys_kept_create cfg user device ip now uuid4 s :
  keys_kept s →
  keys_kept (create_refresh_token cfg user device ip now uuid4 s).1.
Proof.
  intros [Hw Hc]. rewrite create_refresh_token_run.
  case_bool_decide as Hin; [by split|]. cbv zeta. cbn [fst].
  match goal with
  | |- keys_kept {| opened_on := _; commits := ?w :: _; working := _ |} =>
      assert (keys_unique w) as Hnew
  end.
  { destruct Hw as (Hid & Hjti & Hreg). split; [|split; [|done]].
    - unfold id_unique. cbn [with_refresh_tokens refresh_token_table].
      apply NoDup_fmap_snoc; [done|]. cbn [rt_id]. apply next_id_fresh.
    - unfold jti_unique. cbn [with_refresh_tokens refresh_token_table].
      apply NoDup_fmap_snoc; [done|]. exact Hin. }
  split; [exact Hnew|]. intros d Hd. cbn [commits] in Hd.
  apply elem_of_cons in Hd as [->|Hd]; [exact Hnew|by apply Hc].
Qed.

Lemma keys_kept_cleanup now s :
  keys_kept s → keys_kept (cleanup_expired_tokens now s).1.
Proof.
  intros [Hw Hc]. unfold cleanup_expired_tokens. st_unfold. cbn [fst working].
  match goal with
  | |- keys_kept {| opened_on := _; commits := ?w :: _; working := _ |} =>
      assert (keys_unique w) as Hnew
  end.
  { destruct Hw as (Hid & Hjti & Hreg). split; [|split].
    - unfold id_unique. cbn. by apply NoDup_fmap_filter.
    - unfold jti_unique. cbn. by apply NoDup_fmap_filter.
    - unfold registry_unique. cbn. by apply NoDup_fmap_filter. }
  split; [exact Hnew|]. intros d Hd. cbn [commits] in Hd.
  apply elem_of_cons in Hd as [->|Hd]; [exact Hnew|by apply Hc].
Qed.

Lemma keys_kept_refresh_tokens cfg request body now ua ur s :
  keys_kept s → keys_kept (refresh_tokens cfg request body now ua ur s).1.
Proof.
  intros Hs. rewrite refresh_tokens_session.
  destruct (verify_result _ _ _ _) as [[u t]|e] eqn:Hv; [|done].
  apply verify_result_returns in Hv
    as (payload & jti & mail & _ & _ & _ & _ & _ & _ & _ & Hin & _).
  by apply keys_kept_create, keys_kept_block, keys_kept_update.
Qed.

Lemma keys_kept_logout cfg request body now s :
  keys_kept s → keys_kept (logout cfg request body now s).1.
Proof.
  intros Hs.
  destruct (logout_session cfg request body now s) as [-> | ->]; [|done].
  assert (keys_kept (logout_access cfg request now s).1) as Ha.
  { rewrite logout_access_run.
    destruct (presented_access cfg request now) as [[[jti e] sub]|];
      [case_bool_decide|]; cbv beta iota zeta; cbn [fst]; [|done..].
    by apply keys_kept_block. }
  set (sa := (logout_access cfg request now s).1) in *.
  rewrite logout_refresh_run.
  destruct (presented_refresh body) as [token|]; [|done].
  destruct (verify_result cfg token now (working sa)) as [[u t]|e] eqn:Hv;
    [|done].
  apply verify_result_returns in Hv
    as (payload & jti & mail & _ & _ & _ & _ & _ & _ & _ & Hin & _).
  cbv zeta. cbn [fst].
  by apply keys_kept_commit, keys_kept_block, keys_kept_update.
Qed.

Lemma keys_kept_logout_all cfg request user now s :
  keys_kept s → keys_kept (logout_all_devices cfg request user now s).1.
Proof.
  intros Hs. rewrite logout_all_devices_run. cbv zeta. cbn [fst].
  pose proof (keys_kept_bulk (user_id user) now s Hs) as HA.
  destruct (presented_access cfg request now) as [[[jti e] sub]|]; [|done].
  case_bool_decide; [|done]. cbn [fst].
  by apply keys_kept_block.
Qed.

Lemma handler_run_keys `{CryptContext} cfg db s :
  handler_run cfg db s → keys_unique db → keys_kept s.
Proof.
  intros Hrun Hdb. apply keys_kept_open in Hdb.
  destruct Hrun as [user device ip now uuid4|check request form now ua ur rl
                   |request body now ua ur|request body now
                   |request user now|uid now|token now|token now|now].
  - by apply keys_kept_create.
  - apply (login_session cfg check request form now ua ur
             {| limiter := rl; session := open_session db |} keys_kept);
      [done|]. intros u ip. by apply keys_kept_create.
  - by apply keys_kept_refresh_tokens.
  - by apply keys_kept_logout.
  - by apply keys_kept_logout_all.
  - by apply keys_kept_bulk.
  - by rewrite verify_refresh_token_run.
  - rewrite get_current_user_by_checks.
    by destruct (validate_in_order _ _ _ _ _).
  - by apply keys_kept_cleanup.
Qed.

Lemma reachable_keys_kept `{CryptContext} cfg db :
  reachable cfg db → keys_unique db.
Proof.
  induction 1 as [|db db' _ IH Hstep].
  - repeat split; apply NoDup_nil_2.
  - destruct Hstep as [db s d Hrun Hd|db f]; [|exact IH].
    by apply (handler_run_keys cfg db s Hrun IH).
Qed.

(** X19. In every state the subsystem can reach, no two entries of the
    revocation registry share a unique-id, however often a token is
    presented for blocking: [block_token] looks for an entry of the
    unique-id before it inserts one, and nothing else writes the registry
    but the cleanup, which only deletes. *)
Theorem reachable_registry_unique `{CryptContext} cfg db :
  reachable cfg db → registry_unique db.
Proof. intros Hreach. by apply (reachable_keys_kept cfg db Hreach). Qed.

(** Alice logs out with her access token and one of her two refresh
    tokens, then calls logout-all with the same access token: the registry
    holds the unique-id of the access token once. *)
Lemma reachable_registry_unique_witness :
  bl_jti <$> token_blocklist (durable logged_out_all_session)
    = ["j-a1"; uuid_str 5] ∧
  registry_unique (durable logged_out_all_session).
Proof.
  split; [vm_compute; reflexivity|].
  exact (@reachable_registry_unique test_crypt cfg0
           (durable logged_out_all_session) logged_out_all_reachable).
Defined.

(** ** The address read from the forwarding header *)

Lemma free_of_first_segment s : free_of "," (first_segment s) = true.
Proof.
  induction s as [|a s IH]; [done|]. cbn [first_segment].
  destruct (bool_decide (a = ","%char)) eqn:Ha; [done|].
  cbn [free_of]. by rewrite Ha, IH.
Qed.

Lemma first_segment_all s : free_of "," s = true → first_segment s = s.
Proof.
  induction s as [|a s IH]; [done|]. cbn [free_of first_segment].
  destruct (bool_decide (a = ","%char)); [done|]. cbn [negb andb].
  intros Hs. by rewrite IH.
Qed.

Lemma free_of_lstrip c s : free_of c s = true → free_of c (lstrip s) = true.
Proof.
  induction s as [|a s IH]; [done|]. cbn [lstrip].
  destruct (is_space a); [|done]. cbn [free_of].
  intros [_ Hs]%andb_prop. by apply IH.
Qed.

Lemma free_of_rstrip c s : free_of c s = true → free_of c (rstrip s) = true.
Proof.
  induction s as [|a s IH]; [done|]. cbn [free_of rstrip].
  intros [Ha Hs]%andb_prop. specialize (IH Hs).
  destruct (rstrip s) as [|b r].
  - destruct (is_space a); [done|]. cbn [free_of]. by rewrite Ha.
  - remember (String b r) as tail. cbn [free_of]. by rewrite Ha, IH.
Qed.

Lemma lstrip_trimmed s : starts_with_space (lstrip s) = false.
Proof.
  induction s as [|a s IH]; [done|]. cbn [lstrip].
  destruct (is_space a) eqn:Ha; [done|]. cbn [starts_with_space]. done.
Qed.

Lemma lstrip_all s : starts_with_space s = false → lstrip s = s.
Proof. destruct s as [|a s]; [done|]. cbn. by intros ->. Qed.

Lemma rstrip_trimmed s : ends_with_space (rstrip s) = false.
Proof.
  induction s as [|a s IH]; [done|]. cbn [rstrip].
  destruct (rstrip s) as [|b r].
  - by destruct (is_space a) eqn:Ha; cbn [ends_with_space].
  - exact IH.
Qed.

Lemma rstrip_all s : ends_with_space s = false → rstrip s = s.
Proof.
  induction s as [|a s IH]; [done|]. cbn [rstrip].
  destruct s as [|b r].
  - cbn. by intros ->.
  - intros Hs. rewrite IH; [done|exact Hs].
Qed.

Lemma rstrip_keeps_start s :
  starts_with_space s = false → starts_with_space (rstrip s) = false.
Proof.
  destruct s as [|a s]; [done|]. cbn [starts_with_space rstrip]. intros Ha.
  destruct (rstrip s); [by rewrite Ha|done].
Qed.

(** X20. When a request carries a non-empty X-Forwarded-For header, the
    limiter's [_get_client_ip] and slowapi's key function [get_client_ip]
    name the client by the same string: the header's first entry, which has
    no comma in it and no white space around it, and which is the header
    value itself when that is so already.  The audit context records the
    address of the peer all the same. *)
Theorem client_address_from_header gra request current_user v :
  req_headers request !! "x-forwarded-for" = Some v → v ≠ "" →
  let address := _get_client_ip request in
  address = strip (first_segment v) ∧
  get_client_ip gra request = address ∧
  free_of "," address = true ∧
  starts_with_space address = false ∧
  ends_with_space address = false ∧
  (free_of "," v = true → starts_with_space v = false →
   ends_with_space v = false → address = v) ∧
  audit_ip_address (get_audit_context request current_user)
  = client_host request.
Proof.
  intros Hv Hne. cbv zeta.
  rewrite (_get_client_ip_forwarded request v Hv Hne).
  split; [done|]. split.
  { unfold get_client_ip. rewrite Hv. unfold truthy.
    by rewrite bool_decide_false. }
  unfold strip. split; [|split; [|split; [|split]]].
  - apply free_of_rstrip, free_of_lstrip, free_of_first_segment.
  - apply rstrip_keeps_start, lstrip_trimmed.
  - apply rstrip_trimmed.
  - intros Hcomma Hstart Hend.
    by rewrite first_segment_all, lstrip_all, rstrip_all.
  - reflexivity.
Qed.

Lemma client_address_from_header_witness :
  _get_client_ip (forwarded_request " 9.9.9.9 , 10.0.0.1") = "9.9.9.9" ∧
  get_client_ip (λ _, "1.2.3.4") (forwarded_request " 9.9.9.9 , 10.0.0.1")
  = "9.9.9.9".
Proof.
  destruct (client_address_from_header (λ _, "1.2.3.4")
              (forwarded_request " 9.9.9.9 , 10.0.0.1") None
              " 9.9.9.9 , 10.0.0.1") as (Ha & Hg & _).
  - reflexivity.
  - discriminate.
  - rewrite Hg, Ha. split; vm_compute; reflexivity.
Defined.

(** ** Account deletion *)

Lemma delete_me_run `{CryptContext} current_user now stamp secret db :
  run_request (delete_me current_user now stamp secret) db
  = match head (filter (λ u, user_id u = user_id current_user) (users db)) with
    | None =>
        (db, Raise (HTTPExc {| status_code := 404; detail := "User not found";
                               headers := [] |}))
    | Some user =>
        (with_users
           (fmap (λ u, if bool_decide (user_id u = user_id user)
                       then {| user_id := user_id user;
                               email := deleted_email (user_id user) stamp;
                               hashed_password := get_password_hash secret;
                               is_active := false |}
                       else u))
           (with_refresh_tokens
              (fmap (λ r, if bool_decide (rt_user_id r = user_id user ∧
                                          revoked r = false)
                          then revoke r now else r)) db),
         Return {| response_status := 204 |})
    end.
Proof.
  unfold run_request, delete_me. unfold st_bind at 1, db_read at 1.
  cbn [working open_session].
  destruct (head (filter _ (users db))) as [user|]; [|reflexivity].
  unfold st_bind at 1. rewrite revoke_all_user_tokens_effect. cbv zeta.
  reflexivity.
Qed.

(** X21. [delete_me] answers 404 and changes nothing when no user has the
    caller's id.  Otherwise it answers 204, and afterwards every refresh
    token row of the user is revoked and the account is inactive, the other
    users being as they were; so neither [get_current_user] nor
    [verify_refresh_token] nor the WebSocket endpoint ever returns that
    user again, whatever token is presented.  It writes nothing to the
    registry: the caller's access token is turned down for its subject, not
    as revoked. *)
Theorem delete_me_locks_the_account `{CryptContext} cfg current_user now stamp
    secret db :
  let out := run_request (delete_me current_user now stamp secret) db in
  let uid := user_id current_user in
  (head (filter (λ u, user_id u = uid) (users db)) = None →
   out = (db, Raise (HTTPExc {| status_code := 404; detail := "User not found";
                                headers := [] |}))) ∧
  (is_Some (head (filter (λ u, user_id u = uid) (users db))) →
   out.2 = Return {| response_status := 204 |} ∧
   token_blocklist out.1 = token_blocklist db ∧
   (∀ r, r ∈ refresh_token_table out.1 → rt_user_id r = uid →
         revoked r = true) ∧
   (∀ u, u ∈ users out.1 → user_id u = uid → is_active u = false) ∧
   (∀ u, u ∈ users db → user_id u ≠ uid → u ∈ users out.1) ∧
   (∀ token later u,
      (get_current_user cfg token later (open_session out.1)).2 = Return u →
      user_id u ≠ uid) ∧
   (∀ token later u t,
      verify_result cfg token later out.1 = Return (u, t) →
      user_id u ≠ uid ∧ rt_user_id t ≠ uid) ∧
   (∀ token later u,
      (websocket_endpoint cfg token later (open_session out.1)).2
        = Return (WsConnected u) →
      user_id u ≠ uid)).
Proof.
  cbv zeta. rewrite delete_me_run. split.
  - by intros ->.
  - intros [user Huser]. rewrite Huser. cbn [fst snd].
    pose proof (head_filter_Some _ _ _ Huser) as [_ Hid]. rewrite Hid.
    set (db1 := with_users _ _).
    assert (∀ u, u ∈ users db1 → user_id u = user_id current_user →
                 is_active u = false) as Hoff.
    { intros u Hu Hu_id. cbn in Hu.
      apply list_elem_of_fmap in Hu as (u0 & -> & _).
      case_bool_decide as Hc; [done|]. by destruct Hc. }
    assert (∀ r, r ∈ refresh_token_table db1 →
                 rt_user_id r = user_id current_user → revoked r = true)
      as Hrevoked.
    { intros r Hr Hr_id. cbn in Hr.
      apply list_elem_of_fmap in Hr as (r0 & -> & _).
      case_bool_decide as Hc; [done|].
      destruct (revoked r0) eqn:Hrev; [done|]. exfalso. by apply Hc. }
    split; [done|]. split; [done|]. split; [exact Hrevoked|].
    split; [exact Hoff|]. split; [|split; [|split]].
    + intros u Hu Hne. cbn. apply list_elem_of_fmap. exists u.
      split; [|done]. by rewrite bool_decide_false.
    + intros token later u Hv Hu_id.
      apply get_current_user_returns in Hv
        as (payload & mail & _ & _ & _ & _ & Hfound & Hact).
      apply head_filter_Some in Hfound as [Hin _].
      by rewrite (Hoff u Hin Hu_id) in Hact.
    + intros token later u t Hv.
      pose proof (verify_result_user _ _ _ _ _ _ Hv)
        as (mail & _ & Hfound & Hact).
      apply verify_result_returns in Hv
        as (p & j & m & _ & _ & _ & _ & _ & _ & _ & Hin & Hrev).
      apply head_filter_Some in Hfound as [Hu _].
      split; intros Hid'.
      * by rewrite (Hoff u Hu Hid') in Hact.
      * by rewrite (Hrevoked t Hin Hid') in Hrev.
    + intros token later u Hv Hu_id.
      rewrite websocket_endpoint_run in Hv. cbn [snd working open_session] in Hv.
      destruct (negb (token_nonempty token)); [discriminate|].
      destruct (jwt_decode token (SECRET_KEY cfg) true later) as [e|payload];
        [discriminate|].
      destruct (c_sub payload) as [mail|]; [|discriminate].
      destruct (head (filter _ (users db1))) as [u'|] eqn:Hfound;
        [|discriminate].
      apply head_filter_Some in Hfound as [Hin _].
      destruct (is_active u') eqn:Hact; cbn [negb] in Hv; [|discriminate].
      injection Hv as ->. by rewrite (Hoff u Hin Hu_id) in Hact.
Qed.

(** ** Registration *)

Lemma register_run `{CryptContext} cfg request user_in now ua ur db :
  run_request (register_body cfg request user_in now ua ur) db
  = match head (filter (λ u, email u = username user_in) (users db)) with
    | Some existing =>
        (db, Raise (HTTPExc {| status_code := 400;
                               detail := "האימייל כבר במערכת";
                               headers := [] |}))
    | None =>
        let user :=
          {| user_id := next_id (user_id <$> users db);
             email := username user_in;
             hashed_password := get_password_hash (password user_in);
             is_active := true |} in
        let db1 := with_users (λ l, l ++ [user]) db in
        if bool_decide (uuid_str ur ∈ rt_jti <$> refresh_token_table db)
        then (db1, Raise IntegrityError)
        else
          let row :=
            {| rt_id := next_id (rt_id <$> refresh_token_table db);
               rt_user_id := user_id user; rt_jti := uuid_str ur;
               rt_expires_at :=
                 now + timedelta_days (REFRESH_TOKEN_EXPIRE_DAYS cfg);
               rt_created_at := now; revoked := false; revoked_at := None;
               device_info := req_headers request !! "user-agent";
               ip_address := client_host request |} in
          (with_refresh_tokens (λ l, l ++ [row]) db1,
           Return {| access_token :=
                       create_access_token cfg (sub_only (username user_in))
                                           None now ua;
                     refresh_token :=
                       jwt_encode
                         {| c_sub := Some (username user_in);
                            c_jti := Some (uuid_str ur);
                            c_type := Some "refresh";
                            c_exp := Some (timegm (now + timedelta_days
                                       (REFRESH_TOKEN_EXPIRE_DAYS cfg))) |}
                         (SECRET_KEY cfg);
                     pair_token_type := "bearer";
                     expires_in := ACCESS_TOKEN_EXPIRE_MINUTES cfg * 60 |})
    end.
Proof.
  unfold run_request, register_body. unfold st_bind at 1, db_read at 1.
  cbn [working open_session].
  destruct (head (filter _ (users db))) as [existing|]; [reflexivity|].
  cbv zeta. unfold st_bind at 1, db_write at 1. cbn [working open_session].
  unfold st_bind at 1, db_commit at 1. cbn [working commits opened_on].
  unfold st_bind at 1. rewrite create_refresh_token_run.
  cbn [working with_users refresh_token_table].
  case_bool_decide; reflexivity.
Qed.

Lemma head_filter_snoc {A} (P : A → Prop) `{∀ x, Decision (P x)}
    (l : list A) (x : A) :
  head (filter P l) = None → P x → head (filter P (l ++ [x])) = Some x.
Proof.
  intros Hnone Hx. rewrite filter_app.
  apply head_None in Hnone. rewrite Hnone. cbn [app].
  rewrite filter_cons, decide_True by done. done.
Qed.

(** X22. [register] behind its decorator.  A request the decorator does
    not admit (a limit is used up, or the store of the limits fails) is
    refused with the database untouched.  For an admitted request,
    [register] answers 400 and changes nothing when the email is taken;
    otherwise it adds the user, active, with the next id and the hash of
    the password, and issues a token pair, which reaches the client only
    when the key of the request is empty: a request that was counted is
    answered with the exception of the header injection, after the user
    and the refresh row were committed.  From then on a second
    registration of that email is refused with 400, and the body of a
    login with the same email and password issues a pair, handed out or
    replaced by the exception in the same way, for a password scheme that
    verifies what it has hashed and a client that is not locked out. *)
Theorem register_then_login `{CryptContext} cfg check request user_in now
    ua ur db :
  (∀ p, verify_password p (get_password_hash p) = true) →
  uuid_str ur ∉ rt_jti <$> refresh_token_table db →
  let out := run_request (register cfg check request user_in now ua ur) db in
  (¬ admitted check request → out.1 = db ∧ ∃ e, out.2 = Raise e) ∧
  (admitted check request →
   is_Some (head (filter (λ u, email u = username user_in) (users db))) →
   out = (db, Raise (HTTPExc {| status_code := 400;
                                detail := "האימייל כבר במערכת";
                                headers := [] |}))) ∧
  (admitted check request →
   head (filter (λ u, email u = username user_in) (users db)) = None →
   ∃ pair,
     out.2 = decorated request (Return pair) ∧
     users out.1
     = users db ++ [{| user_id := next_id (user_id <$> users db);
                       email := username user_in;
                       hashed_password := get_password_hash (password user_in);
                       is_active := true |}] ∧
     (∃ row, row ∈ refresh_token_table out.1 ∧
             rt_user_id row = next_id (user_id <$> users db) ∧
             revoked row = false) ∧
     (∀ check' request' other now' ua' ur',
        admitted check' request' →
        username other = username user_in →
        status_of (run_request
                     (register cfg check' request' other now' ua' ur')
                     out.1).2 = 400) ∧
     (∀ check' request' now' ua' ur' d,
        admitted check' request' →
        1 < BRUTE_FORCE_MAX_ATTEMPTS cfg →
        redis_lookup d
          (_get_key "brute_force"
             (_get_client_ip request' +:+ ":" +:+ username user_in))
          (mstime now') = None →
        uuid_str ur' ∉ rt_jti <$> refresh_token_table out.1 →
        let app := {| limiter := {| redis_client := Some (healthy d) |};
                      session := open_session out.1 |} in
        ∃ pair',
          (login_body cfg request' user_in now' ua' ur' app).2 = Return pair' ∧
          (login cfg check' request' user_in now' ua' ur' app).2
            = decorated request' (Return pair'))).
Proof.
  intros Hlaw Hfresh out. split; [|split].
  - intros Hnot. unfold out, run_request, register.
    destruct (limiter_limit_refused check request
                (register_body cfg request user_in now ua ur)
                (open_session db) Hnot) as [e ->].
    split; [reflexivity|by exists e].
  - intros Hadm [existing Hexisting]. unfold out, register.
    rewrite run_request_admitted, register_run, Hexisting by done.
    cbn [fst snd]. by rewrite decorated_raise.
  - intros Hadm Hnone. unfold out, register.
    rewrite run_request_admitted, register_run, Hnone by done. cbv zeta.
    rewrite bool_decide_false by done. cbn [fst snd].
    eexists. split; [reflexivity|]. split; [reflexivity|].
    set (user := {| user_id := _; email := _; hashed_password := _;
                    is_active := true |}).
    set (db2 := with_refresh_tokens _ _).
    assert (∀ mail, mail = username user_in →
              head (filter (λ u, email u = mail) (users db2)) = Some user)
      as Hfound.
    { intros mail ->. cbn [db2 with_refresh_tokens with_users users].
      by apply head_filter_snoc. }
    split; [|split].
    + eexists. split.
      * cbn [db2 with_refresh_tokens refresh_token_table].
        apply elem_of_app. right. apply list_elem_of_here.
      * done.
    + intros check' request' other now' ua' ur' Hadm' Hsame.
      unfold register.
      rewrite run_request_admitted, register_run, (Hfound _ Hsame) by done.
      cbn [fst snd]. by rewrite decorated_raise.
    + intros check' request' now' ua' ur' d Hadm' Hmax Hcount Hfresh'.
      set (app := {| limiter := _; session := _ |}).
      destruct (record_first_failure cfg _ now' d Hmax Hcount)
        as (d1 & c & Hrec).
      destruct (login_body_succeeds cfg request' user_in now' ua' ur' app
                  user c) as (app' & pair' & Hrun).
      * cbn [app limiter]. by rewrite Hrec.
      * cbn [app session working open_session]. by apply Hfound.
      * cbn [user hashed_password]. apply Hlaw.
      * exact Hfresh'.
      * exists pair'. unfold login.
        rewrite limiter_limit_admitted by done. rewrite Hrun. done.
Qed.

(** Carol registers from 1.2.3.4 and her request is counted: she is
    answered with the exception of the decorator, but she is a user from
    then on; registering again is refused, and her login issues tokens
    that the decorator withholds in the same way.  The same registration
    with a forwarding header whose first entry is empty hands out the
    pair. *)
Lemma register_then_login_witness :
  let carol := {| username := "carol@b.com"; password := "pw3-long" |} in
  let out :=
    run_request (@register test_crypt cfg0 LimitCounted request0 carol t0 7 8)
                db_sessions in
  let app := {| limiter := {| redis_client := Some (healthy ∅) |};
                session := open_session out.1 |} in
  out.2 = Raise (PlainException response_required) ∧
  (email <$> users out.1) = ["a@b.com"; "bob@b.com"; "carol@b.com"] ∧
  status_of
    (run_request (@register test_crypt cfg0 LimitCounted request0 carol
                    (t0 + 1000000) 9 10) out.1).2 = 400 ∧
  (∃ pair, (@login_body test_crypt cfg0 request0 carol (t0 + 1000000) 9 10
              app).2 = Return pair) ∧
  (@login test_crypt cfg0 LimitCounted request0 carol (t0 + 1000000) 9 10
     app).2 = Raise (PlainException response_required) ∧
  ∃ pair,
    (run_request
       (@register test_crypt cfg0 LimitCounted (forwarded_request ",")
          carol t0 7 8) db_sessions).2 = Return pair.
Proof.
  intros carol out app.
  assert (∀ p, @verify_password test_crypt p (@get_password_hash test_crypt p)
               = true) as Hlaw.
  { intros p. unfold verify_password, get_password_hash. cbn.
    by rewrite bool_decide_true. }
  assert (uuid_str 8 ∉ rt_jti <$> refresh_token_table db_sessions) as Hfresh.
  { apply (bool_decide_unpack _). vm_compute. exact I. }
  assert (admitted LimitCounted request0) as Hadm by (by right).
  destruct (@register_then_login test_crypt cfg0 LimitCounted request0 carol
              t0 7 8 db_sessions Hlaw Hfresh) as (_ & _ & Hnew).
  destruct (Hnew Hadm) as (pair & Hpair & Husers & _ & Hagain & Hlogin);
    [vm_compute; reflexivity|].
  destruct (Hlogin LimitCounted request0 (t0 + 1000000) 9%N 10%N ∅ Hadm)
    as (pair' & Hbody & Hroute).
  { reflexivity. }
  { vm_compute. reflexivity. }
  { apply (bool_decide_unpack _). vm_compute. exact I. }
  destruct (@register_then_login test_crypt cfg0 LimitCounted
              (forwarded_request ",") carol t0 7 8 db_sessions Hlaw Hfresh)
    as (_ & _ & Hempty).
  destruct Hempty as (pair0 & Hpair0 & _);
    [left; vm_compute; reflexivity|vm_compute; reflexivity|].
  split; [exact Hpair|]. split.
  { fold out in Husers. rewrite Husers. vm_compute. reflexivity. }
  split; [by apply Hagain|]. split; [by exists pair'|].
  split; [exact Hroute|]. exists pair0. exact Hpair0.
Defined.

(** ** Rotation hands out a pair that works *)

Lemma refresh_tokens_pair cfg request body now ua ur s s' pair :
  refresh_tokens cfg request body now ua ur s = (s', Return pair) →
  ∃ u t,
    verify_result cfg (body_refresh_token body) now (working s)
      = Return (u, t) ∧
    let s1 := (db_update_refresh_token (revoke t now) s).1 in
    let s2 := (block_refresh_token (rt_jti t) (rt_expires_at t)
                 (Some (user_id u)) (Some "Token rotation") now s1).1 in
    ∃ issued,
      create_refresh_token cfg u (Some (user_agent request))
        (Some (_get_client_ip request)) now ur s2 = (s', Return issued) ∧
      pair = {| access_token :=
                  create_access_token cfg (sub_only (email u)) None now ua;
                refresh_token := issued.1;
                pair_token_type := "bearer";
                expires_in := ACCESS_TOKEN_EXPIRE_MINUTES cfg * 60 |}.
Proof.
  unfold refresh_tokens. unfold st_bind at 1.
  rewrite verify_refresh_token_run.
  destruct (verify_result _ _ _ _) as [[u t]|e]; [|done].
  intros Hrun. exists u, t. split; [done|]. cbv zeta.
  revert Hrun. unfold st_bind at 1.
  destruct (db_update_refresh_token (revoke t now) s) as [s1 [[]|e1]] eqn:Hup;
    [|done].
  unfold st_bind at 1. cbn [fst].
  destruct (block_refresh_token _ _ _ _ _ s1) as [s2 [b|e2]] eqn:Hbl; [|done].
  unfold st_bind at 1. cbn [fst].
  destruct (create_refresh_token _ _ _ _ _ _ s2) as [s3 [issued|e3]] eqn:Hcr;
    [|done].
  unfold st_ret. intros [= <- <-]. eauto.
Qed.

(** X23. The pair a successful rotation returns is good: until the new
    row expires, [verify_refresh_token] accepts the new refresh token and
    hands back the new row, for the user the old token belonged to; and
    [get_current_user] accepts the new access token for that user up to the
    second of its expiry, unless the registry already held its
    unique-id. *)
Theorem rotation_round_trip cfg request body now ua ur db s' pair now' :
  refresh_tokens cfg request body now ua ur (open_session db)
    = (s', Return pair) →
  now' < now + timedelta_days (REFRESH_TOKEN_EXPIRE_DAYS cfg) →
  ∃ u t row,
    verify_result cfg (body_refresh_token body) now db = Return (u, t) ∧
    verify_result cfg (refresh_token pair) now' (durable s')
      = Return (u, row) ∧
    rt_jti row = uuid_str ur ∧ rt_user_id row = user_id u ∧
    (timegm now'
       ≤ timegm (now + timedelta_minutes (ACCESS_TOKEN_EXPIRE_MINUTES cfg)) →
     (∀ b, b ∈ token_blocklist (durable s') → bl_jti b ≠ uuid_str ua) →
     (get_current_user cfg (access_token pair) now'
        (open_session (durable s'))).2 = Return u).
Proof.
  intros Hrun Hlive.
  apply refresh_tokens_pair in Hrun as (u & t & Hv & issued & Hcreate & ->).
  cbv zeta in Hcreate. change (working (open_session db)) with db in Hv.
  pose proof (verify_result_user _ _ _ _ _ _ Hv) as (mail & Hsub & Hu & Hact).
  pose proof (verify_result_returns _ _ _ _ _ _ Hv)
    as (payload & jti & mail' & Htok & _ & _ & _ & Hsub' & Hmne & _).
  rewrite Htok in Hsub. cbn in Hsub. rewrite Hsub' in Hsub.
  injection Hsub as ->.
  pose proof (head_filter_Some _ _ _ Hu) as [_ Hmail].
  set (s2 := (block_refresh_token (rt_jti t) (rt_expires_at t)
                (Some (user_id u)) (Some "Token rotation") now
                (db_update_refresh_token (revoke t now) (open_session db)).1).1)
    in *.
  assert (users (working s2) = users db) as Husers.
  { unfold s2, block_refresh_token.
    destruct (block_token_after "refresh" (rt_jti t) (rt_expires_at t)
                (Some (user_id u)) (Some "Token rotation") now
                (db_update_refresh_token (revoke t now) (open_session db)).1)
      as (_ & _ & Hus & _).
    cbv zeta in Hus. by rewrite Hus. }
  destruct issued as [token row].
  destruct (created_token_verifies cfg u (Some (user_agent request))
              (Some (_get_client_ip request)) now ur s2 s' token row u now'
              Hcreate) as (Hverify & Hdur & Hrow & Huid & _ & _).
  { by rewrite Husers, Hmail. }
  { done. }
  { by rewrite Hmail. }
  { done. }
  cbn [access_token refresh_token].
  exists u, t, row. split; [done|]. rewrite Hdur. split; [done|].
  assert (rt_jti row = uuid_str ur) as Hjti.
  { rewrite create_refresh_token_run in Hcreate.
    destruct (bool_decide (uuid_str ur ∈ _)); [discriminate|].
    cbv zeta in Hcreate. by injection Hcreate as _ _ <-. }
  split; [done|]. split; [done|].
  intros Htime Hfree.
  assert (users (working s') = users db) as Husers'.
  { rewrite create_refresh_token_run in Hcreate.
    destruct (bool_decide (uuid_str ur ∈ _)); [discriminate|].
    cbv zeta in Hcreate. injection Hcreate as <- _ _. cbn. done. }
  unfold create_access_token, jwt_encode.
  rewrite (get_current_user_live cfg _ now' _ (email u) u); try done.
  - cbn [snd working open_session].
    rewrite (bool_decide_false (Exists _ _)); [by rewrite andb_false_r|].
    rewrite Exists_exists. intros (b & Hb & Hj & _).
    apply (Hfree b Hb). rewrite Hj.
    by destruct (issued_access_claims cfg (sub_only (email u)) None now ua)
      as [-> _].
  - cbn. intros e [= <-]. exact Htime.
  - cbn [working open_session]. by rewrite Husers', Hmail.
Qed.

Lemma rotation_round_trip_witness :
  ∃ u t row,
    verify_result cfg0 alice_refresh_token t0 db_sessions = Return (u, t) ∧
    rt_jti row = uuid_str 8.
Proof.
  destruct (refresh_tokens cfg0 request0 rotate_request t0 7 8
              (open_session db_sessions)) as [s' [pair|e]] eqn:Hrun;
    [|vm_compute in Hrun; discriminate Hrun].
  destruct (rotation_round_trip cfg0 request0 rotate_request t0 7 8
              db_sessions s' pair (t0 + 1000000) Hrun)
    as (u & t & row & Hv & _ & Hj & _).
  - vm_compute. reflexivity.
  - exists u, t, row. split; [exact Hv|exact Hj].
Defined.

(** ** The properties above, on the small deployment *)

(** A token that was logged out still opens a WebSocket, and so does a
    refresh token. *)
Example websocket_after_logout :
  (get_current_user cfg0 blocked_access_token t0 (open_session db_blocked)).2
    = Raise (HTTPExc (rejection_response Revoked)) ∧
  (websocket_endpoint cfg0 blocked_access_token t0 (open_session db_blocked)).2
    = Return (WsConnected alice) ∧
  (websocket_endpoint cfg0 alice_refresh_token t0 (open_session db_sessions)).2
    = Return (WsConnected alice).
Proof. vm_compute. repeat split; reflexivity. Qed.

(** The GraphQL context of a deactivated account's token holds the user. *)
Example graphql_context_of_inactive_user :
  (get_current_user cfg0 inactive_access_token t0 (open_session db_users)).2
    = Raise (HTTPExc (rejection_response InactiveSubject)) ∧
  (get_graphql_context cfg0 (with_bearer inactive_access_token) t0
     (open_session db_users)).2 = Return (Some bob_inactive).
Proof. vm_compute. repeat split; reflexivity. Qed.

(** Alice deletes her account: her two sessions are revoked, her row is
    anonymised, and her access token, which is not on the registry, is
    turned down for its subject. *)
Example alice_deletes_her_account :
  let db' := (run_request (@delete_me test_crypt alice t0 1767225600 "r4nd0m")
                db_sessions).1 in
  (email <$> users db') = ["deleted_1_1767225600@deleted.local"; "bob@b.com"] ∧
  (revoked <$> refresh_token_table db') = [true; true; false] ∧
  token_blocklist db' = [] ∧
  (get_current_user cfg0 alice_access_token t0 (open_session db')).2
    = Raise (HTTPExc credentials_exception).
Proof. vm_compute. repeat split; reflexivity. Qed.
